(** * A Dyna-style planning agent (agent.py, environment.py)

    Shallow embedding of the [DynaAgent] and [MyDynaAgent] classes of
    [agent.py] and of the parts of [Environment] they read.

    Conventions of the embedding:
    - numpy [float64] cells (the Q-table, the counters of the
      distance-weighted variant, the transition probabilities) are real
      numbers [R]; rounding, infinities and NaN are not modelled;
    - numpy [int] cells (the experience buffer, the history, the rewards,
      the counters of the baseline variant) are integers [Z]: the 64-bit
      range is not modelled, a counter grows by one per decision step and
      a reward sum by one reward; state and action indices are naturals,
      as they only come from [range], [np.arange] and [np.flatnonzero];
    - a Python exception ([IndexError], [ValueError]) is the result [None]
      of the state-and-error monad [M];
    - the process-wide generator [np.random] is a stream of raw draws with
      a cursor, carried in the state. *)

From Stdlib Require Import Reals Lra Lia ZArith.
From stdpp Require Import base list option.

(** ** The environment (environment.py) *)

Module Environment.

(** The attributes of an [Environment] instance that the agent reads.
    [T] and [R] are the tables built by [_generate_env_model]. *)
Record t := Build {
  num_x_states : nat;
  num_y_states : nat;
  num_actions : nat;
  start_state : nat;
  goal_state : nat;
  T : list (list (list Rdefinitions.R));
  R : list (list Z) }.

(** [self.num_states = self.num_x_states * self.num_y_states] *)
Definition num_states (e : t) : nat := num_x_states e * num_y_states e.

(** [return s//self.num_x_states, s%self.num_x_states]; it is only ever
    evaluated on states below [num_states], so [num_x_states] is positive
    where it is called. *)
Definition _convert_state_to_coords (e : t) (s : nat) : nat * nat :=
  (s / num_x_states e, s mod num_x_states e).

End Environment.

(** ** Tables *)

(** One row [[s, a, r, s1]] of the experience buffer or of the history. *)
Record transition := Transition {
  t_s : nat;
  t_a : nat;
  t_r : Z;
  t_s1 : nat }.

(** [t[i, j]] of a two-dimensional array; [None] is the [IndexError]. *)
Definition get2 {A} (t : list (list A)) (i j : nat) : option A :=
  match t !! i with
  | Some row => row !! j
  | None => None
  end.

(** [t[i, j] = x]; [None] is the [IndexError]. *)
Definition set2 {A} (t : list (list A)) (i j : nat) (x : A)
  : option (list (list A)) :=
  match t !! i with
  | Some row =>
      match row !! j with
      | Some _ => Some (<[i := <[j := x]> row]> t)
      | None => None
      end
  | None => None
  end.

(** [l[i] = x] on a one-dimensional array of rows. *)
Definition set1 {A} (l : list A) (i : nat) (x : A) : option (list A) :=
  match l !! i with
  | Some _ => Some (<[i := x]> l)
  | None => None
  end.

(** [np.zeros((n, m))] *)
Definition zeros {A} (z : A) (n m : nat) : list (list A) :=
  replicate n (replicate m z).

(** [row.max()]; [None] is the [ValueError] on an empty row. *)
Definition row_max (row : list R) : option R :=
  match row with
  | [] => None
  | x :: rest => Some (foldl Rmax x rest)
  end.

(** [np.flatnonzero(mask)]: the indices of the true cells, ascending. *)
Fixpoint flatnonzero_from (i : nat) (mask : list bool) : list nat :=
  match mask with
  | [] => []
  | b :: rest =>
      if b then i :: flatnonzero_from (S i) rest
      else flatnonzero_from (S i) rest
  end.

Definition flatnonzero (mask : list bool) : list nat :=
  flatnonzero_from 0 mask.

(** [x == y] on floats. *)
Definition Reqb (x y : R) : bool :=
  if Req_dec_T x y then true else false.

(** [0 < x] on floats. *)
Definition Rpos (x : R) : bool :=
  if Rlt_dec 0 x then true else false.

(** [np.sum(row)] *)
Definition Rsum (row : list R) : R := foldr Rplus 0%R row.

(** [np.cumsum(l)] on integers. *)
Fixpoint cumsum_from (acc : Z) (l : list Z) : list Z :=
  match l with
  | [] => []
  | x :: rest => (acc + x)%Z :: cumsum_from (acc + x)%Z rest
  end.

Definition cumsum (l : list Z) : list Z := cumsum_from 0%Z l.

(** [True] counts as [1] and [False] as [0] in arithmetic. *)
Definition bool_to_R (b : bool) : R := if b then 1%R else 0%R.

(** ** The two counter variants

    [MyDynaAgent] overrides [_init_action_count] and
    [_update_action_count] of [DynaAgent] and inherits every other method.
    The overridden pair is the interface [ActionCount]; every other method
    is written once, over any instance. *)

Class ActionCount (C : Type) := {
  (* the conversion [np.sqrt] applies to a cell *)
  count_to_float : C -> R;
  (* the table built by [_init_action_count] *)
  init_count : Environment.t -> list (list C);
  (* the table left by [_update_action_count(s, a)] *)
  update_count : Environment.t -> nat -> nat -> list (list C)
                 -> option (list (list C)) }.

Module DynaAgent.

(** [self.action_count = np.zeros((num_states, num_actions), dtype=int)] *)
Definition _init_action_count (env : Environment.t) : list (list Z) :=
  zeros 0%Z (Environment.num_states env) (Environment.num_actions env).

(** [self.action_count += 1; self.action_count[s,a] = 0] *)
Definition _update_action_count (env : Environment.t) (s a : nat)
  (action_count : list (list Z)) : option (list (list Z)) :=
  set2 (map (map (fun c => (c + 1)%Z)) action_count) s a 0%Z.

#[global] Instance variant : ActionCount Z := {
  count_to_float := IZR;
  init_count := _init_action_count;
  update_count := _update_action_count }.

End DynaAgent.

Module MyDynaAgent.

(** [self.action_count = np.zeros((num_states, num_actions), dtype=float)] *)
Definition _init_action_count (env : Environment.t) : list (list R) :=
  zeros 0%R (Environment.num_states env) (Environment.num_actions env).

(** [coords = Environment._convert_state_to_coords(self,
    np.arange(self.num_states))]: the pair of the row array and the column
    array. *)
Definition coords (env : Environment.t) : list nat * list nat :=
  let states := seq 0 (Environment.num_states env) in
  (map (fun s => fst (Environment._convert_state_to_coords env s)) states,
   map (fun s => snd (Environment._convert_state_to_coords env s)) states).

(** [np.sqrt((coords[0]-coords[0][s])**2 + (coords[1]-coords[1][s])**2)];
    [None] is the [IndexError] of [coords[0][s]]. *)
Definition distance (env : Environment.t) (s : nat) : option (list R) :=
  let c := coords env in
  match fst c !! s, snd c !! s with
  | Some i0, Some j0 =>
      Some (zip_with
              (fun i j =>
                 sqrt (IZR ((Z.of_nat i - Z.of_nat i0) ^ 2
                            + (Z.of_nat j - Z.of_nat j0) ^ 2)))
              (fst c) (snd c))
  | _, _ => None
  end.

(** [self.action_count += distance.reshape(self.num_states,1);
    self.action_count[s,a] = 0].  The broadcast adds [distance[s']] to
    every cell of row [s']; it needs a table of [num_states] rows. *)
Definition _update_action_count (env : Environment.t) (s a : nat)
  (action_count : list (list R)) : option (list (list R)) :=
  match distance env s with
  | Some d =>
      if decide (length action_count = Environment.num_states env) then
        set2 (zip_with (fun row x => map (fun c => (c + x)%R) row)
                action_count d) s a 0%R
      else None
  | None => None
  end.

#[global] Instance variant : ActionCount R := {
  count_to_float := fun c => c;
  init_count := _init_action_count;
  update_count := _update_action_count }.

End MyDynaAgent.

(** ** The agent state and the monad of its methods *)

(** The mutable attributes of an agent whose counter cells have type [C],
    together with the state of [np.random]: the stream of raw draws that
    the seed determines and the number of draws consumed so far. *)
Record agent (C : Type) := Agent {
  Q : list (list R);
  experience_buffer : list transition;
  history : list transition;
  action_count : list (list C);
  self_s : nat;
  np_random : nat -> nat;
  np_random_pos : nat }.

Arguments Agent {C} _ _ _ _ _ _ _.
Arguments Q {C} _.
Arguments experience_buffer {C} _.
Arguments history {C} _.
Arguments action_count {C} _.
Arguments self_s {C} _.
Arguments np_random {C} _.
Arguments np_random_pos {C} _.

Definition set_Q {C} (v : list (list R)) (ag : agent C) : agent C :=
  Agent v (experience_buffer ag) (history ag) (action_count ag)
        (self_s ag) (np_random ag) (np_random_pos ag).

Definition set_experience_buffer {C} (v : list transition) (ag : agent C)
  : agent C :=
  Agent (Q ag) v (history ag) (action_count ag)
        (self_s ag) (np_random ag) (np_random_pos ag).

Definition set_history {C} (v : list transition) (ag : agent C) : agent C :=
  Agent (Q ag) (experience_buffer ag) v (action_count ag)
        (self_s ag) (np_random ag) (np_random_pos ag).

Definition set_action_count {C} (v : list (list C)) (ag : agent C)
  : agent C :=
  Agent (Q ag) (experience_buffer ag) (history ag) v
        (self_s ag) (np_random ag) (np_random_pos ag).

Definition set_self_s {C} (v : nat) (ag : agent C) : agent C :=
  Agent (Q ag) (experience_buffer ag) (history ag) (action_count ag)
        v (np_random ag) (np_random_pos ag).

Definition set_np_random_pos {C} (v : nat) (ag : agent C) : agent C :=
  Agent (Q ag) (experience_buffer ag) (history ag) (action_count ag)
        (self_s ag) (np_random ag) v.

(** A method either raises ([None]) or returns a value and the new state. *)
Definition M (C A : Type) : Type := agent C -> option (A * agent C).

Definition ret {C A} (x : A) : M C A := fun ag => Some (x, ag).

Definition bind {C A B} (m : M C A) (k : A -> M C B) : M C B :=
  fun ag =>
    match m ag with
    | Some (x, ag') => k x ag'
    | None => None
    end.

Definition raise {C A} : M C A := fun _ => None.

(** An indexing that may raise. *)
Definition lift {C A} (o : option A) : M C A :=
  fun ag =>
    match o with
    | Some x => Some (x, ag)
    | None => None
    end.

Definition get {C} : M C (agent C) := fun ag => Some (ag, ag).

Definition modify {C} (f : agent C -> agent C) : M C unit :=
  fun ag => Some (tt, f ag).

Declare Scope agent_scope.
Delimit Scope agent_scope with agent.

Notation "x <- m ;; k" := (bind m (fun x => k))
  (at level 100, m at next level, right associativity) : agent_scope.
Notation "m ;; k" := (bind m (fun _ => k))
  (at level 100, right associativity) : agent_scope.

Local Open Scope agent_scope.

(** [for _ in range(n): body] *)
Fixpoint for_range {C} (n : nat) (body : M C unit) : M C unit :=
  match n with
  | O => ret tt
  | S n' => body ;; for_range n' body
  end.

(** ** The random source *)

(** [np.random.randint(n)]: the next raw draw reduced to [0, n); a
    [ValueError] when [n = 0]. *)
Definition randint {C} (n : nat) : M C nat :=
  fun ag =>
    if decide (n = 0) then None
    else Some (np_random ag (np_random_pos ag) mod n,
               set_np_random_pos (S (np_random_pos ag)) ag).

(** [np.random.choice(arr)]: the cell at a uniformly drawn position; a
    [ValueError] on an empty array. *)
Definition choice {C} (arr : list nat) : M C nat :=
  i <- randint (length arr) ;;
  lift (arr !! i).

(** The checks [np.random.choice(np.arange(n), p=p)] makes on [p]: one
    weight per element, none negative, summing to one. *)
Definition valid_p (n : nat) (p : list R) : bool :=
  bool_decide (length p = n)
  && forallb (fun x => if Rle_dec 0 x then true else false) p
  && Reqb (Rsum p) 1.

(** [np.random.choice(np.arange(n), p=p)].  The weights decide how likely
    an outcome is; here they decide which outcomes are possible: the draw
    picks one of the indices of positive weight. *)
Definition choice_p {C} (n : nat) (p : list R) : M C nat :=
  if valid_p n p then choice (flatnonzero (map Rpos p)) else raise.

(** ** The methods of [DynaAgent], inherited by [MyDynaAgent] *)

Section Methods.

Context {C : Type} `{ActionCount C}.

(** The arguments of [__init__] and [init_env]. *)
Variables alpha gamma epsilon : R.
Variable env : Environment.t.

Let num_states := Environment.num_states env.
Let num_actions := Environment.num_actions env.

(** [self.Q = np.zeros((self.num_states, self.num_actions))] *)
Definition _init_q_values : M C unit :=
  modify (set_Q (zeros 0%R num_states num_actions)).

(** The table [_init_experience_buffer] builds: all zeros, then one
    assignment per state and action, in the order of the two loops. *)
Definition init_buffer : list transition :=
  foldl (fun buf s =>
           foldl (fun buf a => <[s * num_actions + a := Transition s a 0 s]> buf)
                 buf (seq 0 num_actions))
        (replicate (num_states * num_actions) (Transition 0 0 0 0))
        (seq 0 num_states).

Definition _init_experience_buffer : M C unit :=
  modify (set_experience_buffer init_buffer).

(** [self.history = np.empty((0, 4), dtype=int)] *)
Definition _init_history : M C unit :=
  modify (set_history []).

Definition _init_action_count : M C unit :=
  modify (set_action_count (init_count env)).

(** [self.experience_buffer[s*self.num_actions+a] = [s, a, r, s1]] *)
Definition _update_experience_buffer (s a : nat) (r : Z) (s1 : nat)
  : M C unit :=
  ag <- get ;;
  buf <- lift (set1 (experience_buffer ag) (s * num_actions + a)
                    (Transition s a r s1)) ;;
  modify (set_experience_buffer buf).

(** [self.Q[s,a] += self.alpha * ( r + self.epsilon * bonus *
    np.sqrt(self.action_count[s,a]) + self.gamma * self.Q[s1,:].max()
    - self.Q[s,a] )] *)
Definition _update_qvals (s a : nat) (r : Z) (s1 : nat) (bonus : bool)
  : M C unit :=
  ag <- get ;;
  q <- lift (get2 (Q ag) s a) ;;
  c <- lift (get2 (action_count ag) s a) ;;
  row1 <- lift (Q ag !! s1) ;;
  m <- lift (row_max row1) ;;
  Q' <- lift (set2 (Q ag) s a
                (q + alpha * (IZR r
                              + epsilon * bool_to_R bonus
                                * sqrt (count_to_float c)
                              + gamma * m - q))%R) ;;
  modify (set_Q Q').

(** Dispatches to the variant's [_update_action_count]. *)
Definition _update_action_count (s a : nat) : M C unit :=
  ag <- get ;;
  cnt <- lift (update_count env s a (action_count ag)) ;;
  modify (set_action_count cnt).

(** [self.history = np.vstack((self.history, np.array([s, a, r, s1])))] *)
Definition _update_history (s a : nat) (r : Z) (s1 : nat) : M C unit :=
  modify (fun ag => set_history (history ag ++ [Transition s a r s1]) ag).

(** [Q_exp = self.Q[s,:] + self.epsilon * np.sqrt(self.action_count[s,:])];
    the two rows have the same number of cells, as both tables are created
    with [num_actions] columns. *)
Definition Q_exp (ag : agent C) (s : nat) : option (list R) :=
  match Q ag !! s, action_count ag !! s with
  | Some qrow, Some crow =>
      Some (zip_with (fun q c => (q + epsilon * sqrt (count_to_float c))%R)
                     qrow crow)
  | _, _ => None
  end.

(** [np.flatnonzero(Q_exp == Q_exp.max())] *)
Definition maximizers (scores : list R) : option (list nat) :=
  match row_max scores with
  | Some m => Some (flatnonzero (map (fun x => Reqb x m) scores))
  | None => None
  end.

(** [a = np.random.choice( np.flatnonzero(Q_exp == Q_exp.max()) )] *)
Definition _policy (s : nat) : M C nat :=
  ag <- get ;;
  scores <- lift (Q_exp ag s) ;;
  cands <- lift (maximizers scores) ;;
  choice cands.

(** Lines 163-164 of [_plan]: one row of the experience buffer, at a
    uniformly drawn index. *)
Definition sample : M C transition :=
  ag <- get ;;
  i <- randint (length (experience_buffer ag)) ;;
  lift (experience_buffer ag !! i).

(** The body of the loop of [_plan]. *)
Definition plan_iter : M C unit :=
  tr <- sample ;;
  _update_qvals (t_s tr) (t_a tr) (t_r tr) (t_s1 tr) true.

Definition _plan (num_planning_updates : nat) : M C unit :=
  for_range num_planning_updates plan_iter.

(** [return np.cumsum(self.history[:, 2])] *)
Definition get_performace (ag : agent C) : list Z :=
  cumsum (map t_r (history ag)).

(** The body of the loop of [simulate]: one decision step. *)
Definition trial (num_planning_updates : option nat) : M C unit :=
  ag <- get ;;
  let s := self_s ag in
  a <- _policy s ;;
  p <- lift (get2 (Environment.T env) s a) ;;
  s1 <- choice_p num_states p ;;
  r <- lift (get2 (Environment.R env) s a) ;;
  _update_qvals s a r s1 false ;;
  _update_experience_buffer s a r s1 ;;
  _update_action_count s a ;;
  _update_history s a r s1 ;;
  match num_planning_updates with
  | Some n => _plan n
  | None => ret tt
  end ;;
  modify (set_self_s (if decide (s1 = Environment.goal_state env)
                      then Environment.start_state env else s1)).

(** The block under [if reset_agent:]. *)
Definition reset : M C unit :=
  _init_q_values ;;
  _init_experience_buffer ;;
  _init_action_count ;;
  _init_history ;;
  modify (set_self_s (Environment.start_state env)).

Definition simulate (num_trials : nat) (reset_agent : bool)
  (num_planning_updates : option nat) : M C unit :=
  (if reset_agent then reset else ret tt) ;;
  for_range num_trials (trial num_planning_updates).

End Methods.

(** ** Vocabulary of the specification *)

(** [m] is the maximum of [row]: it occurs in the row and bounds it. *)
Definition is_max (row : list R) (m : R) : Prop :=
  m ∈ row ∧ ∀ x, x ∈ row → (x <= m)%R.

(** [(n, m)]-shaped table: [n] rows of [m] cells. *)
Definition shape {A} (n m : nat) (t : list (list A)) : Prop :=
  length t = n ∧ ∀ i row, t !! i = Some row → length row = m.

(** The value the learning step writes into [Q[s,a]]. *)
Definition td_target {C} `{ActionCount C} (alpha gamma epsilon : R)
  (q : R) (r : Z) (bonus : bool) (c : C) (m : R) : R :=
  (q + alpha * (IZR r + epsilon * bool_to_R bonus * sqrt (count_to_float c)
                + gamma * m - q))%R.

(** The score of action [a] in state [s]:
    [Q[s,a] + epsilon * sqrt(counter[s,a])]. *)
Definition score {C} `{ActionCount C} (epsilon : R) (ag : agent C)
  (s a : nat) : option R :=
  match get2 (Q ag) s a, get2 (action_count ag) s a with
  | Some q, Some c => Some (q + epsilon * sqrt (count_to_float c))%R
  | _, _ => None
  end.

(** [np.random.seed]: the agent with the generator restarted on the
    stream [draws]. *)
Definition seed {C} (draws : nat -> nat) (ag : agent C) : agent C :=
  Agent (Q ag) (experience_buffer ag) (history ag) (action_count ag)
        (self_s ag) draws 0.

(** The Euclidean distance between the grid cells of two states. *)
Definition euclidean (env : Environment.t) (s s' : nat) : R :=
  let '(i, j) := Environment._convert_state_to_coords env s in
  let '(i', j') := Environment._convert_state_to_coords env s' in
  sqrt ((INR i' - INR i) ^ 2 + (INR j' - INR j) ^ 2).

(** The state in which the step after a step landing in [s1] begins. *)
Definition next_start (env : Environment.t) (s1 : nat) : nat :=
  if decide (s1 = Environment.goal_state env)
  then Environment.start_state env else s1.

(** The log [log] of consecutive decision steps starts in state [cur],
    each step starts where the rule [next_start] sends the step before
    it, and the rule sends the last step to [final]. *)
Fixpoint follows (env : Environment.t) (cur : nat) (log : list transition)
  (final : nat) : Prop :=
  match log with
  | [] => final = cur
  | tr :: rest =>
      t_s tr = cur ∧ follows env (next_start env (t_s1 tr)) rest final
  end.


(** Row [i] of the experience buffer belongs to the pair
    [(i div num_actions, i mod num_actions)] and its next state is a
    state. *)
Definition slot_ok (env : Environment.t) (i : nat) (tr : transition) : Prop :=
  t_s tr = i / Environment.num_actions env
  ∧ t_a tr = i mod Environment.num_actions env
  ∧ t_s1 tr < Environment.num_states env.

Definition buffer_ok (env : Environment.t) (buf : list transition) : Prop :=
  length buf = Environment.num_states env * Environment.num_actions env
  ∧ ∀ i tr, buf !! i = Some tr → slot_ok env i tr.

(** What the agent takes for granted about its environment (section 6 of
    the specification): at least one action, a start state that is a
    state, a reward for every pair and a probability row over the states
    for every pair. *)
Definition env_ok (env : Environment.t) : Prop :=
  0 < Environment.num_actions env
  ∧ Environment.start_state env < Environment.num_states env
  ∧ ∀ s a, s < Environment.num_states env → a < Environment.num_actions env →
      is_Some (get2 (Environment.R env) s a)
      ∧ ∃ p, get2 (Environment.T env) s a = Some p
             ∧ valid_p (Environment.num_states env) p = true.

(** The laws both counter variants obey: tables keep the shape of the
    Q-table, and an update at a cell of the table does not raise. *)
Class ActionCountLaws (C : Type) `{ActionCount C} : Prop := {
  init_count_shape : ∀ env,
    shape (Environment.num_states env) (Environment.num_actions env)
          (init_count env);
  update_count_shape : ∀ env s a cnt cnt',
    shape (Environment.num_states env) (Environment.num_actions env) cnt →
    update_count env s a cnt = Some cnt' →
    shape (Environment.num_states env) (Environment.num_actions env) cnt';
  update_count_total : ∀ env s a cnt,
    shape (Environment.num_states env) (Environment.num_actions env) cnt →
    s < Environment.num_states env → a < Environment.num_actions env →
    is_Some (update_count env s a cnt) }.

(** Well-formed tables: a Q-table and a counter table of the right shape,
    an experience buffer whose rows are owned by their slots. *)
Definition tables_ok {C} (env : Environment.t) (ag : agent C) : Prop :=
  shape (Environment.num_states env) (Environment.num_actions env) (Q ag)
  ∧ shape (Environment.num_states env) (Environment.num_actions env)
          (action_count ag)
  ∧ buffer_ok env (experience_buffer ag).

(** The well-formed agent states: well-formed tables and a current state
    that is a state. *)
Definition wf {C} (env : Environment.t) (ag : agent C) : Prop :=
  tables_ok env ag ∧ self_s ag < Environment.num_states env.

(** The states an agent can be in between two decision steps: after a
    reset, then after any number of decision steps and planning calls. *)
Inductive reachable {C} `{ActionCount C} (alpha gamma epsilon : R)
  (env : Environment.t) : agent C → Prop :=
| reachable_reset ag ag' :
    reset env ag = Some (tt, ag') →
    reachable alpha gamma epsilon env ag'
| reachable_trial ag ag' npu :
    reachable alpha gamma epsilon env ag →
    trial alpha gamma epsilon env npu ag = Some (tt, ag') →
    reachable alpha gamma epsilon env ag'
| reachable_plan ag ag' n :
    reachable alpha gamma epsilon env ag →
    _plan alpha gamma epsilon n ag = Some (tt, ag') →
    reachable alpha gamma epsilon env ag'.

(** ** Small instances, for the examples *)

(** A corridor of two cells and one action: from either cell the action
    leads to the second cell, the goal; leaving the first cell pays 10. *)
Definition corridor : Environment.t :=
  Environment.Build 2 1 1 0 1 [[[0; 1]]; [[0; 1]]]%R [[10]; [0]]%Z.

(** The baseline agent in the corridor, right after a reset. *)
Definition fresh : agent Z :=
  Agent (zeros 0%R 2 1) (init_buffer corridor) [] (init_count corridor) 0
        (λ _, 1) 0.

(** A baseline agent with two states and two actions, part-way through a
    run: the two actions of state 0 have equal Q-values. *)
Definition midway : agent Z :=
  Agent [[0; 0]; [1; 2]]%R
        [Transition 0 0 0 0; Transition 0 1 0 0;
         Transition 1 0 0 1; Transition 1 1 0 1]
        [Transition 0 0 10 1; Transition 0 0 0 0; Transition 0 1 10 1]
        [[4; 0]; [1; 1]]%Z 0 (λ _, 1) 0.

(** A two-by-two grid, and a distance-weighted agent on it. *)
Definition grid : Environment.t :=
  Environment.Build 2 2 4 0 3 [] [].

Definition roaming : agent R :=
  Agent (zeros 0%R 4 4) (init_buffer grid) [] (init_count grid) 0 (λ _, 0) 0.

(** ** Building the environment (environment.py) *)

(** [l[i]] with a Python integer: a negative index counts from the end;
    [None] is the [IndexError]. *)
Definition np_index {A} (l : list A) (i : Z) : option A :=
  if (0 <=? i)%Z then l !! Z.to_nat i
  else if (- Z.of_nat (length l) <=? i)%Z
       then l !! Z.to_nat (i + Z.of_nat (length l))
       else None.

(** [l.reshape(rows, cols)] of an array of [rows * cols] cells. *)
Fixpoint reshape {A} (rows cols : nat) (l : list A) : list (list A) :=
  match rows with
  | O => []
  | S rows' => take cols l :: reshape rows' cols (drop cols l)
  end.

(** [for x in l: body], where the body may raise. *)
Fixpoint for_each {A St} (l : list A) (body : A -> St -> option St)
  (st : St) : option St :=
  match l with
  | [] => Some st
  | x :: rest =>
      match body x st with
      | Some st' => for_each rest body st'
      | None => None
      end
  end.

Module Maze.

(** The keyword arguments of [Environment.__init__]. *)
Record config := Config {
  num_x_states : nat;
  num_y_states : nat;
  num_actions : nat;
  blocked_states : list nat;
  goal_state : nat;
  start_state : nat;
  reward_at_goal : Z }.

Definition num_states (c : config) : nat := num_x_states c * num_y_states c.

(** The instance as [__init__] has it when it calls
    [_generate_env_model]: the attributes are set, the tables are not. *)
Definition attributes (c : config) : Environment.t :=
  Environment.Build (num_x_states c) (num_y_states c) (num_actions c)
                    (start_state c) (goal_state c) [] [].

(** [np.arange(num_y_states*num_x_states).reshape(num_y_states,
    num_x_states)[i][j]] *)
Definition _convert_coords_to_state (c : config) (i j : Z) : option nat :=
  match np_index (reshape (num_y_states c) (num_x_states c)
                          (seq 0 (num_y_states c * num_x_states c))) i with
  | Some row => np_index row j
  | None => None
  end.

(** [_get_new_state(s, a)]: the next state and the reward. *)
Definition _get_new_state (c : config) (s a : nat) : option (nat * Z) :=
  let '(i, j) := Environment._convert_state_to_coords (attributes c) s in
  let i := Z.of_nat i in
  let j := Z.of_nat j in
  let r := 0%Z in
  (* check boundaries *)
  let at_row_end :=
    if (i =? 0)%Z then a =? 0
    else if (i =? Z.of_nat (num_y_states c) - 1)%Z then a =? 1
    else false in
  let at_column_end :=
    if (j =? 0)%Z then a =? 2
    else if (j =? Z.of_nat (num_x_states c) - 1)%Z then a =? 3
    else false in
  if at_row_end then Some (s, r)
  else if at_column_end then Some (s, r)
  else
    let '(ni, nj) :=
      if a =? 0 then (i - 1, j)%Z
      else if a =? 1 then (i + 1, j)%Z
      else if a =? 2 then (i, j - 1)%Z
      else (i, j + 1)%Z in
    match _convert_coords_to_state c ni nj with
    | Some s1 =>
        (* check blocked states *)
        if bool_decide (s1 ∈ blocked_states c) then Some (s, r)
        (* check if goal *)
        else if bool_decide (s1 = goal_state c)
             then Some (s1, reward_at_goal c)
             else Some (s1, r)
    | None => None
    end.

(** The body of the first pair of loops of [_generate_env_model]:
    [s1, r = self._get_new_state(s, a); self.T[s, a, s1] += 1;
    self.R[s, a] = r]. *)
Definition fill_step (c : config) (s a : nat)
  (st : list (list (list R)) * list (list Z))
  : option (list (list (list R)) * list (list Z)) :=
  match _get_new_state c s a with
  | Some (s1, r) =>
      match get2 (fst st) s a with
      | Some row =>
          match row !! s1 with
          | Some x =>
              match set2 (fst st) s a (<[s1 := (x + 1)%R]> row),
                    set2 (snd st) s a r with
              | Some T', Some R' => Some (T', R')
              | _, _ => None
              end
          | None => None
          end
      | None => None
      end
  | None => None
  end.

(** The body of the second pair of loops:
    [if ~np.all(self.T[s, a, :] == 0):
         self.T[s, a, :] /= np.sum(self.T[s, a, :])]. *)
Definition normalise_step (s a : nat) (T : list (list (list R)))
  : option (list (list (list R))) :=
  match get2 T s a with
  | Some row =>
      if forallb (fun x => Reqb x 0) row then Some T
      else set2 T s a (map (fun x => (x / Rsum row)%R) row)
  | None => None
  end.

(** [_generate_env_model]: the tables [T] and [R]. *)
Definition _generate_env_model (c : config)
  : option (list (list (list R)) * list (list Z)) :=
  let T0 := replicate (num_states c)
              (zeros 0%R (num_actions c) (num_states c)) in
  let R0 := zeros 0%Z (num_states c) (num_actions c) in
  match for_each (seq 0 (num_states c))
                 (fun s => for_each (seq 0 (num_actions c)) (fill_step c s))
                 (T0, R0) with
  | Some (T1, R1) =>
      match for_each (seq 0 (num_states c))
                     (fun s => for_each (seq 0 (num_actions c))
                                        (normalise_step s))
                     T1 with
      | Some T2 => Some (T2, R1)
      | None => None
      end
  | None => None
  end.

(** [Environment.__init__], on the keyword arguments [c]. *)
Definition __init__ (c : config) : option Environment.t :=
  match _generate_env_model c with
  | Some (T, R) =>
      Some (Environment.Build (num_x_states c) (num_y_states c)
                              (num_actions c) (start_state c) (goal_state c)
                              T R)
  | None => None
  end.

End Maze.

(** A row with a one in cell [k] and zeros elsewhere. *)
Definition one_hot (n k : nat) : list R := <[k := 1%R]> (replicate n 0%R).

(** A three-by-three maze with the four moves, a wall in the middle and
    the goal in the last cell. *)
Definition maze : Maze.config := Maze.Config 3 3 4 [4] 8 0 10.

(** A maze of one row. *)
Definition one_row : Maze.config := Maze.Config 3 1 4 [] 2 0 10.

(** The state one cell away from [s] in the direction of action [a]:
    up, down, left, right. *)
Definition neighbour (c : Maze.config) (s a : nat) : nat :=
  match a with
  | 0 => s - Maze.num_x_states c
  | 1 => s + Maze.num_x_states c
  | 2 => s - 1
  | _ => s + 1
  end.

(** State [s] lies on the edge of the grid that action [a] moves to. *)
Definition at_wall (c : Maze.config) (s a : nat) : bool :=
  match a with
  | 0 => s <? Maze.num_x_states c
  | 1 => Maze.num_states c <=? s + Maze.num_x_states c
  | 2 => s mod Maze.num_x_states c =? 0
  | _ => s mod Maze.num_x_states c =? Maze.num_x_states c - 1
  end.

(** A grid on which all four moves are defined: at least two rows and
    two columns, at most the four actions. *)
Definition proper (c : Maze.config) : Prop :=
  2 ≤ Maze.num_x_states c ∧ 2 ≤ Maze.num_y_states c
  ∧ Maze.num_actions c ≤ 4.

(** The next state and the reward of the pair [(s, a)], where
    [_get_new_state] returns. *)
Definition next_of (c : Maze.config) (s a : nat) : nat :=
  from_option fst 0 (Maze._get_new_state c s a).

Definition reward_of (c : Maze.config) (s a : nat) : Z :=
  from_option snd 0%Z (Maze._get_new_state c s a).

(** The tables during the first pair of loops of [_generate_env_model],
    after the first [k] pairs, in the order of the loops: the cells of
    these pairs are set, the others still hold zeros. *)
Definition filled (c : Maze.config) (k : nat)
  (st : list (list (list R)) * list (list Z)) : Prop :=
  ∀ s a, s < Maze.num_states c → a < Maze.num_actions c →
    get2 (fst st) s a
    = Some (if decide (s * Maze.num_actions c + a < k)
            then one_hot (Maze.num_states c) (next_of c s a)
            else replicate (Maze.num_states c) 0%R)
    ∧ get2 (snd st) s a
      = Some (if decide (s * Maze.num_actions c + a < k)
              then reward_of c s a else 0%Z).

(** Every row of the transition table is the one-hot row of the pair's
    next state. *)
Definition deterministic (c : Maze.config) (T : list (list (list R)))
  : Prop :=
  ∀ s a, s < Maze.num_states c → a < Maze.num_actions c →
    get2 T s a = Some (one_hot (Maze.num_states c) (next_of c s a)).

(** The transition [tr] is one the environment allows: a state and an
    action of the environment, the reward [R[s,a]], and a next state of
    positive probability in [T[s,a,:]]. *)
Definition allowed (env : Environment.t) (tr : transition) : Prop :=
  t_s tr < Environment.num_states env
  ∧ t_a tr < Environment.num_actions env
  ∧ t_s1 tr < Environment.num_states env
  ∧ get2 (Environment.R env) (t_s tr) (t_a tr) = Some (t_r tr)
  ∧ ∃ p x, get2 (Environment.T env) (t_s tr) (t_a tr) = Some p
           ∧ p !! t_s1 tr = Some x ∧ (0 < x)%R.



(** ** The two-step task (environment.py, agent.py) *)

(** The position a Python index [i] denotes in an array of [n] cells: a
    negative index counts from the end; [None] is the [IndexError]. *)
Definition norm_index (n : nat) (i : Z) : option nat :=
  if (0 <=? i)%Z then
    if (i <? Z.of_nat n)%Z then Some (Z.to_nat i) else None
  else if (- Z.of_nat n <=? i)%Z then Some (Z.to_nat (i + Z.of_nat n))
       else None.

(** [t[i, j]], [t[i, :]] and [t[i, j] = x] with Python indices. *)
Definition zget2 {A} (t : list (list A)) (i j : Z) : option A :=
  i' ← norm_index (length t) i;
  row ← t !! i';
  j' ← norm_index (length row) j;
  row !! j'.

Definition zrow {A} (t : list (list A)) (i : Z) : option (list A) :=
  i' ← norm_index (length t) i; t !! i'.

Definition zset2 {A} (t : list (list A)) (i j : Z) (x : A)
  : option (list (list A)) :=
  i' ← norm_index (length t) i;
  row ← t !! i';
  j' ← norm_index (length row) j;
  Some (<[i' := <[j' := x]> row]> t).

(** [t[i, :] = new]: the row is replaced by one of the same length; a
    single value is repeated over the row, any other length is a
    [ValueError]. *)
Definition zset_row {A} (t : list (list A)) (i : Z) (new : list A)
  : option (list (list A)) :=
  i' ← norm_index (length t) i;
  row ← t !! i';
  if decide (length row = length new) then Some (<[i' := new]> t)
  else match new with
       | [x] => Some (<[i' := replicate (length row) x]> t)
       | _ => None
       end.

(** [np.clip(x, lo, hi)] *)
Definition clip (x lo hi : R) : R := Rmin (Rmax x lo) hi.

(** [x + y] on two arrays of one dimension, with the broadcasting of
    numpy: an array of a single cell is repeated over the other; any
    other two lengths that differ are a [ValueError]. *)
Definition np_add (xs ys : list R) : option (list R) :=
  if decide (length xs = length ys) then Some (zip_with Rplus xs ys)
  else match xs, ys with
       | [x], _ => Some (map (fun y => (x + y)%R) ys)
       | _, [y] => Some (map (fun x => (x + y)%R) xs)
       | _, _ => None
       end.

(** [np.cumsum(l)] on floats. *)
Fixpoint Rcumsum_from (acc : R) (l : list R) : list R :=
  match l with
  | [] => []
  | x :: rest => (acc + x)%R :: Rcumsum_from (acc + x)%R rest
  end.

Definition Rcumsum (l : list R) : list R := Rcumsum_from 0%R l.

(** [cdf.searchsorted(u, side='right')]: the number of cells of the
    ascending array [cdf] that are at most [u]. *)
Definition searchsorted_right (cdf : list R) (u : R) : nat :=
  length (List.filter (fun c => if Rle_dec c u then true else false) cdf).

(** [np.random.choice(arr, p=w)] on the uniform draw [u] of [[0, 1)] it
    makes: the weights are checked as for [choice_p], and the cell
    picked is the first one whose cumulative weight exceeds the draw. *)
Definition choice_u {A} (u : R) (arr : list A) (w : list R) : option A :=
  if valid_p (length arr) w
  then arr !! searchsorted_right (Rcumsum w) u
  else None.

Module TwoStepEnv.

(** The current state and the four reward probabilities. *)
Record t := Build {
  s : Z;
  rewardp : list R }.

Definition num_states : Z := 3.
Definition num_actions : Z := 2.

(** [self.rewardp = 0.5 * np.ones(4)] *)
Definition init_rewardp (e : t) : t :=
  Build (s e) (map (fun x => (1 / 2 * x)%R) (replicate 4 1%R)).

(** [self.s = 0] *)
Definition _reset (e : t) : t := Build 0 (rewardp e).

(** [__init__]: the state reset and the reward probabilities set; the
    attribute [rewardp_history] is never written again and is left out. *)
Definition __init__ : t := init_rewardp (_reset (Build 0 [])).

(** [walk = np.random.normal(0, 0.025, size=4);
    self.rewardp = 2 * np.clip(self.rewardp + walk, 0.25, 0.75)
                   - self.rewardp - walk], on the walk drawn. *)
Definition _update_rewardp (walk : list R) (e : t) : t :=
  Build (s e)
        (zip_with (fun q w => (2 * clip (q + w) (1 / 4) (3 / 4) - q - w)%R)
                  (rewardp e) walk).

(** [step(a)], on the uniform draw [u] and the walk [walk] it makes: the
    reward and the new environment. *)
Definition step (u : R) (walk : list R) (a : Z) (e : t) : option (Z * t) :=
  if (s e =? 0)%Z then
    (* if we are in initial state transition to next state *)
    if Rle_dec u (7 / 10)
    then Some (0%Z, Build (s e + (a + 1)) (rewardp e))
    else Some (0%Z, Build (s e + (2 - a)) (rewardp e))
  else
    (* deliver rewards and reset environment *)
    match np_index (rewardp e) (s e * num_actions + a - 2) with
    | Some q =>
        Some (if Rle_dec u q then 1%Z else 0%Z,
              _reset (_update_rewardp walk e))
    | None => None
    end.

End TwoStepEnv.

Module TwoStepAgent.

(** One row [[a, s1, r1]] of the history. *)
Record row := Row {
  h_a : Z;
  h_s1 : Z;
  h_r1 : Z }.

(** The tables and the history of the agent. *)
Record t := Build {
  QTD : list (list R);
  QMB : list (list R);
  Qnet : list (list R);
  history : list row }.

(** The eight tallies of [get_stay_probabilities], in the order of their
    declarations. *)
Record tally := Tally {
  common_r : Z; num_common_r : Z;
  common_nr : Z; num_common_nr : Z;
  rare_r : Z; num_rare_r : Z;
  rare_nr : Z; num_rare_nr : Z }.

Definition stay (a a_next : Z) : Z := if (a =? a_next)%Z then 1%Z else 0%Z.

(** The body of the loop of [get_stay_probabilities], for the trial
    [cur] and the trial [next] after it. *)
Definition count_trial (c : tally) (cur next : row) : tally :=
  let a := h_a cur in
  let a_next := h_a next in
  if ((a =? 0)%Z && (h_s1 cur =? 1)%Z) || ((a =? 1)%Z && (h_s1 cur =? 2)%Z)
  then
    if (h_r1 cur =? 1)%Z
    then Tally (common_r c + stay a a_next) (num_common_r c + 1)
               (common_nr c) (num_common_nr c)
               (rare_r c) (num_rare_r c) (rare_nr c) (num_rare_nr c)
    else Tally (common_r c) (num_common_r c)
               (common_nr c + stay a a_next) (num_common_nr c + 1)
               (rare_r c) (num_rare_r c) (rare_nr c) (num_rare_nr c)
  else
    if (h_r1 cur =? 1)%Z
    then Tally (common_r c) (num_common_r c)
               (common_nr c) (num_common_nr c)
               (rare_r c + stay a a_next) (num_rare_r c + 1)
               (rare_nr c) (num_rare_nr c)
    else Tally (common_r c) (num_common_r c)
               (common_nr c) (num_common_nr c)
               (rare_r c) (num_rare_r c)
               (rare_nr c + stay a a_next) (num_rare_nr c + 1).

(** [for idx_trial in range(num_trials-1)]: the tallies over the pairs
    of consecutive trials. *)
Fixpoint count_trials (c : tally) (h : list row) : tally :=
  match h with
  | cur :: ((next :: _) as rest) => count_trials (count_trial c cur next) rest
  | _ => c
  end.

(** [x / y] on Python integers: a [ZeroDivisionError] when [y] is 0. *)
Definition true_div (x y : Z) : option R :=
  if (y =? 0)%Z then None else Some (IZR x / IZR y)%R.

(** [get_stay_probabilities] *)
Definition get_stay_probabilities (ag : t) : option (list R) :=
  let c := count_trials (Tally 0 0 0 0 0 0 0 0) (history ag) in
  p1 ← true_div (common_r c) (num_common_r c);
  p2 ← true_div (rare_r c) (num_rare_r c);
  p3 ← true_div (common_nr c) (num_common_nr c);
  p4 ← true_div (rare_nr c) (num_rare_nr c);
  Some [p1; p2; p3; p4].

(** [self.history = np.vstack((self.history, [a, s1, r1]))] *)
Definition _update_history (a s1 r1 : Z) (ag : t) : t :=
  Build (QTD ag) (QMB ag) (Qnet ag) (history ag ++ [Row a s1 r1]).

Section Methods.

(** The arguments of [__init__]. *)
Variables alpha1 alpha2 beta1 beta2 lam w p : R.

(** [_init_qvals]: three tables of zeros, one row per state of the
    environment and one cell per action. *)
Definition _init_qvals (ag : t) : t :=
  Build (zeros 0%R 3 2) (zeros 0%R 3 2) (zeros 0%R 3 2) (history ag).

(** [_update_QTD(s, a, r, s1)]; the second-stage call passes [None] for
    [s1], which as an index selects the whole table. *)
Definition _update_QTD (s a r : Z) (s1 : option Z) (ag : t) : option t :=
  if (s =? 0)%Z then
    q ← zget2 (QTD ag) 0 a;
    next ← match s1 with
            | Some s1 => zrow (QTD ag) s1
            | None => Some (concat (QTD ag))
            end;
    m ← row_max next;
    QTD' ← zset2 (QTD ag) 0 a (q + alpha1 * (m - q))%R;
    Some (Build QTD' (QMB ag) (Qnet ag) (history ag))
  else
    q ← zget2 (QTD ag) s a;
    QTD1 ← zset2 (QTD ag) s a (q + alpha2 * (IZR r - q))%R;
    last ← list.last (history ag);
    q0 ← zget2 QTD1 0 (h_a last);
    q1 ← zget2 QTD1 s a;
    QTD2 ← zset2 QTD1 0 (h_a last) (q0 + alpha1 * lam * (IZR r - q1))%R;
    Some (Build QTD2 (QMB ag) (Qnet ag) (history ag)).

(** [_update_QMB(s)] *)
Definition _update_QMB (s : Z) (ag : t) : option t :=
  if (s =? 0)%Z then
    row1 ← zrow (QTD ag) 1;
    m1 ← row_max row1;
    row2 ← zrow (QTD ag) 2;
    m2 ← row_max row2;
    QMB' ← zset_row (QMB ag) s
              [(7 / 10 * m1 + 3 / 10 * m2)%R; (3 / 10 * m1 + 7 / 10 * m2)%R];
    Some (Build (QTD ag) QMB' (Qnet ag) (history ag))
  else
    src ← zrow (QTD ag) s;
    QMB' ← zset_row (QMB ag) s src;
    Some (Build (QTD ag) QMB' (Qnet ag) (history ag)).

(** [self.Qnet = self.w * self.QMB + (1 - self.w) * self.QTD]; the two
    tables have the same shape. *)
Definition _update_Qnet (ag : t) : t :=
  Build (QTD ag) (QMB ag)
        (zip_with (zip_with (fun mb td => (w * mb + (1 - w) * td)%R))
                  (QMB ag) (QTD ag))
        (history ag).

Definition _learn (s a r : Z) (s1 : option Z) (ag : t) : option t :=
  ag1 ← _update_QTD s a r s1 ag;
  ag2 ← _update_QMB s ag1;
  Some (_update_Qnet ag2).

(** The perseveration bonus [rep] and the inverse temperature [beta] of
    [_policy(s)]; [None] for [rep] is the number 0. *)
Definition rep_beta (s : Z) (ag : t) : option (option (list R) * R) :=
  if (s =? 0)%Z then
    if decide (1 ≤ length (history ag)) then
      last ← list.last (history ag);
      rep ← np_index [[1; 0]; [0; 1]]%R (h_a last);
      Some (Some rep, beta1)
    else Some (None, beta1)
  else Some (None, beta2).

(** [bf / bf.sum()] for
    [bf = np.exp(beta * self.Qnet[s,:] + self.p * rep)] *)
Definition policy_weights (s : Z) (ag : t) : option (list R) :=
  '(rep, beta) ← rep_beta s ag;
  row ← zrow (Qnet ag) s;
  let scaled := map (fun q => (beta * q)%R) row in
  arg ← match rep with
         | Some rep => np_add scaled (map (fun x => (p * x)%R) rep)
         | None => Some (map (fun x => (x + p * 0)%R) scaled)
         end;
  let bf := map exp arg in
  Some (map (fun x => (x / Rsum bf)%R) bf).

(** [_policy(s)], on the uniform draw [u] the choice makes. *)
Definition _policy (u : R) (s : Z) (ag : t) : option Z :=
  weights ← policy_weights s ag;
  choice_u u [0; 1]%Z weights.

(** [_init_history] *)
Definition _init_history (ag : t) : t :=
  Build (QTD ag) (QMB ag) (Qnet ag) [].

(** What the generator draws in one trial: the uniform draw of each of
    the two choices, and the uniform draw and the walk of each of the two
    calls of [step] (a call from state 0 makes no walk). *)
Record draws := Draws {
  u_a : R;
  u_step : R;
  walk_step : list R;
  u_a1 : R;
  u_step1 : R;
  walk_step1 : list R }.

(** The body of the loop of [simulate], on the environment [self.env]
    and the agent. *)
Definition trial (d : draws) (st : TwoStepEnv.t * t)
  : option (TwoStepEnv.t * t) :=
  let e := st.1 in
  let ag := st.2 in
  (* choose initial action *)
  let s := TwoStepEnv.s e in
  a ← _policy (u_a d) s ag;
  (* step environment *)
  re1 ← TwoStepEnv.step (u_step d) (walk_step d) a e;
  let e1 := re1.2 in
  (* get new state *)
  let s1 := TwoStepEnv.s e1 in
  (* choose second action *)
  a1 ← _policy (u_a1 d) s1 ag;
  (* get reward *)
  re2 ← TwoStepEnv.step (u_step1 d) (walk_step1 d) a1 e1;
  let r := re2.1 in
  let e2 := re2.2 in
  (* update history *)
  let ag1 := _update_history a s1 r ag in
  (* learning *)
  ag2 ← _learn s a 0 (Some s1) ag1;
  ag3 ← _learn s1 a1 r None ag2;
  (* reset environment *)
  Some (TwoStepEnv._reset e2, ag3).

(** [simulate(num_trials)], on the draws of its [num_trials] trials. *)
Definition simulate (ds : list draws) (st : TwoStepEnv.t * t)
  : option (TwoStepEnv.t * t) :=
  let e := TwoStepEnv.init_rewardp st.1 in
  let ag := _init_qvals (_init_history st.2) in
  for_each ds trial (e, ag).

End Methods.

End TwoStepAgent.

(** A two-step environment in its second stage, and four trials of a
    two-step agent. *)
Definition second_stage : TwoStepEnv.t :=
  TwoStepEnv.Build 2 [1 / 2; 1 / 2; 3 / 4; 1 / 4]%R.

Definition four_trials : TwoStepAgent.t :=
  TwoStepAgent.Build (zeros 0%R 3 2) (zeros 0%R 3 2) (zeros 0%R 3 2)
    [TwoStepAgent.Row 0 1 1; TwoStepAgent.Row 0 2 0;
     TwoStepAgent.Row 1 2 1; TwoStepAgent.Row 1 1 0].

(** The number of trials [get_stay_probabilities] has counted, and what
    holds of its tallies: each count of stays is between 0 and the number
    of trials of its kind. *)
Definition counted (c : TwoStepAgent.tally) : Z :=
  (TwoStepAgent.num_common_r c + TwoStepAgent.num_common_nr c
   + TwoStepAgent.num_rare_r c + TwoStepAgent.num_rare_nr c)%Z.

Definition tally_ok (c : TwoStepAgent.tally) : Prop :=
  (0 <= TwoStepAgent.common_r c <= TwoStepAgent.num_common_r c
   ∧ 0 <= TwoStepAgent.common_nr c <= TwoStepAgent.num_common_nr c
   ∧ 0 <= TwoStepAgent.rare_r c <= TwoStepAgent.num_rare_r c
   ∧ 0 <= TwoStepAgent.rare_nr c <= TwoStepAgent.num_rare_nr c)%Z.

(** Five trials, the first four of the four kinds. *)
Definition five_trials : TwoStepAgent.t :=
  TwoStepAgent.Build (zeros 0%R 3 2) (zeros 0%R 3 2) (zeros 0%R 3 2)
    [TwoStepAgent.Row 0 1 1; TwoStepAgent.Row 0 2 1;
     TwoStepAgent.Row 1 2 0; TwoStepAgent.Row 1 1 0;
     TwoStepAgent.Row 1 1 1].





(** Runs a method body down to the table lookups it makes. *)
Ltac run_method :=
  unfold bind, lift, get, modify, ret, raise in *; simpl in *.

(** * Properties *)

(** A proof depends on the section variables of its statement only. *)
Set Default Proof Using "Type".

(** ** Tables *)

Lemma get2_set2_eq {A} (t t' : list (list A)) i j x :
  set2 t i j x = Some t' → get2 t' i j = Some x.
Proof.
  unfold set2, get2. intros Hset.
  destruct (t !! i) as [row|] eqn:Hrow; [|done].
  destruct (row !! j) as [y|] eqn:Hy; [|done].
  injection Hset as <-.
  rewrite list_lookup_insert_eq by (by eapply lookup_lt_Some).
  apply list_lookup_insert_eq. by eapply lookup_lt_Some.
Qed.

Lemma get2_set2_ne {A} (t t' : list (list A)) i j i' j' x :
  set2 t i j x = Some t' → (i', j') ≠ (i, j) →
  get2 t' i' j' = get2 t i' j'.
Proof.
  unfold set2, get2. intros Hset Hne.
  destruct (t !! i) as [row|] eqn:Hrow; [|done].
  destruct (row !! j) as [y|] eqn:Hy; [|done].
  injection Hset as <-.
  destruct (decide (i = i')) as [->|Hi].
  - rewrite list_lookup_insert_eq by (by eapply lookup_lt_Some).
    rewrite Hrow. apply list_lookup_insert_ne. congruence.
  - by rewrite list_lookup_insert_ne.
Qed.

Lemma set2_is_Some {A} (t : list (list A)) i j x :
  is_Some (get2 t i j) → is_Some (set2 t i j x).
Proof.
  unfold set2, get2. intros [y Hy].
  destruct (t !! i) as [row|]; [|done]. rewrite Hy. eauto.
Qed.

Lemma set2_shape {A} n m (t t' : list (list A)) i j x :
  shape n m t → set2 t i j x = Some t' → shape n m t'.
Proof.
  unfold set2. intros [Hlen Hrows] Hset.
  destruct (t !! i) as [row|] eqn:Hrow; [|done].
  destruct (row !! j) as [y|] eqn:Hy; [|done].
  injection Hset as <-. split.
  - by rewrite length_insert.
  - intros i' row' Hi'. destruct (decide (i = i')) as [->|Hi].
    + rewrite list_lookup_insert_eq in Hi' by (by eapply lookup_lt_Some).
      injection Hi' as <-. rewrite length_insert. eauto.
    + rewrite list_lookup_insert_ne in Hi' by done. eauto.
Qed.

Lemma get2_shape_lt {A} n m (t : list (list A)) i j :
  shape n m t → is_Some (get2 t i j) ↔ i < n ∧ j < m.
Proof.
  unfold get2. intros [Hlen Hrows]. split.
  - intros [y Hy]. destruct (t !! i) as [row|] eqn:Hrow; [|done].
    split.
    + rewrite <- Hlen. by eapply lookup_lt_Some.
    + rewrite <- (Hrows i row Hrow). by eapply lookup_lt_Some.
  - intros [Hi Hj].
    destruct (lookup_lt_is_Some_2 t i) as [row Hrow]; [lia|].
    rewrite Hrow. apply lookup_lt_is_Some_2.
    by rewrite (Hrows i row Hrow).
Qed.

Lemma zeros_shape {A} (z : A) n m : shape n m (zeros z n m).
Proof.
  unfold zeros. split.
  - apply length_replicate.
  - intros i row Hrow. apply lookup_replicate in Hrow as [-> _].
    apply length_replicate.
Qed.

Lemma get2_zeros {A} (z : A) n m i j :
  i < n → j < m → get2 (zeros z n m) i j = Some z.
Proof.
  intros Hi Hj. unfold get2, zeros.
  rewrite lookup_replicate_2 by done. by apply lookup_replicate_2.
Qed.

(** ** The maximum of a row *)

Lemma foldl_Rmax_ge (rest : list R) (x : R) : (x <= foldl Rmax x rest)%R.
Proof.
  revert x. induction rest as [|y rest IH]; intros x; simpl.
  - lra.
  - etransitivity; [apply (Rmax_l x y)|apply IH].
Qed.

Lemma foldl_Rmax_bound (rest : list R) (x y : R) :
  y ∈ rest → (y <= foldl Rmax x rest)%R.
Proof.
  revert x. induction rest as [|z rest IH]; intros x Hin; simpl.
  - by apply elem_of_nil in Hin.
  - apply elem_of_cons in Hin as [->|Hin].
    + etransitivity; [apply (Rmax_r x z)|apply foldl_Rmax_ge].
    + by apply IH.
Qed.

Lemma foldl_Rmax_in (rest : list R) (x : R) :
  foldl Rmax x rest = x ∨ foldl Rmax x rest ∈ rest.
Proof.
  revert x. induction rest as [|z rest IH]; intros x; simpl.
  - by left.
  - destruct (IH (Rmax x z)) as [Heq|Hin].
    + rewrite Heq. unfold Rmax. destruct (Rle_dec x z).
      * right. apply elem_of_cons. by left.
      * by left.
    + right. apply elem_of_cons. by right.
Qed.

Lemma row_max_is_max (row : list R) (m : R) :
  row_max row = Some m → is_max row m.
Proof.
  destruct row as [|x rest]; [done|]. simpl. intros [= <-]. split.
  - destruct (foldl_Rmax_in rest x) as [->|Hin]; apply elem_of_cons; auto.
  - intros y [->|Hin]%elem_of_cons.
    + apply foldl_Rmax_ge.
    + by apply foldl_Rmax_bound.
Qed.

Lemma is_max_unique (row : list R) (m m' : R) :
  is_max row m → is_max row m' → m = m'.
Proof.
  intros [Hin Hle] [Hin' Hle']. apply Rle_antisym; auto.
Qed.

Lemma row_max_of_is_max (row : list R) (m : R) :
  is_max row m → row_max row = Some m.
Proof.
  intros Hm. destruct row as [|x rest] eqn:Hrow.
  - destruct Hm as [Hin _]. by apply elem_of_nil in Hin.
  - simpl. f_equal. eapply is_max_unique; [|exact Hm].
    by apply row_max_is_max.
Qed.

Lemma row_max_is_Some (row : list R) :
  0 < length row → is_Some (row_max row).
Proof. destruct row; simpl; [lia|eauto]. Qed.

(** ** [np.flatnonzero] *)

Lemma elem_of_flatnonzero_from (mask : list bool) (i k : nat) :
  k ∈ flatnonzero_from i mask ↔ ∃ j, k = i + j ∧ mask !! j = Some true.
Proof.
  revert i. induction mask as [|b rest IH]; intros i; simpl.
  - split; [by intros ?%elem_of_nil|by intros (j & _ & ?)].
  - assert (k ∈ flatnonzero_from (S i) rest ↔
            ∃ j, k = i + S j ∧ rest !! j = Some true) as IH'.
    { rewrite IH. split; intros (j & -> & ?); exists j; split; auto; lia. }
    destruct b.
    + rewrite elem_of_cons, IH'. split.
      * intros [->|(j & -> & ?)]; [exists 0|exists (S j)]; split; auto; lia.
      * intros ([|j] & -> & Hj); [left; lia|right; eauto].
    + rewrite IH'. split.
      * intros (j & -> & ?). exists (S j). split; auto.
      * intros ([|j] & -> & Hj); [done|eauto].
Qed.

Lemma flatnonzero_from_ge (mask : list bool) (i k : nat) :
  k ∈ flatnonzero_from i mask → i ≤ k.
Proof. rewrite elem_of_flatnonzero_from. intros (j & -> & _). lia. Qed.

Lemma NoDup_flatnonzero_from (mask : list bool) (i : nat) :
  NoDup (flatnonzero_from i mask).
Proof.
  revert i. induction mask as [|b rest IH]; intros i; simpl.
  - constructor.
  - destruct b; [|apply IH]. constructor; [|apply IH].
    intros Hin%flatnonzero_from_ge. lia.
Qed.

Lemma elem_of_flatnonzero (mask : list bool) (k : nat) :
  k ∈ flatnonzero mask ↔ mask !! k = Some true.
Proof.
  unfold flatnonzero. rewrite elem_of_flatnonzero_from.
  split; [by intros (j & -> & ?)|intros ?; by exists k].
Qed.

(** ** The learning step *)

Section LearningStep.

Context {C : Type} `{ActionCount C}.
Variables alpha gamma epsilon : R.

Lemma update_qvals_run (ag : agent C) s a r s1 bonus q c row1 m :
  get2 (Q ag) s a = Some q →
  get2 (action_count ag) s a = Some c →
  Q ag !! s1 = Some row1 →
  row_max row1 = Some m →
  ∃ Q', set2 (Q ag) s a (td_target alpha gamma epsilon q r bonus c m) = Some Q'
        ∧ _update_qvals alpha gamma epsilon s a r s1 bonus ag
          = Some (tt, set_Q Q' ag).
Proof.
  intros Hq Hc Hrow Hm.
  destruct (set2_is_Some (Q ag) s a (td_target alpha gamma epsilon q r bonus c m)) as [Q' HQ'];
    [by rewrite Hq|].
  exists Q'. split; [done|].
  unfold _update_qvals. run_method.
  rewrite Hq, Hc, Hrow, Hm. unfold td_target in HQ'. by rewrite HQ'.
Qed.

Lemma update_qvals_inv (ag ag' : agent C) s a r s1 bonus :
  _update_qvals alpha gamma epsilon s a r s1 bonus ag = Some (tt, ag') →
  ∃ q c row1 m Q',
    get2 (Q ag) s a = Some q
    ∧ get2 (action_count ag) s a = Some c
    ∧ Q ag !! s1 = Some row1
    ∧ row_max row1 = Some m
    ∧ set2 (Q ag) s a (td_target alpha gamma epsilon q r bonus c m) = Some Q'
    ∧ ag' = set_Q Q' ag.
Proof.
  unfold _update_qvals. run_method. intros Hrun.
  destruct (get2 (Q ag) s a) as [q|] eqn:Hq; [|done].
  destruct (get2 (action_count ag) s a) as [c|] eqn:Hc; [|done].
  destruct (Q ag !! s1) as [row1|] eqn:Hrow; [|done].
  destruct (row_max row1) as [m|] eqn:Hm; [|done].
  destruct (set2 (Q ag) s a _) as [Q'|] eqn:HQ'; [|done].
  injection Hrun as <-. exists q, c, row1, m, Q'. by repeat split.
Qed.

Lemma td_target_bonus q r bonus c m :
  td_target alpha gamma epsilon q r bonus c m
  = (q + alpha * (IZR r
                  + (if bonus then epsilon * sqrt (count_to_float c) else 0)
                  + gamma * m - q))%R.
Proof. unfold td_target, bool_to_R. destruct bonus; ring. Qed.

(** C1.  For every state [s], action [a], reward [r], next state [s1] and
    flag [bonus] that index the tables, the learning step succeeds and
    replaces [Q[s,a]] by
    [Q[s,a] + alpha * (r + b + gamma * max Q[s1,:] - Q[s,a])], where [b]
    is [epsilon * sqrt(counter[s,a])] when [bonus] is set and [0]
    otherwise; every other cell of [Q] keeps its value and no other table
    changes. *)
Theorem update_qvals_spec (ag : agent C) (s a : nat) (r : Z) (s1 : nat)
  (bonus : bool) (q : R) (c : C) (row1 : list R) (m : R) :
  get2 (Q ag) s a = Some q →
  get2 (action_count ag) s a = Some c →
  Q ag !! s1 = Some row1 →
  is_max row1 m →
  ∃ ag',
    _update_qvals alpha gamma epsilon s a r s1 bonus ag = Some (tt, ag')
    ∧ get2 (Q ag') s a
      = Some (q + alpha * (IZR r
                + (if bonus then epsilon * sqrt (count_to_float c) else 0)
                + gamma * m - q))%R
    ∧ (∀ s' a', (s', a') ≠ (s, a) → get2 (Q ag') s' a' = get2 (Q ag) s' a')
    ∧ experience_buffer ag' = experience_buffer ag
    ∧ history ag' = history ag
    ∧ action_count ag' = action_count ag
    ∧ self_s ag' = self_s ag
    ∧ np_random_pos ag' = np_random_pos ag.
Proof.
  intros Hq Hc Hrow Hm. apply row_max_of_is_max in Hm.
  destruct (update_qvals_run ag s a r s1 bonus q c row1 m)
    as (Q' & HQ' & Hrun); try done.
  exists (set_Q Q' ag). split; [done|]. simpl. split.
  - rewrite <- td_target_bonus. by eapply get2_set2_eq.
  - repeat split; try done. intros s' a' Hne. by eapply get2_set2_ne.
Qed.

End LearningStep.

(** ** The visitation counters *)

Lemma get2_map {A B} (f : A → B) (t : list (list A)) i j :
  get2 (map (map f) t) i j = f <$> get2 t i j.
Proof.
  unfold get2. change (map (map f) t) with (map f <$> t).
  rewrite list_lookup_fmap. destruct (t !! i) as [row|]; [|done].
  simpl. change (map f row) with (f <$> row). apply list_lookup_fmap.
Qed.

Lemma map_map_shape {A B} (f : A → B) n m (t : list (list A)) :
  shape n m t → shape n m (map (map f) t).
Proof.
  intros [Hlen Hrows]. split.
  - by rewrite length_map.
  - intros i row. change (map (map f) t) with (map f <$> t).
    rewrite list_lookup_fmap. destruct (t !! i) as [row0|] eqn:Hrow0; [|done].
    simpl. intros [= <-]. rewrite length_map. eauto.
Qed.

Lemma base_update_count env (cnt : list (list Z)) s a :
  is_Some (get2 cnt s a) →
  ∃ cnt', DynaAgent._update_action_count env s a cnt = Some cnt'
    ∧ get2 cnt' s a = Some 0%Z
    ∧ ∀ s' a', (s', a') ≠ (s, a) →
        get2 cnt' s' a' = (λ c, (c + 1)%Z) <$> get2 cnt s' a'.
Proof.
  intros [c Hc]. unfold DynaAgent._update_action_count.
  destruct (set2_is_Some (map (map (λ c, (c + 1)%Z)) cnt) s a 0%Z)
    as [cnt' Hcnt']; [by rewrite get2_map, Hc|].
  exists cnt'. split; [done|]. split.
  - by eapply get2_set2_eq.
  - intros s' a' Hne. rewrite <- get2_map. by eapply get2_set2_ne.
Qed.

#[global] Instance base_laws : ActionCountLaws Z.
Proof.
  split.
  - intros env. apply zeros_shape.
  - intros env s a cnt cnt' Hshape Hrun. simpl in Hrun.
    unfold DynaAgent._update_action_count in Hrun.
    eapply set2_shape; [|exact Hrun]. by apply map_map_shape.
  - intros env s a cnt Hshape Hs Ha. simpl.
    destruct (base_update_count env cnt s a) as (cnt' & -> & _); [|eauto].
    eapply get2_shape_lt; eauto.
Qed.

Lemma coords_lookup env s' :
  s' < Environment.num_states env →
  fst (MyDynaAgent.coords env) !! s'
  = Some (fst (Environment._convert_state_to_coords env s'))
  ∧ snd (MyDynaAgent.coords env) !! s'
    = Some (snd (Environment._convert_state_to_coords env s')).
Proof.
  intros Hs'. unfold MyDynaAgent.coords. simpl.
  change (map ?f ?l) with (f <$> l).
  rewrite !list_lookup_fmap, !lookup_seq_lt by done. done.
Qed.

Lemma euclidean_int env s s' :
  euclidean env s s'
  = sqrt (IZR ((Z.of_nat (fst (Environment._convert_state_to_coords env s'))
                - Z.of_nat (fst (Environment._convert_state_to_coords env s)))
               ^ 2
               + (Z.of_nat (snd (Environment._convert_state_to_coords env s'))
                  - Z.of_nat (snd (Environment._convert_state_to_coords env s)))
                 ^ 2)).
Proof.
  unfold euclidean.
  destruct (Environment._convert_state_to_coords env s) as [i j].
  destruct (Environment._convert_state_to_coords env s') as [i' j'].
  simpl. f_equal.
  rewrite plus_IZR, !Z.pow_2_r, !mult_IZR, !minus_IZR, <- !INR_IZR_INZ.
  ring.
Qed.

Lemma distance_lookup env s :
  s < Environment.num_states env →
  ∃ d, MyDynaAgent.distance env s = Some d
       ∧ length d = Environment.num_states env
       ∧ ∀ s', s' < Environment.num_states env →
           d !! s' = Some (euclidean env s s').
Proof.
  intros Hs. unfold MyDynaAgent.distance.
  destruct (coords_lookup env s Hs) as [-> ->].
  eexists. split; [done|]. split.
  - unfold MyDynaAgent.coords. simpl.
    rewrite length_zip_with, !length_map, length_seq. lia.
  - intros s' Hs'. rewrite lookup_zip_with.
    destruct (coords_lookup env s' Hs') as [-> ->]. simpl.
    by rewrite euclidean_int.
Qed.

Lemma distance_is_Some_lt env s :
  is_Some (MyDynaAgent.distance env s) → s < Environment.num_states env.
Proof.
  unfold MyDynaAgent.distance. intros [d Hd].
  destruct (fst (MyDynaAgent.coords env) !! s) as [i0|] eqn:Hi0; [|done].
  apply lookup_lt_Some in Hi0. unfold MyDynaAgent.coords in Hi0.
  simpl in Hi0. by rewrite length_map, length_seq in Hi0.
Qed.

Lemma get2_broadcast (cnt : list (list R)) (d : list R) s' a' x :
  d !! s' = Some x →
  get2 (zip_with (λ row x, map (λ c, (c + x)%R) row) cnt d) s' a'
  = (λ c, (c + x)%R) <$> get2 cnt s' a'.
Proof.
  intros Hd. unfold get2. rewrite lookup_zip_with, Hd.
  destruct (cnt !! s') as [row|]; [|done]. simpl.
  change (map ?f row) with (f <$> row). apply list_lookup_fmap.
Qed.

Lemma broadcast_shape n m (cnt : list (list R)) (d : list R) :
  shape n m cnt → length d = n →
  shape n m (zip_with (λ row x, map (λ c, (c + x)%R) row) cnt d).
Proof.
  intros [Hlen Hrows] Hd. split.
  - rewrite length_zip_with. lia.
  - intros i row. rewrite lookup_zip_with.
    destruct (cnt !! i) as [row0|] eqn:Hrow0; [|done]. simpl.
    destruct (d !! i) as [x|]; [|done]. simpl. intros [= <-].
    rewrite length_map. eauto.
Qed.

Lemma my_update_count env (cnt : list (list R)) s a :
  length cnt = Environment.num_states env →
  is_Some (get2 cnt s a) →
  ∃ cnt', MyDynaAgent._update_action_count env s a cnt = Some cnt'
    ∧ get2 cnt' s a = Some 0%R
    ∧ ∀ s' a', (s', a') ≠ (s, a) → s' < Environment.num_states env →
        get2 cnt' s' a' = (λ c, (c + euclidean env s s')%R) <$> get2 cnt s' a'.
Proof.
  intros Hlen [c Hc]. unfold MyDynaAgent._update_action_count.
  assert (s < Environment.num_states env) as Hs.
  { rewrite <- Hlen. unfold get2 in Hc.
    destruct (cnt !! s) eqn:Hrow; [|done]. by eapply lookup_lt_Some. }
  destruct (distance_lookup env s Hs) as (d & -> & Hdlen & Hd).
  rewrite decide_True by done.
  destruct (set2_is_Some
              (zip_with (λ row x, map (λ c, (c + x)%R) row) cnt d) s a 0%R)
    as [cnt' Hcnt'].
  { rewrite (get2_broadcast cnt d s a _ (Hd s Hs)), Hc. eauto. }
  exists cnt'. split; [done|]. split.
  - by eapply get2_set2_eq.
  - intros s' a' Hne Hs'.
    rewrite <- (get2_broadcast cnt d s' a' _ (Hd s' Hs')).
    by eapply get2_set2_ne.
Qed.

#[global] Instance my_laws : ActionCountLaws R.
Proof.
  split.
  - intros env. apply zeros_shape.
  - intros env s a cnt cnt' Hshape Hrun. simpl in Hrun.
    unfold MyDynaAgent._update_action_count in Hrun.
    destruct (MyDynaAgent.distance env s) as [d|] eqn:Hd; [|done].
    destruct (decide _); [|done].
    eapply set2_shape; [|exact Hrun]. apply broadcast_shape; [done|].
    destruct (distance_lookup env s) as (d' & Hd' & Hlen & _).
    { apply distance_is_Some_lt. by rewrite Hd. }
    congruence.
  - intros env s a cnt Hshape Hs Ha. simpl.
    destruct (my_update_count env cnt s a) as (cnt' & -> & _); eauto.
    + by destruct Hshape.
    + eapply get2_shape_lt; eauto.
Qed.

Lemma update_action_count_run {C} `{ActionCount C} env (ag : agent C) s a cnt' :
  update_count env s a (action_count ag) = Some cnt' →
  _update_action_count env s a ag = Some (tt, set_action_count cnt' ag).
Proof. intros Hcnt. unfold _update_action_count. run_method. by rewrite Hcnt. Qed.

Lemma update_action_count_inv {C} `{ActionCount C} env (ag ag' : agent C) s a :
  _update_action_count env s a ag = Some (tt, ag') →
  ∃ cnt', update_count env s a (action_count ag) = Some cnt'
          ∧ ag' = set_action_count cnt' ag.
Proof.
  unfold _update_action_count. run_method.
  destruct (update_count env s a (action_count ag)) as [cnt'|]; [|done].
  intros [= <-]. eauto.
Qed.


(** C7.  In the distance-weighted variant, touching the pair [(s, a)] of
    a counter table with one row per state succeeds and leaves a table in
    which the counter of [(s, a)] is [0] and the counter of every other
    pair [(s', a')] is its former value plus the Euclidean distance
    between the grid cells of [s] and [s'], whatever the action [a']; no
    other table changes.  Every other method of the variant is the
    inherited one: the methods of section [Methods] at the instance
    [MyDynaAgent.variant]. *)
Theorem touch_distance_spec (env : Environment.t) (ag : agent R) (s a : nat) :
  length (action_count ag) = Environment.num_states env →
  is_Some (get2 (action_count ag) s a) →
  ∃ ag',
    _update_action_count env s a ag = Some (tt, ag')
    ∧ get2 (action_count ag') s a = Some 0%R
    ∧ (∀ s' a', (s', a') ≠ (s, a) →
         get2 (action_count ag') s' a'
         = (λ c, (c + euclidean env s s')%R) <$> get2 (action_count ag) s' a')
    ∧ Q ag' = Q ag
    ∧ experience_buffer ag' = experience_buffer ag
    ∧ history ag' = history ag
    ∧ self_s ag' = self_s ag.
Proof.
  intros Hlen Hin.
  destruct (my_update_count env (action_count ag) s a Hlen Hin)
    as (cnt' & Hrun & Hzero & Hothers).
  exists (set_action_count cnt' ag). split.
  - by apply update_action_count_run.
  - repeat split; try done. simpl. intros s' a' Hne.
    destruct (decide (s' < Environment.num_states env)) as [Hs'|Hs'].
    { by apply Hothers. }
    assert (length cnt' = Environment.num_states env) as Hlen'.
    { unfold MyDynaAgent._update_action_count in Hrun.
      destruct (MyDynaAgent.distance env s) as [d|] eqn:Hd; [|done].
      destruct (decide _); [|done]. unfold set2 in Hrun.
      destruct (_ !! s) as [row|] eqn:Hrow; [|done].
      destruct (row !! a); [|done]. injection Hrun as <-.
      rewrite length_insert, length_zip_with.
      destruct (distance_lookup env s) as (d' & Hd' & Hdlen & _).
      { apply distance_is_Some_lt. by rewrite Hd. }
      assert (d = d') as -> by congruence. lia. }
    unfold get2.
    rewrite (lookup_ge_None_2 cnt') by lia.
    by rewrite (lookup_ge_None_2 (action_count ag)) by lia.
Qed.

(** ** The performance report *)







(** ** The random source *)

Lemma randint_run {C} (ag : agent C) (n : nat) :
  0 < n →
  randint n ag
  = Some (np_random ag (np_random_pos ag) mod n,
          set_np_random_pos (S (np_random_pos ag)) ag).
Proof. intros Hn. unfold randint. rewrite decide_False by lia. done. Qed.

Lemma randint_inv {C} (ag ag' : agent C) (n i : nat) :
  randint n ag = Some (i, ag') →
  0 < n ∧ i = np_random ag (np_random_pos ag) mod n ∧ i < n
  ∧ ag' = set_np_random_pos (S (np_random_pos ag)) ag.
Proof.
  unfold randint. destruct (decide (n = 0)); [done|]. intros [= <- <-].
  repeat split; try lia. apply Nat.mod_upper_bound. lia.
Qed.

Lemma choice_run {C} (ag : agent C) (arr : list nat) :
  0 < length arr →
  ∃ x, arr !! (np_random ag (np_random_pos ag) mod length arr) = Some x
       ∧ choice arr ag
         = Some (x, set_np_random_pos (S (np_random_pos ag)) ag).
Proof.
  intros Hlen. unfold choice. run_method. rewrite randint_run by done.
  destruct (lookup_lt_is_Some_2 arr
              (np_random ag (np_random_pos ag) mod length arr)) as [x Hx].
  { apply Nat.mod_upper_bound. lia. }
  exists x. by rewrite Hx.
Qed.

Lemma choice_inv {C} (ag ag' : agent C) (arr : list nat) (x : nat) :
  choice arr ag = Some (x, ag') →
  x ∈ arr ∧ ag' = set_np_random_pos (S (np_random_pos ag)) ag.
Proof.
  unfold choice. run_method.
  destruct (randint (length arr) ag) as [[i ag1]|] eqn:Hi; [|done].
  apply randint_inv in Hi as (_ & _ & _ & ->).
  destruct (arr !! i) as [y|] eqn:Hy; [|done]. intros [= <- <-].
  split; [|done]. by eapply list_elem_of_lookup_2.
Qed.

(** ** The policy *)

Section Policy.

Context {C : Type} `{ActionCount C}.
Variable epsilon : R.

Lemma Q_exp_lookup (ag : agent C) s scores a :
  Q_exp epsilon ag s = Some scores → scores !! a = score epsilon ag s a.
Proof.
  unfold Q_exp, score, get2.
  destruct (Q ag !! s) as [qrow|]; [|done].
  destruct (action_count ag !! s) as [crow|]; [|done].
  intros [= <-]. rewrite lookup_zip_with.
  destruct (qrow !! a); [|done]. simpl. by destruct (crow !! a).
Qed.

Lemma Q_exp_is_Some (ag : agent C) s a :
  is_Some (score epsilon ag s a) → is_Some (Q_exp epsilon ag s).
Proof.
  unfold Q_exp, score, get2. intros [x Hx].
  destruct (Q ag !! s) as [qrow|]; [|done].
  destruct (action_count ag !! s) as [crow|]; [eauto|].
  by destruct (qrow !! a).
Qed.

Lemma maximizers_spec (scores : list R) (cands : list nat) :
  maximizers scores = Some cands →
  NoDup cands
  ∧ ∀ a, a ∈ cands ↔ ∃ x, scores !! a = Some x ∧ is_max scores x.
Proof.
  unfold maximizers. destruct (row_max scores) as [m|] eqn:Hm; [|done].
  intros [= <-]. apply row_max_is_max in Hm. split.
  - apply NoDup_flatnonzero_from.
  - intros a. rewrite elem_of_flatnonzero.
    change (map ?f scores) with (f <$> scores). rewrite list_lookup_fmap.
    unfold Reqb. split.
    + destruct (scores !! a) as [x|]; [|done]. simpl.
      destruct (Req_dec_T x m) as [->|]; [eauto|done].
    + intros (x & -> & Hx). simpl.
      rewrite (is_max_unique _ _ _ Hx Hm).
      by destruct (Req_dec_T m m).
Qed.

Lemma maximizers_nonempty (scores : list R) :
  0 < length scores →
  ∃ cands, maximizers scores = Some cands ∧ 0 < length cands.
Proof.
  intros Hlen. unfold maximizers.
  destruct (row_max_is_Some scores Hlen) as [m Hm]. rewrite Hm.
  eexists. split; [done|].
  destruct (row_max_is_max _ _ Hm) as [(a & Ha)%list_elem_of_lookup_1 _].
  assert (a ∈ flatnonzero (map (λ x, Reqb x m) scores)) as Hin.
  { apply elem_of_flatnonzero. change (map ?f scores) with (f <$> scores).
    rewrite list_lookup_fmap, Ha. simpl. unfold Reqb.
    by destruct (Req_dec_T m m). }
  destruct (flatnonzero _); [by apply elem_of_nil in Hin|simpl; lia].
Qed.

Lemma policy_run (ag : agent C) s scores cands :
  Q_exp epsilon ag s = Some scores →
  maximizers scores = Some cands →
  _policy epsilon s ag = choice cands ag.
Proof.
  intros Hscores Hcands. unfold _policy. run_method.
  by rewrite Hscores, Hcands.
Qed.

Lemma policy_inv (ag ag' : agent C) s a :
  _policy epsilon s ag = Some (a, ag') →
  ∃ scores cands,
    Q_exp epsilon ag s = Some scores
    ∧ maximizers scores = Some cands
    ∧ a ∈ cands
    ∧ ag' = set_np_random_pos (S (np_random_pos ag)) ag.
Proof.
  unfold _policy. run_method.
  destruct (Q_exp epsilon ag s) as [scores|] eqn:Hscores; [|done].
  destruct (maximizers scores) as [cands|] eqn:Hcands; [|done].
  intros [Hin ->]%choice_inv. by exists scores, cands.
Qed.

Lemma is_max_scores (ag : agent C) s scores a x :
  Q_exp epsilon ag s = Some scores →
  (scores !! a = Some x ∧ is_max scores x)
  ↔ (score epsilon ag s a = Some x
     ∧ ∀ a' y, score epsilon ag s a' = Some y → (y <= x)%R).
Proof.
  intros Hscores. split.
  - intros [Ha [_ Hle]]. split.
    + by rewrite <- (Q_exp_lookup ag s scores).
    + intros a' y Hy. apply Hle.
      rewrite <- (Q_exp_lookup ag s scores) in Hy by done.
      by eapply list_elem_of_lookup_2.
  - intros [Ha Hle]. rewrite <- (Q_exp_lookup ag s scores) in Ha by done.
    split; [done|]. split.
    + by eapply list_elem_of_lookup_2.
    + intros y (a' & Hy)%list_elem_of_lookup_1. apply (Hle a').
      by rewrite <- (Q_exp_lookup ag s scores).
Qed.

(** C4.  In a state [s] that has an action, the policy succeeds; the
    candidates it draws from are exactly the actions whose score
    [Q[s,a] + epsilon * sqrt(counter[s,a])] is maximal, each listed once;
    the action it returns is the candidate at the position given by the
    next uniform draw of the generator, so that every maximizer is
    returned for some draw, whatever its index; only the generator
    advances. *)
Theorem policy_spec (ag : agent C) (s a0 : nat) :
  is_Some (score epsilon ag s a0) →
  ∃ cands,
    NoDup cands
    ∧ (∀ a, a ∈ cands ↔
         ∃ x, score epsilon ag s a = Some x
              ∧ ∀ a' y, score epsilon ag s a' = Some y → (y <= x)%R)
    ∧ 0 < length cands
    ∧ (∃ a, cands !! (np_random ag (np_random_pos ag) mod length cands)
            = Some a
            ∧ _policy epsilon s ag
              = Some (a, set_np_random_pos (S (np_random_pos ag)) ag))
    ∧ (∀ a, a ∈ cands →
         ∃ draws, fst <$> _policy epsilon s (seed draws ag) = Some a).
Proof.
  intros Hs. destruct (Q_exp_is_Some ag s a0 Hs) as [scores Hscores].
  destruct (maximizers_nonempty scores) as (cands & Hcands & Hlen).
  { destruct Hs as [x Hx].
    rewrite <- (Q_exp_lookup ag s scores) in Hx by done.
    apply lookup_lt_Some in Hx. lia. }
  destruct (maximizers_spec scores cands Hcands) as [Hnodup Hin].
  exists cands. split; [done|]. split; [|split; [done|split]].
  - intros a. rewrite Hin. split.
    + intros (x & Hx). exists x. by apply (is_max_scores ag s scores).
    + intros (x & Hx). exists x. by apply (is_max_scores ag s scores).
  - destruct (choice_run ag cands Hlen) as (a & Ha & Hrun).
    exists a. split; [done|].
    by rewrite (policy_run ag s scores cands).
  - intros a (k & Hk)%list_elem_of_lookup_1. exists (λ _, k).
    rewrite (policy_run (seed (λ _, k) ag) s scores cands) by done.
    destruct (choice_run (seed (λ _, k) ag) cands Hlen) as (a' & Ha' & ->).
    simpl in *. rewrite Nat.mod_small in Ha' by (by eapply lookup_lt_Some).
    congruence.
Qed.

End Policy.

(** ** The experience buffer *)

Section Buffer.

Context {C : Type} `{ActionCount C}.
Variable env : Environment.t.

Let num_states := Environment.num_states env.
Let num_actions := Environment.num_actions env.

(** The inner loop of [_init_experience_buffer], after [n] rounds. *)
Lemma init_inner_lookup (s n : nat) (buf : list transition) :
  let buf' := foldl (λ buf a, <[s * num_actions + a := Transition s a 0 s]> buf)
                    buf (seq 0 n) in
  length buf' = length buf
  ∧ ∀ i, buf' !! i
         = if decide (s * num_actions ≤ i < s * num_actions + n
                      ∧ i < length buf)
           then Some (Transition s (i - s * num_actions) 0 s)
           else buf !! i.
Proof.
  cbv zeta. induction n as [|n [IHlen IH]].
  - simpl. split; [done|]. intros i. rewrite decide_False by lia. done.
  - rewrite seq_S, foldl_snoc. simpl. split.
    + by rewrite length_insert.
    + intros i. destruct (decide (i = s * num_actions + n)) as [->|Hne].
      * destruct (decide (s * num_actions + n < length buf)) as [Hlt|Hge].
        -- rewrite list_lookup_insert_eq by lia.
           rewrite decide_True by lia. do 2 f_equal. lia.
        -- rewrite list_insert_ge by lia. rewrite IH.
           rewrite decide_False by lia. rewrite decide_False by lia. done.
      * rewrite list_lookup_insert_ne by done. rewrite IH.
        repeat case_decide; try done; lia.
Qed.

(** The outer loop, after [k] rounds. *)
Lemma init_outer_lookup (k : nat) (buf : list transition) :
  let buf' :=
    foldl (λ buf s,
             foldl (λ buf a, <[s * num_actions + a := Transition s a 0 s]> buf)
                   buf (seq 0 num_actions))
          buf (seq 0 k) in
  length buf' = length buf
  ∧ ∀ i, buf' !! i
         = if decide (i < k * num_actions ∧ i < length buf)
           then Some (Transition (i / num_actions) (i mod num_actions) 0
                                 (i / num_actions))
           else buf !! i.
Proof.
  cbv zeta. induction k as [|k [IHlen IH]].
  - cbn [seq foldl]. split; [done|]. intros i. rewrite decide_False by lia.
    done.
  - rewrite seq_S, foldl_snoc. simpl.
    match goal with
    | |- context [foldl _ ?b (seq 0 num_actions)] =>
        destruct (init_inner_lookup k num_actions b) as [Hlen Hin]
    end.
    split; [congruence|]. intros i. rewrite Hin, IHlen, IH.
    destruct (decide (k * num_actions ≤ i < k * num_actions + num_actions
                      ∧ i < length buf)) as [[Hi Hlt]|Hi].
    + rewrite decide_True by lia.
      assert (i / num_actions = k) as ->.
      { symmetry. apply (Nat.div_unique i num_actions k (i - k * num_actions));
          lia. }
      assert (i mod num_actions = i - k * num_actions) as ->; [|done].
      symmetry. apply (Nat.mod_unique i num_actions k); lia.
    + repeat case_decide; try done; lia.
Qed.

Lemma init_buffer_length : length (init_buffer env) = num_states * num_actions.
Proof.
  unfold init_buffer.
  destruct (init_outer_lookup num_states
              (replicate (num_states * num_actions) (Transition 0 0 0 0)))
    as [Hlen _].
  etransitivity; [apply Hlen|apply length_replicate].
Qed.

Lemma init_buffer_lookup (i : nat) :
  i < num_states * num_actions →
  init_buffer env !! i
  = Some (Transition (i / num_actions) (i mod num_actions) 0
                     (i / num_actions)).
Proof.
  intros Hi. unfold init_buffer.
  destruct (init_outer_lookup num_states
              (replicate (num_states * num_actions) (Transition 0 0 0 0)))
    as [_ Hin].
  etransitivity; [apply Hin|].
  rewrite length_replicate. by rewrite decide_True by done.
Qed.

Lemma init_buffer_ok : buffer_ok env (init_buffer env).
Proof.
  split; [apply init_buffer_length|]. intros i tr Htr.
  assert (i < num_states * num_actions) as Hi.
  { rewrite <- init_buffer_length. by eapply lookup_lt_Some. }
  rewrite init_buffer_lookup in Htr by done. injection Htr as <-.
  repeat split. simpl. apply Nat.Div0.div_lt_upper_bound.
  fold num_states num_actions. lia.
Qed.

Lemma update_experience_buffer_run (ag : agent C) s a r s1 :
  s * num_actions + a < length (experience_buffer ag) →
  _update_experience_buffer env s a r s1 ag
  = Some (tt, set_experience_buffer
                (<[s * num_actions + a := Transition s a r s1]>
                   (experience_buffer ag)) ag).
Proof.
  intros Hlt. unfold _update_experience_buffer, set1. run_method.
  fold num_actions.
  by destruct (lookup_lt_is_Some_2 (experience_buffer ag) _ Hlt) as [tr ->].
Qed.

Lemma update_experience_buffer_inv (ag ag' : agent C) s a r s1 :
  _update_experience_buffer env s a r s1 ag = Some (tt, ag') →
  s * num_actions + a < length (experience_buffer ag)
  ∧ ag' = set_experience_buffer
            (<[s * num_actions + a := Transition s a r s1]>
               (experience_buffer ag)) ag.
Proof.
  unfold _update_experience_buffer, set1. run_method. fold num_actions.
  destruct (experience_buffer ag !! (s * num_actions + a)) as [tr|] eqn:Htr;
    [|done].
  intros [= <-]. split; [|done]. by eapply lookup_lt_Some.
Qed.

Lemma slot_index_inj (s a s' a' : nat) :
  a < num_actions → a' < num_actions →
  s * num_actions + a = s' * num_actions + a' → (s, a) = (s', a').
Proof. intros Ha Ha' Heq. assert (s = s') by nia. subst. f_equal. lia. Qed.

(** Recording overwrites the slot of the pair and nothing else. *)
Lemma update_experience_buffer_spec (ag : agent C) (s a : nat) (r : Z)
  (s1 : nat) :
  a < num_actions →
  s * num_actions + a < length (experience_buffer ag) →
  ∃ ag',
    _update_experience_buffer env s a r s1 ag = Some (tt, ag')
    ∧ experience_buffer ag' !! (s * num_actions + a)
      = Some (Transition s a r s1)
    ∧ (∀ s' a', a' < num_actions → (s', a') ≠ (s, a) →
         experience_buffer ag' !! (s' * num_actions + a')
         = experience_buffer ag !! (s' * num_actions + a'))
    ∧ length (experience_buffer ag') = length (experience_buffer ag)
    ∧ Q ag' = Q ag
    ∧ action_count ag' = action_count ag
    ∧ history ag' = history ag
    ∧ self_s ag' = self_s ag
    ∧ (∀ r2 s2, ∃ ag'',
         _update_experience_buffer env s a r2 s2 ag' = Some (tt, ag'')
         ∧ experience_buffer ag'' !! (s * num_actions + a)
           = Some (Transition s a r2 s2)).
Proof.
  intros Ha Hlt. eexists. split; [by apply update_experience_buffer_run|].
  simpl. split; [by apply list_lookup_insert_eq|].
  split.
  { intros s' a' Ha' Hne. apply list_lookup_insert_ne.
    intros Heq. apply Hne. symmetry. by apply slot_index_inj. }
  split; [by rewrite length_insert|].
  repeat split; try done.
  intros r2 s2. eexists. split.
  - apply update_experience_buffer_run. simpl. by rewrite length_insert.
  - simpl. apply list_lookup_insert_eq. by rewrite !length_insert.
Qed.

End Buffer.

(** ** Planning *)



Section Planning.

Context {C : Type} `{ActionCount C}.
Variables alpha gamma epsilon : R.
Lemma sample_inv (ag ag' : agent C) (tr : transition) :
  sample ag = Some (tr, ag') →
  0 < length (experience_buffer ag)
  ∧ experience_buffer ag
    !! (np_random ag (np_random_pos ag) mod length (experience_buffer ag))
    = Some tr
  ∧ ag' = set_np_random_pos (S (np_random_pos ag)) ag.
Proof.
  unfold sample. run_method.
  destruct (randint _ ag) as [[i ag1]|] eqn:Hi; [|done].
  apply randint_inv in Hi as (Hpos & -> & _ & ->). simpl.
  destruct (experience_buffer ag !! _) as [tr'|] eqn:Htr; [|done].
  intros [= <- <-]. done.
Qed.

Lemma sample_run (ag : agent C) :
  0 < length (experience_buffer ag) →
  ∃ tr,
    experience_buffer ag
    !! (np_random ag (np_random_pos ag) mod length (experience_buffer ag))
    = Some tr
    ∧ sample ag = Some (tr, set_np_random_pos (S (np_random_pos ag)) ag).
Proof.
  intros Hlen. unfold sample. run_method. rewrite randint_run by done.
  simpl.
  destruct (lookup_lt_is_Some_2 (experience_buffer ag)
              (np_random ag (np_random_pos ag)
               mod length (experience_buffer ag))) as [tr Htr].
  { apply Nat.mod_upper_bound. lia. }
  exists tr. by rewrite Htr.
Qed.

Lemma plan_iter_inv (ag ag' : agent C) :
  plan_iter alpha gamma epsilon ag = Some (tt, ag') →
  ∃ tr,
    experience_buffer ag
    !! (np_random ag (np_random_pos ag) mod length (experience_buffer ag))
    = Some tr
    ∧ _update_qvals alpha gamma epsilon (t_s tr) (t_a tr) (t_r tr) (t_s1 tr)
        true (set_np_random_pos (S (np_random_pos ag)) ag)
      = Some (tt, ag').
Proof.
  unfold plan_iter. unfold bind at 1.
  destruct (sample ag) as [[tr ag1]|] eqn:Hsample; [|done].
  apply sample_inv in Hsample as (_ & Htr & ->). eauto.
Qed.

Lemma update_qvals_frame (ag ag' : agent C) s a r s1 bonus :
  _update_qvals alpha gamma epsilon s a r s1 bonus ag = Some (tt, ag') →
  experience_buffer ag' = experience_buffer ag
  ∧ action_count ag' = action_count ag
  ∧ history ag' = history ag
  ∧ self_s ag' = self_s ag
  ∧ np_random ag' = np_random ag
  ∧ np_random_pos ag' = np_random_pos ag.
Proof.
  intros (q & c & row1 & m & Q' & _ & _ & _ & _ & _ & ->)%update_qvals_inv.
  done.
Qed.

Lemma update_qvals_shape (ag ag' : agent C) s a r s1 bonus n m :
  shape n m (Q ag) →
  _update_qvals alpha gamma epsilon s a r s1 bonus ag = Some (tt, ag') →
  shape n m (Q ag').
Proof.
  intros Hshape
    (q & c & row1 & m' & Q' & _ & _ & _ & _ & HQ' & ->)%update_qvals_inv.
  simpl. by eapply set2_shape.
Qed.

Lemma plan_iter_frame (ag ag' : agent C) :
  plan_iter alpha gamma epsilon ag = Some (tt, ag') →
  experience_buffer ag' = experience_buffer ag
  ∧ action_count ag' = action_count ag
  ∧ history ag' = history ag
  ∧ self_s ag' = self_s ag
  ∧ np_random ag' = np_random ag
  ∧ np_random_pos ag' = S (np_random_pos ag).
Proof.
  intros (tr & _ & Hupd)%plan_iter_inv.
  by apply update_qvals_frame in Hupd.
Qed.

Lemma plan_frame (n : nat) (ag ag' : agent C) :
  _plan alpha gamma epsilon n ag = Some (tt, ag') →
  experience_buffer ag' = experience_buffer ag
  ∧ action_count ag' = action_count ag
  ∧ history ag' = history ag
  ∧ self_s ag' = self_s ag
  ∧ np_random ag' = np_random ag
  ∧ np_random_pos ag' = np_random_pos ag + n.
Proof.
  unfold _plan. revert ag. induction n as [|n IH]; intros ag; simpl.
  - unfold ret. intros [= <-]. repeat split. lia.
  - unfold bind.
    destruct (plan_iter alpha gamma epsilon ag) as [[[] ag1]|] eqn:Hiter;
      [|done].
    intros Hrest. apply plan_iter_frame in Hiter. apply IH in Hrest.
    destruct Hiter as (E1 & E2 & E3 & E4 & E5 & E6).
    destruct Hrest as (F1 & F2 & F3 & F4 & F5 & F6).
    repeat split; try congruence. lia.
Qed.

(** The states between the iterations of a planning call. *)
Lemma plan_trace (n : nat) (ag ag' : agent C) :
  _plan alpha gamma epsilon n ag = Some (tt, ag') →
  ∃ states : list (agent C),
    length states = S n
    ∧ states !! 0 = Some ag
    ∧ states !! n = Some ag'
    ∧ ∀ k ag1 ag2, states !! k = Some ag1 → states !! S k = Some ag2 →
        plan_iter alpha gamma epsilon ag1 = Some (tt, ag2).
Proof.
  unfold _plan. revert ag. induction n as [|n IH]; intros ag; simpl.
  - unfold ret. intros [= <-]. exists [ag]. repeat split.
    intros k ag1 ag2 _ Hk. by destruct k.
  - unfold bind.
    destruct (plan_iter alpha gamma epsilon ag) as [[[] ag1]|] eqn:Hiter;
      [|done].
    intros (states & Hlen & Hfirst & Hlast & Hsteps)%IH.
    exists (ag :: states). simpl. repeat split; try done; [by rewrite Hlen|].
    intros [|k] σ1 σ2; simpl.
    + intros [= <-] Hσ2. by assert (σ2 = ag1) as -> by congruence.
    + apply Hsteps.
Qed.

Variable env : Environment.t.

Let num_states := Environment.num_states env.
Let num_actions := Environment.num_actions env.

Lemma plan_iter_total (ag : agent C) :
  tables_ok env ag → 0 < num_states * num_actions →
  ∃ ag', plan_iter alpha gamma epsilon ag = Some (tt, ag')
         ∧ tables_ok env ag'.
Proof.
  intros (HQ & Hcnt & [Hlen Hbuf]) Hpos.
  destruct (sample_run ag) as (tr & Htr & Hsample).
  { fold num_states num_actions in Hlen. lia. }
  destruct (Hbuf _ _ Htr) as (Hts & Hta & Hts1).
  set (i := np_random ag (np_random_pos ag) mod length (experience_buffer ag))
    in *.
  assert (i < num_states * num_actions) as Hi.
  { fold num_states num_actions in Hlen. rewrite <- Hlen.
    by eapply lookup_lt_Some. }
  assert (t_s tr < num_states ∧ t_a tr < num_actions) as [Hs' Ha'].
  { rewrite Hts, Hta. fold num_actions. split.
    - apply Nat.Div0.div_lt_upper_bound. lia.
    - apply Nat.mod_upper_bound. lia. }
  destruct (proj2 (get2_shape_lt _ _ (Q ag) (t_s tr) (t_a tr) HQ))
    as [q Hq]; [done|].
  destruct (proj2 (get2_shape_lt _ _ (action_count ag) (t_s tr) (t_a tr) Hcnt))
    as [c Hc]; [done|].
  destruct (lookup_lt_is_Some_2 (Q ag) (t_s1 tr)) as [row1 Hrow1].
  { destruct HQ as [-> _]. done. }
  destruct (row_max_is_Some row1) as [m Hm].
  { destruct HQ as [_ Hrows]. rewrite (Hrows _ _ Hrow1).
    fold num_actions. lia. }
  destruct (update_qvals_run alpha gamma epsilon
              (set_np_random_pos (S (np_random_pos ag)) ag)
              (t_s tr) (t_a tr) (t_r tr) (t_s1 tr) true q c row1 m)
    as (Q' & HQ' & Hrun); try done.
  eexists. split.
  - unfold plan_iter. unfold bind at 1. rewrite Hsample. exact Hrun.
  - split; [simpl; by eapply set2_shape|].
    split; [done|]. by split.
Qed.

Lemma plan_total (n : nat) (ag : agent C) :
  tables_ok env ag → 0 < num_states * num_actions →
  ∃ ag', _plan alpha gamma epsilon n ag = Some (tt, ag')
         ∧ tables_ok env ag'.
Proof.
  intros Hwf Hpos. unfold _plan. revert ag Hwf.
  induction n as [|n IH]; intros ag Hwf; simpl.
  - by exists ag.
  - destruct (plan_iter_total ag Hwf Hpos) as (ag1 & Hiter & Hwf1).
    destruct (IH ag1 Hwf1) as (ag' & Hrest & Hwf').
    exists ag'. split; [|done]. unfold bind. by rewrite Hiter.
Qed.

(** C3.  A planning call of [n] updates that returns has gone through
    exactly [n] iterations, each of which took the row of the experience
    buffer at the index given by one uniform draw over the whole buffer
    and applied the learning step to it with the bonus enabled; it leaves
    the experience buffer, the counters, the history and the current
    state as they were and has consumed [n] draws.  On well-formed,
    non-empty tables the call does return. *)
Theorem plan_spec (n : nat) (ag : agent C) :
  (∀ ag', _plan alpha gamma epsilon n ag = Some (tt, ag') →
     experience_buffer ag' = experience_buffer ag
     ∧ action_count ag' = action_count ag
     ∧ history ag' = history ag
     ∧ self_s ag' = self_s ag
     ∧ np_random_pos ag' = np_random_pos ag + n
     ∧ ∃ states : list (agent C),
         length states = S n
         ∧ states !! 0 = Some ag
         ∧ states !! n = Some ag'
         ∧ ∀ k ag1 ag2, states !! k = Some ag1 → states !! S k = Some ag2 →
             ∃ tr,
               experience_buffer ag1
               !! (np_random ag1 (np_random_pos ag1)
                   mod length (experience_buffer ag1))
               = Some tr
               ∧ _update_qvals alpha gamma epsilon
                   (t_s tr) (t_a tr) (t_r tr) (t_s1 tr) true
                   (set_np_random_pos (S (np_random_pos ag1)) ag1)
                 = Some (tt, ag2))
  ∧ (tables_ok env ag → 0 < num_states * num_actions →
     ∃ ag', _plan alpha gamma epsilon n ag = Some (tt, ag')).
Proof.
  split.
  - intros ag' Hrun.
    destruct (plan_frame n ag ag' Hrun) as (E1 & E2 & E3 & E4 & _ & E6).
    repeat split; try done.
    destruct (plan_trace n ag ag' Hrun)
      as (states & Hlen & Hfirst & Hlast & Hsteps).
    exists states. repeat split; try done.
    intros k ag1 ag2 Hk HSk. apply plan_iter_inv. by eapply Hsteps.
  - intros Hwf Hpos. destruct (plan_total n ag Hwf Hpos) as (ag' & Hrun & _).
    eauto.
Qed.

End Planning.

(** ** The simulation driver *)

Lemma bind_inv {C A B} (m : M C A) (k : A → M C B) ag y ag2 :
  bind m k ag = Some (y, ag2) →
  ∃ x ag1, m ag = Some (x, ag1) ∧ k x ag1 = Some (y, ag2).
Proof.
  unfold bind. destruct (m ag) as [[x ag1]|]; [|done]. eauto.
Qed.

Lemma bind_run {C A B} (m : M C A) (k : A → M C B) ag x ag1 :
  m ag = Some (x, ag1) → bind m k ag = k x ag1.
Proof. unfold bind. by intros ->. Qed.

Lemma lift_inv {C A} (o : option A) (ag ag' : agent C) x :
  lift o ag = Some (x, ag') → o = Some x ∧ ag' = ag.
Proof. unfold lift. destruct o; [|done]. by intros [= <- <-]. Qed.

Lemma Rsum_no_support (p : list R) :
  (∀ x, x ∈ p → (0 <= x)%R) → (∀ x, x ∈ p → ¬ (0 < x)%R) → Rsum p = 0%R.
Proof.
  unfold Rsum. induction p as [|x p IH]; intros Hnn Hnp; simpl; [done|].
  rewrite IH.
  - assert (0 <= x)%R by (apply Hnn, elem_of_cons; auto).
    assert (¬ (0 < x)%R) by (apply Hnp, elem_of_cons; auto). lra.
  - intros y Hy. apply Hnn, elem_of_cons. auto.
  - intros y Hy. apply Hnp, elem_of_cons. auto.
Qed.

Lemma valid_p_support (n : nat) (p : list R) :
  valid_p n p = true →
  length p = n ∧ 0 < length (flatnonzero (map Rpos p)).
Proof.
  unfold valid_p. rewrite !andb_true_iff, bool_decide_eq_true.
  intros [[Hlen Hnn] Hsum]. split; [done|].
  destruct (flatnonzero (map Rpos p)) as [|i l] eqn:Hsupp; [|simpl; lia].
  exfalso. unfold Reqb in Hsum.
  destruct (Req_dec_T (Rsum p) 1) as [Hone|]; [|done].
  rewrite Rsum_no_support in Hone; [lra| |].
  - intros x Hx. rewrite forallb_forall in Hnn.
    apply list_elem_of_In in Hx. specialize (Hnn x Hx).
    by destruct (Rle_dec 0 x).
  - intros x (i & Hi)%list_elem_of_lookup_1 Hpos.
    assert (i ∈ flatnonzero (map Rpos p)) as Hin; [|by rewrite Hsupp in Hin;
      apply elem_of_nil in Hin].
    apply elem_of_flatnonzero. change (map ?f p) with (f <$> p).
    rewrite list_lookup_fmap, Hi. simpl. unfold Rpos.
    by destruct (Rlt_dec 0 x).
Qed.

Lemma choice_p_inv {C} (ag ag' : agent C) (n : nat) (p : list R) (s1 : nat) :
  choice_p n p ag = Some (s1, ag') →
  s1 < n ∧ ag' = set_np_random_pos (S (np_random_pos ag)) ag.
Proof.
  unfold choice_p. destruct (valid_p n p) eqn:Hvalid; [|done].
  apply valid_p_support in Hvalid as [<- _].
  intros [Hin ->]%choice_inv. split; [|done].
  apply elem_of_flatnonzero, lookup_lt_Some in Hin.
  by rewrite length_map in Hin.
Qed.

(** A weighted draw returns an outcome of positive weight. *)
Lemma choice_p_support {C} (ag ag' : agent C) (n : nat) (p : list R)
  (s1 : nat) :
  choice_p n p ag = Some (s1, ag') →
  ∃ x, p !! s1 = Some x ∧ (0 < x)%R.
Proof.
  unfold choice_p. destruct (valid_p n p); [|done].
  intros [Hin _]%choice_inv. apply elem_of_flatnonzero in Hin.
  change (map Rpos p) with (Rpos <$> p) in Hin.
  rewrite list_lookup_fmap in Hin.
  destruct (p !! s1) as [x|]; [|done]. exists x. split; [done|].
  simpl in Hin. unfold Rpos in Hin. by destruct (Rlt_dec 0 x).
Qed.

Lemma choice_p_run {C} (ag : agent C) (n : nat) (p : list R) :
  valid_p n p = true →
  ∃ s1, s1 < n
        ∧ choice_p n p ag
          = Some (s1, set_np_random_pos (S (np_random_pos ag)) ag).
Proof.
  intros Hvalid. unfold choice_p. rewrite Hvalid.
  destruct (valid_p_support n p Hvalid) as [Hlen Hsupp].
  destruct (choice_run ag _ Hsupp) as (s1 & Hs1 & Hrun).
  exists s1. split; [|done].
  apply list_elem_of_lookup_2, elem_of_flatnonzero, lookup_lt_Some in Hs1.
  by rewrite length_map, Hlen in Hs1.
Qed.

Lemma buffer_ok_insert env (buf : list transition) s a r s1 :
  buffer_ok env buf →
  a < Environment.num_actions env → s1 < Environment.num_states env →
  buffer_ok env
    (<[s * Environment.num_actions env + a := Transition s a r s1]> buf).
Proof.
  intros [Hlen Hbuf] Ha Hs1. split; [by rewrite length_insert|].
  intros i tr.
  destruct (decide (i = s * Environment.num_actions env + a)) as [->|Hne].
  - destruct (decide (s * Environment.num_actions env + a < length buf)).
    + rewrite list_lookup_insert_eq by done. intros [= <-].
      split; [|split; [|done]]; simpl.
      * apply (Nat.div_unique _ _ s a); lia.
      * apply (Nat.mod_unique _ _ s a); lia.
    + rewrite list_insert_ge by lia. apply Hbuf.
  - rewrite list_lookup_insert_ne by done. apply Hbuf.
Qed.

Lemma plan_shape {C} `{ActionCount C} (alpha gamma epsilon : R) (k : nat)
  (ag ag' : agent C) (n m : nat) :
  _plan alpha gamma epsilon k ag = Some (tt, ag') →
  shape n m (Q ag) → shape n m (Q ag').
Proof.
  unfold _plan. revert ag. induction k as [|k IH]; intros ag Hplan Hshape.
  - simpl in Hplan. unfold ret in Hplan. congruence.
  - simpl in Hplan. apply bind_inv in Hplan as ([] & ag1 & Hiter & Hplan).
    apply (IH ag1 Hplan).
    apply plan_iter_inv in Hiter as (tr & _ & Hupd).
    by eapply update_qvals_shape in Hupd.
Qed.

Lemma candidate_lt {C} `{ActionCount C} (epsilon : R) (ag : agent C) s a scores cands n m :
  shape n m (Q ag) →
  Q_exp epsilon ag s = Some scores →
  maximizers scores = Some cands →
  a ∈ cands → a < m.
Proof.
  intros HQ Hscores Hcands Hin.
  apply (maximizers_spec scores cands Hcands) in Hin as (x & Hx & _).
  rewrite (Q_exp_lookup epsilon ag s scores) in Hx by done.
  unfold score in Hx.
  destruct (get2 (Q ag) s a) as [q|] eqn:Hq; [|done].
  eapply (get2_shape_lt n m (Q ag) s a HQ). by rewrite Hq.
Qed.

Lemma update_qvals_total {C} `{ActionCount C} (alpha gamma epsilon : R)
  (ag : agent C) s a r s1 bonus n m :
  shape n m (Q ag) → shape n m (action_count ag) →
  s < n → a < m → s1 < n →
  ∃ ag', _update_qvals alpha gamma epsilon s a r s1 bonus ag = Some (tt, ag').
Proof.
  intros HQ Hcnt Hs Ha Hs1.
  destruct (proj2 (get2_shape_lt n m (Q ag) s a HQ)) as [q Hq]; [done|].
  destruct (proj2 (get2_shape_lt n m (action_count ag) s a Hcnt))
    as [c Hc]; [done|].
  destruct (lookup_lt_is_Some_2 (Q ag) s1) as [row1 Hrow1].
  { by destruct HQ as [-> _]. }
  destruct (row_max_is_Some row1) as [x Hx].
  { destruct HQ as [_ Hrows]. rewrite (Hrows _ _ Hrow1). lia. }
  destruct (update_qvals_run alpha gamma epsilon ag s a r s1 bonus q c row1 x)
    as (Q' & _ & Hrun); try done.
  eauto.
Qed.

Lemma policy_total {C} `{ActionCount C} (epsilon : R) (ag : agent C) s n m :
  shape n m (Q ag) → shape n m (action_count ag) → s < n → 0 < m →
  ∃ a, a < m
       ∧ _policy epsilon s ag
         = Some (a, set_np_random_pos (S (np_random_pos ag)) ag).
Proof.
  intros HQ Hcnt Hs Hm.
  destruct (proj2 (get2_shape_lt n m (Q ag) s 0 HQ)) as [q Hq]; [done|].
  destruct (proj2 (get2_shape_lt n m (action_count ag) s 0 Hcnt))
    as [c Hc]; [done|].
  assert (is_Some (score epsilon ag s 0)) as Hscore.
  { unfold score. rewrite Hq, Hc. eauto. }
  destruct (Q_exp_is_Some epsilon ag s 0 Hscore) as [scores Hscores].
  destruct (maximizers_nonempty scores) as (cands & Hcands & Hlen).
  { destruct Hscore as [x Hx].
    rewrite <- (Q_exp_lookup epsilon ag s scores) in Hx by done.
    apply lookup_lt_Some in Hx. lia. }
  destruct (choice_run ag cands Hlen) as (a & Ha & Hrun).
  exists a. split.
  - eapply candidate_lt; eauto. by eapply list_elem_of_lookup_2.
  - by rewrite (policy_run epsilon ag s scores cands).
Qed.

Lemma follows_lookup env (log : list transition) (cur final : nat) :
  follows env cur log final →
  (∀ tr, log !! 0 = Some tr → t_s tr = cur)
  ∧ (∀ k tr tr', log !! k = Some tr → log !! S k = Some tr' →
       t_s tr' = next_start env (t_s1 tr))
  ∧ (∀ tr, list.last log = Some tr → final = next_start env (t_s1 tr))
  ∧ (log = [] → final = cur).
Proof.
  revert cur. induction log as [|tr0 log IH]; intros cur; simpl.
  - intros ->. by repeat split.
  - intros [Hcur Hrest]. destruct (IH _ Hrest) as (Hhead & Hstep & Hlast & Hnil).
    repeat split; try done.
    + by intros tr [= <-].
    + intros [|k] tr tr'; simpl.
      * intros [= <-] Htr'. by apply Hhead.
      * apply Hstep.
    + intros tr. destruct log as [|tr1 log'].
      * simpl. intros [= <-]. by apply Hnil.
      * apply Hlast.
Qed.

Section Driver.

Context {C : Type} `{ActionCount C}.
Variables alpha gamma epsilon : R.
Variable env : Environment.t.

Let num_states := Environment.num_states env.
Let num_actions := Environment.num_actions env.

Lemma reset_run (ag : agent C) :
  reset env ag
  = Some (tt, Agent (zeros 0%R num_states num_actions) (init_buffer env) []
                    (init_count env) (Environment.start_state env)
                    (np_random ag) (np_random_pos ag)).
Proof. done. Qed.

(** What a decision step that returns has done. *)
Lemma trial_inv npu (ag ag' : agent C) :
  trial alpha gamma epsilon env npu ag = Some (tt, ag') →
  ∃ a s1 r cnt' scores cands,
    Q_exp epsilon ag (self_s ag) = Some scores
    ∧ maximizers scores = Some cands
    ∧ a ∈ cands
    ∧ s1 < num_states
    ∧ get2 (Environment.R env) (self_s ag) a = Some r
    ∧ self_s ag * num_actions + a < length (experience_buffer ag)
    ∧ update_count env (self_s ag) a (action_count ag) = Some cnt'
    ∧ experience_buffer ag'
      = <[self_s ag * num_actions + a := Transition (self_s ag) a r s1]>
          (experience_buffer ag)
    ∧ history ag' = history ag ++ [Transition (self_s ag) a r s1]
    ∧ action_count ag' = cnt'
    ∧ self_s ag' = next_start env s1
    ∧ (∀ n m, shape n m (Q ag) → shape n m (Q ag')).
Proof.
  unfold trial. intros Hrun.
  apply bind_inv in Hrun as (ag0 & ? & [= <- <-] & Hrun).
  apply bind_inv in Hrun as (a & ag1 & Hpol & Hrun).
  apply policy_inv in Hpol as (scores & cands & Hscores & Hcands & Hin & ->).
  apply bind_inv in Hrun as (p & ? & [Hp ->]%lift_inv & Hrun).
  apply bind_inv in Hrun as (s1 & ag2 & [Hs1 ->]%choice_p_inv & Hrun).
  apply bind_inv in Hrun as (r & ? & [Hr ->]%lift_inv & Hrun).
  apply bind_inv in Hrun as ([] & ag3 & Hupd & Hrun).
  apply bind_inv in Hrun as ([] & ag4 & Hrec & Hrun).
  apply bind_inv in Hrun as ([] & ag5 & Hcnt & Hrun).
  apply bind_inv in Hrun as ([] & ag6 & [= <-] & Hrun).
  apply bind_inv in Hrun as ([] & ag7 & Hplan & [= <-]).
  pose proof (update_qvals_frame _ _ _ _ _ _ _ _ _ _ Hupd)
    as (E1 & E2 & E3 & E4 & _ & _).
  apply update_experience_buffer_inv in Hrec as [Hlt ->].
  apply update_action_count_inv in Hcnt as (cnt' & Hcnt' & ->).
  simpl in *.
  assert (experience_buffer ag7
          = <[self_s ag * num_actions + a := Transition (self_s ag) a r s1]>
              (experience_buffer ag3)
          ∧ history ag7 = history ag3 ++ [Transition (self_s ag) a r s1]
          ∧ action_count ag7 = cnt'
          ∧ self_s ag7 = self_s ag3
          ∧ ∀ n m, shape n m (Q ag3) → shape n m (Q ag7))
    as (F1 & F2 & F3 & F4 & F5).
  { destruct npu as [n|].
    - pose proof (plan_frame _ _ _ _ _ _ Hplan) as (G1 & G2 & G3 & G4 & _).
      simpl in *. do 4 (split; [done|]).
      intros n' m' Hshape.
      by apply (plan_shape _ _ _ _ _ _ n' m' Hplan).
    - unfold ret in Hplan. injection Hplan as <-. by do 4 (split; [done|]). }
  exists a, s1, r, cnt', scores, cands.
  do 5 (split; [done|]). split; [by rewrite <- E1|].
  split; [by rewrite <- E2|].
  split; [by rewrite F1, E1|]. split; [by rewrite F2, E3|].
  do 2 (split; [done|]).
  intros n m Hshape. apply F5.
  by eapply update_qvals_shape in Hupd.
Qed.

(** The transition a decision step logs is one the environment allows:
    its reward is [R[s,a]] and its next state has positive probability
    in [T[s,a,:]]. *)
Lemma trial_lands npu (ag ag' : agent C) :
  trial alpha gamma epsilon env npu ag = Some (tt, ag') →
  ∃ a r s1 p x,
    history ag' = history ag ++ [Transition (self_s ag) a r s1]
    ∧ get2 (Environment.R env) (self_s ag) a = Some r
    ∧ get2 (Environment.T env) (self_s ag) a = Some p
    ∧ p !! s1 = Some x
    ∧ (0 < x)%R.
Proof.
  intros Hstep. pose proof Hstep as Hrun. unfold trial in Hrun.
  apply bind_inv in Hrun as (ag0 & ? & [= <- <-] & Hrun).
  apply bind_inv in Hrun as (a & ag1 & Hpol & Hrun).
  apply policy_inv in Hpol as (scores & cands & _ & _ & _ & ->).
  apply bind_inv in Hrun as (p & ? & [Hp ->]%lift_inv & Hrun).
  apply bind_inv in Hrun as (s1 & ag2 & Hch & Hrun).
  pose proof (choice_p_inv _ _ _ _ _ Hch) as [_ ->].
  apply choice_p_support in Hch as (x & Hx & Hpos).
  apply bind_inv in Hrun as (r & ? & [Hr ->]%lift_inv & Hrun).
  apply bind_inv in Hrun as ([] & ag3 & Hupd & Hrun).
  apply bind_inv in Hrun as ([] & ag4 & Hrec & Hrun).
  apply bind_inv in Hrun as ([] & ag5 & Hcnt & Hrun).
  apply bind_inv in Hrun as ([] & ag6 & [= <-] & Hrun).
  apply bind_inv in Hrun as ([] & ag7 & Hplan & [= <-]).
  assert (history ag7 = history ag5 ++ [Transition (self_s ag) a r s1])
    as Hhist7.
  { destruct npu as [n|].
    - by pose proof (plan_frame _ _ _ _ _ _ Hplan) as (_ & _ & -> & _).
    - unfold ret in Hplan. by injection Hplan as <-. }
  apply update_action_count_inv in Hcnt as (cnt' & _ & ->).
  apply update_experience_buffer_inv in Hrec as [_ ->].
  pose proof (update_qvals_frame _ _ _ _ _ _ _ _ _ _ Hupd)
    as (_ & _ & Hhist3 & _).
  exists a, r, s1, p, x. simpl in *. split; [|done].
  by rewrite Hhist7, Hhist3.
Qed.

Lemma trials_follow npu (n : nat) (ag ag' : agent C) :
  for_range n (trial alpha gamma epsilon env npu) ag = Some (tt, ag') →
  ∃ new, history ag' = history ag ++ new
         ∧ length new = n
         ∧ follows env (self_s ag) new (self_s ag').
Proof.
  revert ag. induction n as [|n IH]; intros ag; simpl.
  - unfold ret. intros [= <-]. exists []. by rewrite app_nil_r.
  - intros ([] & ag1 & Hstep & Hrest)%bind_inv.
    apply trial_inv in Hstep
      as (a & s1 & r & cnt' & scores & cands & _ & _ & _ & _ & _ & _ & _
          & _ & Hhist & _ & Hcur & _).
    destruct (IH ag1 Hrest) as (new & Hnew & Hlen & Hfollows).
    exists (Transition (self_s ag) a r s1 :: new). split; [|split].
    + by rewrite Hnew, Hhist, <- app_assoc.
    + simpl. by rewrite Hlen.
    + simpl. split; [done|]. by rewrite <- Hcur.
Qed.

Lemma reachable_ok (ag : agent C) :
  reachable alpha gamma epsilon env ag →
  shape num_states num_actions (Q ag)
  ∧ buffer_ok env (experience_buffer ag).
Proof.
  induction 1 as [ag ag' Hreset|ag ag' npu _ [HQ Hbuf] Hstep
                  |ag ag' n _ [HQ Hbuf] Hplan].
  - rewrite reset_run in Hreset. injection Hreset as <-. simpl.
    split; [apply zeros_shape|apply init_buffer_ok].
  - apply trial_inv in Hstep
      as (a & s1 & r & cnt' & scores & cands & Hscores & Hcands & Hin & Hs1
          & _ & _ & _ & -> & _ & _ & _ & Hshape).
    split; [by apply Hshape|]. apply buffer_ok_insert; [done| |done].
    by eapply candidate_lt.
  - pose proof (plan_frame _ _ _ _ _ _ Hplan) as (-> & _).
    split; [|done]. by eapply plan_shape.
Qed.

(** C5.  Recording the transition [(s, a, r, s1)] in the slot of a pair
    [(s, a)] of the table succeeds and leaves in that slot exactly
    [[s, a, r, s1]], whatever it held before; the slots of all other
    pairs and all other tables are unchanged; recording a second outcome
    for the same pair leaves exactly the second one.  So after a decision
    step the slot of the pair just taken holds the transition the step
    has logged. *)
Theorem record_spec :
  (∀ (ag : agent C) (s a : nat) (r : Z) (s1 : nat),
     a < num_actions →
     s * num_actions + a < length (experience_buffer ag) →
     ∃ ag',
       _update_experience_buffer env s a r s1 ag = Some (tt, ag')
       ∧ experience_buffer ag' !! (s * num_actions + a)
         = Some (Transition s a r s1)
       ∧ (∀ s' a', a' < num_actions → (s', a') ≠ (s, a) →
            experience_buffer ag' !! (s' * num_actions + a')
            = experience_buffer ag !! (s' * num_actions + a'))
       ∧ length (experience_buffer ag') = length (experience_buffer ag)
       ∧ Q ag' = Q ag
       ∧ action_count ag' = action_count ag
       ∧ history ag' = history ag
       ∧ self_s ag' = self_s ag
       ∧ (∀ r2 s2, ∃ ag'',
            _update_experience_buffer env s a r2 s2 ag' = Some (tt, ag'')
            ∧ experience_buffer ag'' !! (s * num_actions + a)
              = Some (Transition s a r2 s2)))
  ∧ (∀ npu (ag ag' : agent C),
       trial alpha gamma epsilon env npu ag = Some (tt, ag') →
       ∃ a r s1,
         history ag' = history ag ++ [Transition (self_s ag) a r s1]
         ∧ experience_buffer ag' !! (self_s ag * num_actions + a)
           = Some (Transition (self_s ag) a r s1)).
Proof.
  split.
  - intros ag s a r s1. apply update_experience_buffer_spec.
  - intros npu ag ag' Hstep.
    apply trial_inv in Hstep
      as (a & s1 & r & cnt' & scores & cands & _ & _ & _ & _ & _ & Hlt & _
          & -> & Hhist & _).
    exists a, r, s1. split; [done|]. by apply list_lookup_insert_eq.
Qed.

Context `{!ActionCountLaws C}.

(** In an environment as the agent expects it, a decision step from a
    well-formed state returns, in a well-formed state. *)
Lemma trial_total npu (ag : agent C) :
  env_ok env → wf env ag →
  ∃ ag', trial alpha gamma epsilon env npu ag = Some (tt, ag') ∧ wf env ag'.
Proof using Type*.
  intros (Hna & Hstart & Henv) [(HQ & Hcnt & Hbuf) Hs].
  fold num_states num_actions in Hna, Hstart, Henv, HQ, Hcnt, Hs.
  destruct (policy_total epsilon ag (self_s ag) num_states num_actions)
    as (a & Ha & Hpol); try done.
  destruct (Henv (self_s ag) a Hs Ha) as [[r Hr] (p & Hp & Hvalid)].
  set (ag1 := set_np_random_pos (S (np_random_pos ag)) ag) in *.
  destruct (choice_p_run ag1 num_states p Hvalid) as (s1 & Hs1 & Hch).
  set (ag2 := set_np_random_pos (S (np_random_pos ag1)) ag1) in *.
  destruct (update_qvals_total alpha gamma epsilon ag2 (self_s ag) a r s1 false
              num_states num_actions) as [ag3 Hupd]; try done.
  pose proof (update_qvals_frame _ _ _ _ _ _ _ _ _ _ Hupd)
    as (E1 & E2 & E3 & E4 & _ & _).
  assert (shape num_states num_actions (Q ag3)) as HQ3.
  { eapply update_qvals_shape; [|exact Hupd]. exact HQ. }
  simpl in E1, E2, E3, E4.
  assert (self_s ag * num_actions + a < length (experience_buffer ag3))
    as Hlt.
  { rewrite E1. destruct Hbuf as [-> _]. fold num_states num_actions. nia. }
  pose proof (update_experience_buffer_run env ag3 (self_s ag) a r s1 Hlt)
    as Hrec.
  set (ag4 := set_experience_buffer _ ag3) in *.
  destruct (update_count_total env (self_s ag) a (action_count ag4))
    as [cnt' Hcnt']; try done.
  { simpl. by rewrite E2. }
  pose proof (update_action_count_run env ag4 (self_s ag) a cnt' Hcnt')
    as Hcount.
  set (ag5 := set_action_count cnt' ag4) in *.
  set (ag6 := set_history
                (history ag5 ++ [Transition (self_s ag) a r s1]) ag5).
  assert (tables_ok env ag6) as Hok6.
  { split; [done|]. split.
    - simpl. eapply update_count_shape; [|exact Hcnt']. simpl.
      by rewrite E2.
    - simpl. rewrite E1. by apply buffer_ok_insert. }
  assert (∃ ag7,
            match npu with
            | Some n => _plan alpha gamma epsilon n
            | None => ret tt
            end ag6 = Some (tt, ag7)
            ∧ tables_ok env ag7) as (ag7 & Hplan & Hok7).
  { destruct npu as [n|]; [|by exists ag6].
    apply plan_total; [done|]. fold num_states num_actions. nia. }
  exists (set_self_s (next_start env s1) ag7). split.
  - unfold trial.
    rewrite (bind_run get _ ag ag ag) by done.
    rewrite (bind_run _ _ _ _ _ Hpol).
    rewrite (bind_run (lift _) _ ag1 p ag1) by (unfold lift; by rewrite Hp).
    rewrite (bind_run _ _ _ _ _ Hch).
    rewrite (bind_run (lift _) _ ag2 r ag2) by (unfold lift; by rewrite Hr).
    rewrite (bind_run _ _ _ _ _ Hupd).
    rewrite (bind_run _ _ _ _ _ Hrec).
    rewrite (bind_run _ _ _ _ _ Hcount).
    rewrite (bind_run (_update_history _ _ _ _) _ ag5 tt ag6) by done.
    rewrite (bind_run _ _ _ _ _ Hplan).
    done.
  - split; [done|]. simpl. unfold next_start. case_decide; done.
Qed.

Lemma trials_total npu (n : nat) (ag : agent C) :
  env_ok env → wf env ag →
  ∃ ag', for_range n (trial alpha gamma epsilon env npu) ag = Some (tt, ag')
         ∧ wf env ag'.
Proof using Type*.
  intros Henv. revert ag. induction n as [|n IH]; intros ag Hwf; simpl.
  - by exists ag.
  - destruct (trial_total npu ag Henv Hwf) as (ag1 & Hstep & Hwf1).
    destruct (IH ag1 Hwf1) as (ag' & Hrest & Hwf').
    exists ag'. split; [|done]. by rewrite (bind_run _ _ _ _ _ Hstep).
Qed.

Lemma reset_tables_ok (ag : agent C) :
  tables_ok env
    (Agent (zeros 0%R num_states num_actions) (init_buffer env) []
           (init_count env) (Environment.start_state env)
           (np_random ag) (np_random_pos ag)).
Proof using Type*.
  split; [apply zeros_shape|]. split; [apply init_count_shape|].
  apply init_buffer_ok.
Qed.


(** C6.  In a run of [simulate] that returns, the history has grown by
    exactly [num_trials] entries, one per decision step; the first step
    starts in the current state (the start state after a reset); each
    later step starts in the start state if the step before it landed in
    the goal state and in the state that step landed in otherwise; the
    same rule gives the current state at the end of the run.  In an
    environment as the agent expects it, after a reset or from a
    well-formed state, the run does return: reaching the goal never ends
    it. *)
Theorem simulate_spec (num_trials : nat) (reset_agent : bool)
  (npu : option nat) (ag : agent C) :
  (∀ ag',
     simulate alpha gamma epsilon env num_trials reset_agent npu ag
     = Some (tt, ag') →
     ∃ new,
       history ag' = (if reset_agent then [] else history ag) ++ new
       ∧ length new = num_trials
       ∧ (∀ tr, new !! 0 = Some tr →
            t_s tr = if reset_agent then Environment.start_state env
                     else self_s ag)
       ∧ (∀ k tr tr', new !! k = Some tr → new !! S k = Some tr' →
            t_s tr' = if decide (t_s1 tr = Environment.goal_state env)
                      then Environment.start_state env else t_s1 tr)
       ∧ (∀ tr, list.last new = Some tr →
            self_s ag' = if decide (t_s1 tr = Environment.goal_state env)
                         then Environment.start_state env else t_s1 tr))
  ∧ (env_ok env → reset_agent = true ∨ wf env ag →
     ∃ ag',
       simulate alpha gamma epsilon env num_trials reset_agent npu ag
       = Some (tt, ag')).
Proof using Type*.
  unfold simulate. split.
  - intros ag' ([] & ag0 & Hreset & Hrun)%bind_inv.
    apply trials_follow in Hrun as (new & Hhist & Hlen & Hfollows).
    apply follows_lookup in Hfollows as (Hhead & Hstep & Hlast & _).
    exists new. destruct reset_agent.
    + rewrite reset_run in Hreset. injection Hreset as <-. by simpl in *.
    + unfold ret in Hreset. injection Hreset as <-. done.
  - intros Henv Hwf.
    assert (∃ ag0, (if reset_agent then reset env else ret tt) ag
                   = Some (tt, ag0) ∧ wf env ag0) as (ag0 & Hreset & Hwf0).
    { destruct reset_agent.
      - rewrite reset_run. eexists. split; [done|].
        split; [apply reset_tables_ok|]. simpl. by destruct Henv as (_ & ? & _).
      - exists ag. split; [done|]. by destruct Hwf. }
    destruct (trials_total npu num_trials ag0 Henv Hwf0) as (ag' & Hrun & _).
    exists ag'. by rewrite (bind_run _ _ _ _ _ Hreset).
Qed.

(** C10.  In every reachable agent state the experience buffer has one
    row per pair; row [i] stores the state [i div num_actions], the
    action [i mod num_actions] and a next state below [num_states]; so a
    row drawn by the planning sampler is the row stored in the slot of
    its own state and action. *)
Theorem buffer_slots (ag : agent C) :
  reachable alpha gamma epsilon env ag →
  length (experience_buffer ag) = num_states * num_actions
  ∧ (∀ i, i < num_states * num_actions →
       ∃ r s1,
         experience_buffer ag !! i
         = Some (Transition (i / num_actions) (i mod num_actions) r s1)
         ∧ s1 < num_states)
  ∧ (∀ tr ag', sample ag = Some (tr, ag') →
       t_s tr < num_states
       ∧ t_a tr < num_actions
       ∧ t_s1 tr < num_states
       ∧ experience_buffer ag !! (t_s tr * num_actions + t_a tr) = Some tr).
Proof.
  intros [_ [Hlen Hbuf]]%reachable_ok.
  fold num_states num_actions in Hlen. split; [done|]. split.
  - intros i Hi.
    destruct (lookup_lt_is_Some_2 (experience_buffer ag) i) as [tr Htr];
      [lia|].
    destruct (Hbuf i tr Htr) as (Hs & Ha & Hs1). destruct tr as [s a r s1].
    simpl in *. subst. eauto.
  - intros tr ag' (Hpos & Htr & _)%sample_inv.
    set (i := np_random ag (np_random_pos ag)
              mod length (experience_buffer ag)) in *.
    assert (i < num_states * num_actions) as Hi.
    { rewrite <- Hlen. by eapply lookup_lt_Some. }
    destruct (Hbuf i tr Htr) as (Hs & Ha & Hs1).
    fold num_states num_actions in Hs, Ha, Hs1.
    rewrite Hs, Ha. split; [|split; [|split]].
    + apply Nat.Div0.div_lt_upper_bound. lia.
    + apply Nat.mod_upper_bound. lia.
    + done.
    + replace (i / num_actions * num_actions + i mod num_actions) with i;
        [done|].
      rewrite (Nat.div_mod_eq i num_actions) at 1. lia.
Qed.

End Driver.

(** ** The methods on small instances *)

Example coords_grid :
  map (Environment._convert_state_to_coords grid) [0; 1; 2; 3]
  = [(0, 0); (0, 1); (1, 0); (1, 1)].
Proof. reflexivity. Qed.

Example init_buffer_corridor :
  init_buffer corridor = [Transition 0 0 0 0; Transition 1 0 0 1].
Proof. reflexivity. Qed.

Example init_buffer_grid_row :
  init_buffer grid !! 6 = Some (Transition 1 2 0 1).
Proof. reflexivity. Qed.

Example touch_midway :
  DynaAgent._update_action_count corridor 0 1 [[4; 0]; [1; 1]]%Z
  = Some [[5; 0]; [2; 2]]%Z.
Proof. reflexivity. Qed.

Example touch_out_of_range :
  DynaAgent._update_action_count corridor 2 0 [[4; 0]; [1; 1]]%Z = None.
Proof. reflexivity. Qed.

Example flatnonzero_mask :
  flatnonzero [true; false; true; true] = [0; 2; 3].
Proof. reflexivity. Qed.

Example performance_midway : get_performace midway = [10; 10; 20]%Z.
Proof. reflexivity. Qed.

Example record_fresh :
  experience_buffer <$> (snd <$> _update_experience_buffer corridor 0 0 10 1 fresh)
  = Some [Transition 0 0 10 1; Transition 1 0 0 1].
Proof. reflexivity. Qed.

Example randint_empty : randint 0 fresh = None.
Proof. reflexivity. Qed.

Lemma corridor_ok : env_ok corridor.
Proof.
  split; [simpl; lia|]. split; [unfold Environment.num_states; simpl; lia|].
  intros s a Hs Ha. unfold Environment.num_states in Hs. simpl in Hs, Ha.
  assert (a = 0) as -> by lia.
  assert (valid_p 2 [0; 1]%R = true) as Hvalid.
  { unfold valid_p, Reqb, Rsum. simpl.
    destruct (Rle_dec 0 0); [|lra]. destruct (Rle_dec 0 1); [|lra].
    destruct (Req_dec_T (0 + (1 + 0)) 1); [done|lra]. }
  destruct s as [|[|s]]; [| |lia]; (split; [by eexists|by eexists]).
Qed.

(** One step in the corridor: the only action leads from the start to the
    goal and pays 10; the step is logged and the agent is back at the
    start. *)
Example goal_reset :
  ∃ ag', simulate 1 1 1 corridor 1 true None midway = Some (tt, ag')
         ∧ history ag' = [Transition 0 0 10 1]
         ∧ self_s ag' = 0.
Proof.
  unfold simulate. rewrite (bind_run _ _ _ _ _ (reset_run corridor midway)).
  match goal with
  | |- context [for_range 1 _ ?ag0] =>
      destruct (trial_total 1 1 1 corridor None ag0 corridor_ok)
        as (ag' & Hstep & _)
  end.
  { split; [apply (reset_tables_ok corridor midway)|].
    unfold Environment.num_states. simpl. lia. }
  exists ag'. split.
  { simpl. by rewrite (bind_run _ _ _ _ _ Hstep). }
  pose proof (trial_lands _ _ _ _ _ _ _ Hstep)
    as (a & r & s1 & p & x & Hhist & Hr & Hp & Hx & Hpos).
  pose proof (trial_inv _ _ _ _ _ _ _ Hstep)
    as (a' & s1' & r' & cnt' & scores & cands & _ & _ & _ & _ & _ & _ & _
        & _ & Hhist' & _ & Hcur & _).
  simpl in *.
  destruct a as [|a]; [|by destruct a].
  injection Hr as <-. injection Hp as <-.
  destruct s1 as [|[|s1]]; simpl in Hx; [injection Hx as <-; lra| |done].
  rewrite Hhist' in Hhist. injection Hhist as -> -> ->.
  split; [done|]. rewrite Hcur. reflexivity.
Qed.

Example policy_tie_second :
  fst <$> _policy 0 0 midway = Some 1.
Proof.
  assert (maximizers [0 + 0 * sqrt 4; 0 + 0 * sqrt 0]%R = Some [0; 1])
    as Hcands.
  { unfold maximizers. simpl. unfold Rmax, Reqb.
    destruct (Rle_dec _ _) as [Hle|Hnle].
    - destruct (Req_dec_T (0 + 0 * sqrt 4) (0 + 0 * sqrt 0)) as [_|Hne];
        [|exfalso; apply Hne; lra].
      by destruct (Req_dec_T (0 + 0 * sqrt 0) (0 + 0 * sqrt 0)).
    - exfalso. apply Hnle. lra. }
  rewrite (policy_run 0 midway 0 [0 + 0 * sqrt 4; 0 + 0 * sqrt 0]%R [0; 1]);
    done.
Qed.

(** ** The theorems at the small instances *)

Lemma update_qvals_spec_witness :
  get2 (Q midway) 0 0 = Some 0%R
  ∧ get2 (action_count midway) 0 0 = Some 4%Z
  ∧ Q midway !! 1 = Some [1; 2]%R
  ∧ is_max [1; 2]%R 2%R
  ∧ ∃ ag',
      _update_qvals (1 / 2) (9 / 10) (1 / 10) 0 0 10 1 true midway
      = Some (tt, ag')
      ∧ get2 (Q ag') 0 0
        = Some (0 + 1 / 2 * (10 + 1 / 10 * sqrt 4 + 9 / 10 * 2 - 0))%R
      ∧ get2 (Q ag') 1 1 = Some 2%R.
Proof.
  assert (is_max [1; 2]%R 2%R) as Hmax.
  { split.
    - apply elem_of_cons. right. apply elem_of_cons. by left.
    - intros x [->|[->|[]%elem_of_nil]%elem_of_cons]%elem_of_cons; lra. }
  do 4 (split; [done|]).
  destruct (update_qvals_spec (1 / 2) (9 / 10) (1 / 10) midway 0 0 10 1 true
              0%R 4%Z [1; 2]%R 2%R eq_refl eq_refl eq_refl Hmax)
    as (ag' & Hrun & Hnew & Hothers & _).
  exists ag'. split; [done|]. split; [done|].
  by rewrite (Hothers 1 1).
Defined.


Lemma touch_distance_spec_witness :
  length (action_count roaming) = Environment.num_states grid
  ∧ is_Some (get2 (action_count roaming) 0 2)
  ∧ ∃ ag',
      _update_action_count grid 0 2 roaming = Some (tt, ag')
      ∧ get2 (action_count ag') 0 2 = Some 0%R
      ∧ get2 (action_count ag') 3 1 = Some (0 + euclidean grid 0 3)%R.
Proof.
  assert (is_Some (get2 (action_count roaming) 0 2)) as Hin by (by eexists).
  split; [done|]. split; [done|].
  destruct (touch_distance_spec grid roaming 0 2 eq_refl Hin)
    as (ag' & Hrun & Hzero & Hothers & _).
  exists ag'. split; [done|]. split; [done|].
  by rewrite (Hothers 3 1).
Defined.

Lemma policy_spec_witness :
  is_Some (score 0 midway 0 0)
  ∧ ∃ cands a,
      NoDup cands
      ∧ cands !! (1 mod length cands) = Some a
      ∧ _policy 0 0 midway = Some (a, set_np_random_pos 1 midway).
Proof.
  assert (is_Some (score 0 midway 0 0)) as Hs by (by eexists).
  split; [done|].
  destruct (policy_spec 0 midway 0 0 Hs)
    as (cands & Hnodup & _ & _ & (a & Ha & Hrun) & _).
  by exists cands, a.
Defined.

Lemma record_spec_witness :
  0 < Environment.num_actions corridor
  ∧ 0 * Environment.num_actions corridor + 0 < length (experience_buffer fresh)
  ∧ (∃ ag',
       _update_experience_buffer corridor 0 0 10 1 fresh = Some (tt, ag')
       ∧ experience_buffer ag' !! 0 = Some (Transition 0 0 10 1)
       ∧ experience_buffer ag' !! 1 = experience_buffer fresh !! 1)
  ∧ ∃ ag' a r s1,
      trial 1 1 1 corridor None fresh = Some (tt, ag')
      ∧ history ag' = [Transition 0 a r s1]
      ∧ experience_buffer ag' !! (0 * 1 + a) = Some (Transition 0 a r s1).
Proof.
  assert (0 < Environment.num_actions corridor) as Ha by (simpl; lia).
  assert (0 * Environment.num_actions corridor + 0
          < length (experience_buffer fresh)) as Hlt by (simpl; lia).
  split; [done|]. split; [done|].
  destruct (record_spec 1 1 1 corridor (C:=Z)) as [Hrecord Hstep].
  split.
  - destruct (Hrecord fresh 0 0 10%Z 1 Ha Hlt)
      as (ag' & Hrun & Hnew & Hothers & _).
    exists ag'. split; [done|]. split; [done|].
    by apply (Hothers 1 0).
  - destruct (trial_total 1 1 1 corridor None fresh corridor_ok)
      as (ag' & Hrun & _).
    { split; [apply (reset_tables_ok corridor fresh)|].
      unfold Environment.num_states. simpl. lia. }
    destruct (Hstep None fresh ag' Hrun) as (a & r & s1 & Hhist & Hslot).
    by exists ag', a, r, s1.
Defined.

Lemma plan_spec_witness :
  tables_ok corridor fresh
  ∧ ∃ ag',
      _plan 1 1 1 2 fresh = Some (tt, ag')
      ∧ experience_buffer ag' = experience_buffer fresh
      ∧ action_count ag' = action_count fresh
      ∧ history ag' = history fresh
      ∧ np_random_pos ag' = 2.
Proof.
  assert (tables_ok corridor fresh) as Hok
    by apply (reset_tables_ok corridor fresh).
  split; [done|].
  destruct (plan_spec 1 1 1 corridor 2 fresh) as [Hframe Htotal].
  destruct (Htotal Hok) as [ag' Hrun].
  { unfold Environment.num_states. simpl. lia. }
  destruct (Hframe ag' Hrun) as (E1 & E2 & E3 & _ & E5 & _).
  by exists ag'.
Defined.


Lemma simulate_spec_witness :
  env_ok corridor
  ∧ ∃ ag' new,
      simulate 1 1 1 corridor 3 true (Some 2) midway = Some (tt, ag')
      ∧ history ag' = new
      ∧ length new = 3
      ∧ ∀ tr, new !! 0 = Some tr → t_s tr = 0.
Proof.
  split; [exact corridor_ok|].
  destruct (simulate_spec 1 1 1 corridor 3 true (Some 2) midway)
    as [Hsteps Htotal].
  destruct (Htotal corridor_ok (or_introl eq_refl)) as [ag' Hrun].
  destruct (Hsteps ag' Hrun) as (new & Hhist & Hlen & Hfirst & _).
  by exists ag', new.
Defined.


Lemma buffer_slots_witness :
  reachable 1 1 1 corridor fresh
  ∧ length (experience_buffer fresh) = 2
  ∧ ∃ r s1, experience_buffer fresh !! 1 = Some (Transition 1 0 r s1)
            ∧ s1 < 2.
Proof.
  assert (reachable 1 1 1 corridor fresh) as Hreach.
  { by apply (reachable_reset 1 1 1 corridor fresh fresh). }
  split; [done|].
  destruct (buffer_slots 1 1 1 corridor fresh Hreach) as (Hlen & Hrows & _).
  split; [done|]. apply (Hrows 1). unfold Environment.num_states. simpl. lia.
Defined.

(** * Further properties *)

(** ** Building the environment *)

Example maze_moves :
  map (Maze._get_new_state maze 3) [0; 1; 2; 3]
  = [Some (0, 0%Z); Some (6, 0%Z); Some (3, 0%Z); Some (3, 0%Z)].
Proof. reflexivity. Qed.

Example maze_goal : Maze._get_new_state maze 7 3 = Some (8, 10%Z).
Proof. reflexivity. Qed.

Example one_row_down : Maze._get_new_state one_row 1 1 = None.
Proof. reflexivity. Qed.

Lemma np_index_nat {A} (l : list A) (i : nat) :
  np_index l (Z.of_nat i) = l !! i.
Proof.
  unfold np_index. rewrite (proj2 (Z.leb_le 0 (Z.of_nat i))) by lia.
  by rewrite Nat2Z.id.
Qed.

Lemma np_index_in_range {A} (l : list A) (i : Z) :
  (0 <= i)%Z → np_index l i = l !! Z.to_nat i.
Proof.
  intros Hi. unfold np_index. by rewrite (proj2 (Z.leb_le 0 i)) by lia.
Qed.

Lemma reshape_length {A} (rows cols : nat) (l : list A) :
  length (reshape rows cols l) = rows.
Proof.
  revert l. induction rows as [|rows IH]; intros l; simpl; [done|].
  by rewrite IH.
Qed.

Lemma reshape_lookup {A} (rows cols : nat) (l : list A) (i j : nat) :
  length l = rows * cols → i < rows → j < cols →
  ∃ row, reshape rows cols l !! i = Some row
         ∧ length row = cols
         ∧ row !! j = l !! (i * cols + j).
Proof.
  revert l i. induction rows as [|rows IH]; intros l i Hlen Hi Hj; [lia|].
  destruct i as [|i]; simpl.
  - exists (take cols l). split; [done|]. split.
    + rewrite length_take. nia.
    + rewrite lookup_take. by rewrite decide_True by done.
  - destruct (IH (drop cols l) i) as (row & Hrow & Hrowlen & Hcell);
      [rewrite length_drop; nia|lia|done|].
    exists row. split; [done|]. split; [done|].
    rewrite Hcell, lookup_drop. f_equal. lia.
Qed.

Section MazeFacts.

Variable c : Maze.config.

Let nx := Maze.num_x_states c.
Let ny := Maze.num_y_states c.

Lemma coords_lt (s : nat) :
  s < Maze.num_states c →
  fst (Environment._convert_state_to_coords (Maze.attributes c) s) < ny
  ∧ snd (Environment._convert_state_to_coords (Maze.attributes c) s) < nx.
Proof.
  unfold Maze.num_states, Environment._convert_state_to_coords. simpl.
  fold nx ny. intros Hs. split.
  - apply Nat.Div0.div_lt_upper_bound. lia.
  - apply Nat.mod_upper_bound. nia.
Qed.

Lemma convert_in_range (i j : Z) :
  (0 <= i < Z.of_nat ny)%Z → (0 <= j < Z.of_nat nx)%Z →
  Maze._convert_coords_to_state c i j
  = Some (Z.to_nat i * nx + Z.to_nat j).
Proof.
  intros Hi Hj. unfold Maze._convert_coords_to_state. fold nx ny.
  destruct (reshape_lookup ny nx (seq 0 (ny * nx)) (Z.to_nat i) (Z.to_nat j))
    as (row & Hrow & _ & Hcell); [by rewrite length_seq|lia|lia|].
  rewrite np_index_in_range, Hrow by lia.
  rewrite np_index_in_range, Hcell by lia.
  apply lookup_seq. split; [done|]. nia.
Qed.

Lemma convert_out_of_range (i j : Z) :
  (Z.of_nat ny <= i)%Z ∨ (0 <= i ∧ Z.of_nat nx <= j)%Z →
  Maze._convert_coords_to_state c i j = None.
Proof.
  intros Hij. unfold Maze._convert_coords_to_state. fold nx ny.
  destruct (decide (Z.of_nat ny <= i)%Z) as [Hi|Hi].
  - rewrite np_index_in_range by lia.
    rewrite lookup_ge_None_2; [done|]. rewrite reshape_length. lia.
  - destruct Hij as [?|[Hi0 Hj]]; [lia|].
    destruct (decide (0 < nx)) as [Hnx|Hnx].
    + destruct (reshape_lookup ny nx (seq 0 (ny * nx)) (Z.to_nat i) 0)
        as (row & Hrow & Hlen & _); [by rewrite length_seq|lia|lia|].
      rewrite np_index_in_range, Hrow by lia.
      rewrite np_index_in_range by lia.
      apply lookup_ge_None_2. lia.
    + rewrite np_index_in_range by lia.
      destruct (reshape ny nx (seq 0 (ny * nx)) !! Z.to_nat i) as [row|] eqn:Hrow;
        [|done].
      rewrite np_index_in_range by lia.
      apply lookup_ge_None_2.
      assert (nx = 0) as Hz by lia. clear -Hrow Hz.
      assert (∀ (rows : nat) (l : list nat) k r,
                reshape rows 0 l !! k = Some r → r = []) as Hempty.
      { induction rows as [|rows IH]; intros l k r; simpl; [done|].
        destruct k as [|k]; simpl; [by intros [= <-]|apply IH]. }
      rewrite Hz in Hrow. apply Hempty in Hrow as ->. simpl. lia.
Qed.

Lemma coords_of_cell (i j : nat) :
  i < ny → j < nx →
  Environment._convert_state_to_coords (Maze.attributes c) (i * nx + j)
  = (i, j).
Proof.
  intros Hi Hj. unfold Environment._convert_state_to_coords. simpl.
  fold nx. f_equal.
  - symmetry. apply (Nat.div_unique _ _ i j); lia.
  - symmetry. apply (Nat.mod_unique _ _ i j); lia.
Qed.

Lemma cell_of_coords (s : nat) :
  s < Maze.num_states c →
  fst (Environment._convert_state_to_coords (Maze.attributes c) s) * nx
  + snd (Environment._convert_state_to_coords (Maze.attributes c) s) = s.
Proof.
  intros Hs. unfold Environment._convert_state_to_coords. simpl. fold nx.
  rewrite (Nat.div_mod_eq s nx) at 3. lia.
Qed.

(** X1.  The two coordinate conversions are inverse to each other on the
    grid: a state below [num_states] has coordinates inside the grid
    that convert back to it, a cell [(i, j)] of the grid converts to the
    state [i * num_x_states + j], whose coordinates are [(i, j)]; a row
    or a column beyond the grid raises. *)
Theorem coords_round_trip :
  (∀ s, s < Maze.num_states c →
     ∃ i j,
       Environment._convert_state_to_coords (Maze.attributes c) s = (i, j)
       ∧ i < ny ∧ j < nx
       ∧ Maze._convert_coords_to_state c (Z.of_nat i) (Z.of_nat j) = Some s)
  ∧ (∀ i j, i < ny → j < nx →
       Maze._convert_coords_to_state c (Z.of_nat i) (Z.of_nat j)
       = Some (i * nx + j)
       ∧ i * nx + j < Maze.num_states c
       ∧ Environment._convert_state_to_coords (Maze.attributes c)
           (i * nx + j) = (i, j))
  ∧ (∀ i j, ny ≤ i ∨ nx ≤ j →
       Maze._convert_coords_to_state c (Z.of_nat i) (Z.of_nat j) = None).
Proof.
  split; [|split].
  - intros s Hs. destruct (coords_lt s Hs) as [Hi Hj].
    pose proof (cell_of_coords s Hs) as Hcell.
    destruct (Environment._convert_state_to_coords (Maze.attributes c) s)
      as [i j] eqn:Hij.
    simpl in *. exists i, j. repeat split; try done.
    rewrite convert_in_range by lia. rewrite !Nat2Z.id. by rewrite Hcell.
  - intros i j Hi Hj. split; [|split].
    + rewrite convert_in_range by lia. by rewrite !Nat2Z.id.
    + unfold Maze.num_states. fold nx ny. nia.
    + by apply coords_of_cell.
  - intros i j Hij. apply convert_out_of_range. lia.
Qed.

End MazeFacts.

Lemma get_new_state_proper (c : Maze.config) (s a : nat) :
  2 ≤ Maze.num_x_states c → 2 ≤ Maze.num_y_states c → a < 4 →
  s < Maze.num_states c →
  Maze._get_new_state c s a
  = Some (if at_wall c s a || bool_decide (neighbour c s a ∈ Maze.blocked_states c)
          then (s, 0%Z)
          else (neighbour c s a,
                if bool_decide (neighbour c s a = Maze.goal_state c)
                then Maze.reward_at_goal c else 0%Z))
  ∧ (at_wall c s a = false → neighbour c s a < Maze.num_states c).
Proof.
  intros Hnx Hny Ha Hs.
  destruct (coords_lt c s Hs) as [Hi Hj].
  pose proof (cell_of_coords c s Hs) as Hcell.
  unfold Maze._get_new_state.
  destruct (Environment._convert_state_to_coords (Maze.attributes c) s)
    as [i j] eqn:Hij.
  simpl in Hi, Hj, Hcell. unfold Maze.num_states in *.
  set (nx := Maze.num_x_states c) in *. set (ny := Maze.num_y_states c) in *.
  assert (s mod nx = j) as Hmod.
  { apply (f_equal snd) in Hij. by simpl in Hij. }
  assert (0 < i → Z.to_nat (Z.of_nat i - 1) * nx + Z.to_nat (Z.of_nat j)
                  = s - nx) as E0 by nia.
  assert (Z.to_nat (Z.of_nat i + 1) * nx + Z.to_nat (Z.of_nat j) = s + nx)
    as E1 by nia.
  assert (0 < j → Z.to_nat (Z.of_nat i) * nx + Z.to_nat (Z.of_nat j - 1)
                  = s - 1) as E2 by nia.
  assert (Z.to_nat (Z.of_nat i) * nx + Z.to_nat (Z.of_nat j + 1) = s + 1)
    as E3 by nia.
  destruct a as [|[|[|[|a]]]]; [| | | |lia];
    unfold at_wall, neighbour, Maze.num_states; fold nx ny;
    rewrite ?Hmod; simpl.
  all: repeat match goal with
         | |- context [(?x =? ?y)%Z] => destruct (Z.eqb_spec x y)
         end.
  all: repeat match goal with
         | |- context [?x <? ?y] => destruct (Nat.ltb_spec x y)
         | |- context [?x <=? ?y] => destruct (Nat.leb_spec x y)
         | |- context [?x =? ?y] => destruct (Nat.eqb_spec x y)
         end.
  all: simpl; try (exfalso; nia).
  all: try (split; [reflexivity|intros; first [done|nia]]).
  all: rewrite (convert_in_range c) by (fold nx ny; lia); fold nx.
  all: first [rewrite E0 by lia|rewrite E1|rewrite E2 by lia|rewrite E3].
  all: split; [by repeat case_bool_decide|intros; nia].
Qed.

(** X2.  On a proper grid, from a state of the grid and for one of its
    actions, [_get_new_state] returns: it stays in place with reward 0
    when the state is at the wall the action moves to or the neighbouring
    cell is blocked; otherwise it moves to the neighbouring cell, with
    the goal reward exactly when that cell is the goal.  The state it
    returns is a state of the grid, and is not blocked unless the state it
    started from is. *)
Theorem get_new_state_spec (c : Maze.config) (s a : nat) :
  proper c → a < Maze.num_actions c → s < Maze.num_states c →
  ∃ s1 r,
    Maze._get_new_state c s a = Some (s1, r)
    ∧ (s1, r)
      = (if at_wall c s a
            || bool_decide (neighbour c s a ∈ Maze.blocked_states c)
         then (s, 0%Z)
         else (neighbour c s a,
               if bool_decide (neighbour c s a = Maze.goal_state c)
               then Maze.reward_at_goal c else 0%Z))
    ∧ s1 < Maze.num_states c
    ∧ (s ∉ Maze.blocked_states c → s1 ∉ Maze.blocked_states c).
Proof.
  intros (Hnx & Hny & Hna) Ha Hs.
  destruct (get_new_state_proper c s a) as [Hrun Hlt]; [done|done|lia|done|].
  rewrite Hrun. destruct (at_wall c s a) eqn:Hwall; simpl.
  { by exists s, 0%Z. }
  case_bool_decide as Hblocked; simpl.
  { by exists s, 0%Z. }
  eexists _, _. split; [done|]. split; [done|]. split; [by apply Hlt|done].
Qed.

(** The next state [_get_new_state] returns is a cell of the grid. *)
Lemma elem_of_reshape {A} (rows cols : nat) (l : list A) (row : list A)
  (x : A) :
  row ∈ reshape rows cols l → x ∈ row → x ∈ l.
Proof.
  revert l. induction rows as [|rows IH]; intros l; simpl.
  - by intros ?%elem_of_nil.
  - intros [->|Hin]%elem_of_cons Hx.
    + apply elem_of_take in Hx as (i & Hx & _).
      by eapply list_elem_of_lookup_2.
    + specialize (IH _ Hin Hx). apply list_elem_of_lookup_1 in IH as (i & Hi).
      rewrite lookup_drop in Hi. by eapply list_elem_of_lookup_2.
Qed.

Lemma np_index_elem_of {A} (l : list A) (i : Z) (x : A) :
  np_index l i = Some x → x ∈ l.
Proof.
  unfold np_index. repeat case_match; try done;
    intros; by eapply list_elem_of_lookup_2.
Qed.

Lemma convert_coords_lt (c : Maze.config) (i j : Z) (s1 : nat) :
  Maze._convert_coords_to_state c i j = Some s1 → s1 < Maze.num_states c.
Proof.
  unfold Maze._convert_coords_to_state.
  destruct (np_index _ i) as [row|] eqn:Hrow; [|done].
  intros Hs1%np_index_elem_of. apply np_index_elem_of in Hrow.
  pose proof (elem_of_reshape _ _ _ _ _ Hrow Hs1) as Hin.
  apply elem_of_seq in Hin. unfold Maze.num_states. lia.
Qed.

Lemma get_new_state_lt (c : Maze.config) (s a s1 : nat) (r : Z) :
  s < Maze.num_states c →
  Maze._get_new_state c s a = Some (s1, r) → s1 < Maze.num_states c.
Proof.
  intros Hs. unfold Maze._get_new_state.
  destruct (Environment._convert_state_to_coords _ s) as [i j].
  repeat case_match; try done; intros [= <- <-]; try done;
    by eapply convert_coords_lt.
Qed.

(** ** Loops that may raise *)

Lemma for_each_fails {A St} (l : list A) (body : A → St → option St)
  (x : A) (st : St) :
  x ∈ l → (∀ st', body x st' = None) → for_each l body st = None.
Proof.
  revert st. induction l as [|y l IH]; intros st; [by intros ?%elem_of_nil|].
  intros [->|Hin]%elem_of_cons Hx; simpl.
  - by rewrite Hx.
  - destruct (body y st); [by apply IH|done].
Qed.

Lemma for_each_seq_from {St} (P : nat → St → Prop)
  (body : nat → St → option St) (i n : nat) (st : St) :
  P i st →
  (∀ k st', i ≤ k < i + n → P k st' →
     ∃ st'', body k st' = Some st'' ∧ P (S k) st'') →
  ∃ st', for_each (seq i n) body st = Some st' ∧ P (i + n) st'.
Proof.
  revert i st. induction n as [|n IH]; intros i st Hst Hstep; simpl.
  - exists st. by rewrite Nat.add_0_r.
  - destruct (Hstep i st) as (st1 & -> & Hst1); [lia|done|].
    destruct (IH (S i) st1 Hst1) as (st' & Hrun & Hst').
    { intros k st2 Hk. apply Hstep. lia. }
    exists st'. split; [done|]. by replace (i + S n) with (S i + n) by lia.
Qed.

Lemma for_each_seq {St} (P : nat → St → Prop)
  (body : nat → St → option St) (n : nat) (st : St) :
  P 0 st →
  (∀ k st', k < n → P k st' → ∃ st'', body k st' = Some st'' ∧ P (S k) st'') →
  ∃ st', for_each (seq 0 n) body st = Some st' ∧ P n st'.
Proof.
  intros Hst Hstep. apply (for_each_seq_from P body 0 n st Hst).
  intros k st' Hk. apply Hstep. lia.
Qed.

(** ** One-hot rows *)

Lemma one_hot_lookup (n k j : nat) :
  k < n → j < n →
  one_hot n k !! j = Some (if decide (j = k) then 1%R else 0%R).
Proof.
  intros Hk Hj. unfold one_hot. case_decide as Hjk.
  - subst. apply list_lookup_insert_eq. by rewrite length_replicate.
  - rewrite list_lookup_insert_ne by done. by apply lookup_replicate_2.
Qed.

Lemma one_hot_length (n k : nat) : length (one_hot n k) = n.
Proof. unfold one_hot. by rewrite length_insert, length_replicate. Qed.

Lemma Rsum_replicate_0 (n : nat) : Rsum (replicate n 0%R) = 0%R.
Proof. unfold Rsum. induction n as [|n IH]; simpl; [done|]. rewrite IH. lra. Qed.

Lemma Rsum_one_hot (n k : nat) : k < n → Rsum (one_hot n k) = 1%R.
Proof.
  revert k. induction n as [|n IH]; intros k Hk; [lia|].
  destruct k as [|k].
  - change (one_hot (S n) 0) with (1%R :: replicate n 0%R).
    unfold Rsum. simpl. fold (Rsum (replicate n 0%R)).
    rewrite Rsum_replicate_0. lra.
  - change (one_hot (S n) (S k)) with (0%R :: one_hot n k).
    unfold Rsum. simpl. fold (Rsum (one_hot n k)). rewrite IH by lia. lra.
Qed.

Lemma one_hot_cells (n k : nat) (x : R) :
  x ∈ one_hot n k → x = 0%R ∨ x = 1%R.
Proof.
  intros (j & Hj)%list_elem_of_lookup_1.
  assert (j < n) as Hjn.
  { apply lookup_lt_Some in Hj. by rewrite one_hot_length in Hj. }
  destruct (decide (k < n)) as [Hk|Hk].
  - rewrite one_hot_lookup in Hj by done. injection Hj as <-.
    case_decide; auto.
  - unfold one_hot in Hj.
    rewrite list_insert_ge in Hj by (rewrite length_replicate; lia).
    apply lookup_replicate in Hj as [-> _]. auto.
Qed.

Lemma valid_p_one_hot (n k : nat) : k < n → valid_p n (one_hot n k) = true.
Proof.
  intros Hk. unfold valid_p.
  rewrite bool_decide_eq_true_2 by apply one_hot_length. simpl.
  rewrite andb_true_iff. split.
  - apply forallb_forall. intros x Hx%list_elem_of_In.
    apply one_hot_cells in Hx as [->| ->]; destruct (Rle_dec _ _); try done; lra.
  - unfold Reqb. rewrite Rsum_one_hot by done. by destruct (Req_dec_T 1 1).
Qed.

Lemma one_hot_not_all_zero (n k : nat) :
  k < n → forallb (λ x, Reqb x 0) (one_hot n k) = false.
Proof.
  intros Hk. apply not_true_is_false. rewrite forallb_forall.
  intros Hall. specialize (Hall 1%R). unfold Reqb in Hall.
  destruct (Req_dec_T 1 0) as [Heq|_]; [lra|].
  assert (false = true) as Hcontra; [|done]. apply Hall.
  apply list_elem_of_In. eapply list_elem_of_lookup_2.
  rewrite (one_hot_lookup n k k) by done. by rewrite decide_True.
Qed.

Lemma one_hot_normalised (n k : nat) :
  k < n → map (λ x, (x / Rsum (one_hot n k))%R) (one_hot n k) = one_hot n k.
Proof.
  intros Hk. rewrite Rsum_one_hot by done.
  rewrite <- (map_id (one_hot n k)) at 2. apply map_ext. intros x. simpl.
  lra.
Qed.

(** ** The tables of the environment *)

Section GenerateModel.

Variable c : Maze.config.

Let ns := Maze.num_states c.
Let na := Maze.num_actions c.

Hypothesis moves : ∀ s a, s < ns → a < na →
  is_Some (Maze._get_new_state c s a).

Lemma next_of_lt (s a : nat) : s < ns → a < na → next_of c s a < ns.
Proof using moves.
  intros Hs Ha. unfold next_of.
  destruct (moves s a Hs Ha) as [[s1 r] Hrun]. rewrite Hrun. simpl.
  by eapply get_new_state_lt.
Qed.

Lemma filled_start :
  filled c 0 (replicate ns (zeros 0%R na ns), zeros 0%Z ns na).
Proof.
  intros s a Hs Ha. cbn [fst snd]. rewrite decide_False by lia.
  rewrite decide_False by lia. split.
  - unfold get2. rewrite lookup_replicate_2 by done.
    unfold zeros. rewrite lookup_replicate_2 by done. done.
  - by apply get2_zeros.
Qed.

Lemma fill_step_filled (s a : nat) st :
  s < ns → a < na → filled c (s * na + a) st →
  ∃ st', Maze.fill_step c s a st = Some st' ∧ filled c (s * na + S a) st'.
Proof using moves.
  intros Hs Ha Hfilled. unfold Maze.fill_step.
  pose proof (next_of_lt s a Hs Ha) as Hlt.
  assert (reward_of c s a = from_option snd 0%Z (Maze._get_new_state c s a))
    as Hrew by done.
  unfold next_of in Hlt.
  destruct (moves s a Hs Ha) as [[s1 r] Hrun]. rewrite Hrun in *.
  simpl in Hlt, Hrew.
  destruct (Hfilled s a Hs Ha) as [HT HR].
  rewrite decide_False in HT by (fold na; lia).
  rewrite decide_False in HR by (fold na; lia).
  rewrite HT. fold ns. rewrite lookup_replicate_2 by done.
  destruct (set2_is_Some (fst st) s a (<[s1 := (0 + 1)%R]> (replicate ns 0%R)))
    as [T' HT']; [by rewrite HT|].
  destruct (set2_is_Some (snd st) s a r) as [R' HR']; [by rewrite HR|].
  rewrite HT', HR'. exists (T', R'). split; [done|].
  intros s' a' Hs' Ha'. cbn [fst snd]. fold na ns.
  destruct (decide ((s', a') = (s, a))) as [[= -> ->]|Hne].
  - rewrite decide_True by lia. rewrite decide_True by lia.
    rewrite (get2_set2_eq _ _ _ _ _ HT'), (get2_set2_eq _ _ _ _ _ HR').
    unfold next_of, one_hot. rewrite Hrun, Hrew. simpl.
    by rewrite Rplus_0_l.
  - rewrite (get2_set2_ne _ _ _ _ _ _ _ HT' Hne).
    rewrite (get2_set2_ne _ _ _ _ _ _ _ HR' Hne).
    destruct (Hfilled s' a' Hs' Ha') as [-> ->]. fold na ns.
    assert (s' * na + a' ≠ s * na + a) as Hslot.
    { intros Heq. apply Hne. assert (s' = s) by nia. subst. f_equal. lia. }
    split; repeat case_decide; try done; lia.
Qed.

Lemma fill_loops :
  ∃ st, for_each (seq 0 ns)
          (λ s, for_each (seq 0 na) (Maze.fill_step c s))
          (replicate ns (zeros 0%R na ns), zeros 0%Z ns na) = Some st
        ∧ filled c (ns * na) st.
Proof using moves.
  apply (for_each_seq (λ s, filled c (s * na))); [apply filled_start|].
  intros s st Hs Hfilled.
  destruct (for_each_seq (λ a, filled c (s * na + a))
              (Maze.fill_step c s) na st) as (st' & Hrun & Hst').
  - by rewrite Nat.add_0_r.
  - intros a st' Ha. by apply fill_step_filled.
  - exists st'. split; [done|].
    by replace (S s * na) with (s * na + na) by lia.
Qed.

Lemma normalise_step_deterministic (s a : nat) T :
  s < ns → a < na → deterministic c T →
  ∃ T', Maze.normalise_step s a T = Some T' ∧ deterministic c T'.
Proof using moves.
  intros Hs Ha Hdet. unfold Maze.normalise_step.
  pose proof (next_of_lt s a Hs Ha) as Hlt.
  rewrite (Hdet s a Hs Ha). fold ns.
  rewrite one_hot_not_all_zero, one_hot_normalised by done.
  destruct (set2_is_Some T s a (one_hot ns (next_of c s a))) as [T' HT'];
    [by rewrite (Hdet s a Hs Ha)|].
  exists T'. split; [done|]. intros s' a' Hs' Ha'.
  destruct (decide ((s', a') = (s, a))) as [[= -> ->]|Hne].
  - by rewrite (get2_set2_eq _ _ _ _ _ HT').
  - rewrite (get2_set2_ne _ _ _ _ _ _ _ HT' Hne). by apply Hdet.
Qed.

Lemma normalise_loops (T : list (list (list R))) :
  deterministic c T →
  ∃ T', for_each (seq 0 ns)
          (λ s, for_each (seq 0 na) (Maze.normalise_step s)) T = Some T'
        ∧ deterministic c T'.
Proof using moves.
  intros Hdet.
  apply (for_each_seq (λ _, deterministic c)); [done|].
  intros s T1 Hs Hdet1.
  apply (for_each_seq (λ _, deterministic c)); [done|].
  intros a T2 Ha Hdet2. by apply normalise_step_deterministic.
Qed.

Lemma generate_env_model_total :
  ∃ T R, Maze._generate_env_model c = Some (T, R)
         ∧ deterministic c T
         ∧ ∀ s a, s < ns → a < na → get2 R s a = Some (reward_of c s a).
Proof using moves.
  unfold Maze._generate_env_model. fold ns na.
  destruct fill_loops as ([T1 R1] & -> & Hfilled).
  assert (deterministic c T1) as Hdet1.
  { intros s a Hs Ha. destruct (Hfilled s a Hs Ha) as [HT _].
    cbn [fst] in HT. rewrite HT. rewrite decide_True; [done|]. fold na ns. nia. }
  destruct (normalise_loops T1 Hdet1) as (T2 & -> & Hdet2).
  exists T2, R1. split; [done|]. split; [done|].
  intros s a Hs Ha. destruct (Hfilled s a Hs Ha) as [_ HR].
  cbn [snd] in HR. rewrite HR. rewrite decide_True; [done|]. fold na ns. nia.
Qed.

End GenerateModel.

Lemma init_fails_at (c : Maze.config) (s a : nat) :
  s < Maze.num_states c → a < Maze.num_actions c →
  Maze._get_new_state c s a = None → Maze.__init__ c = None.
Proof.
  intros Hs Ha Hfail. unfold Maze.__init__, Maze._generate_env_model.
  rewrite (for_each_fails (seq 0 (Maze.num_states c)) _ s); [done| |].
  - apply elem_of_seq. lia.
  - intros st. apply (for_each_fails _ _ a).
    + apply elem_of_seq. lia.
    + intros st'. unfold Maze.fill_step. by rewrite Hfail.
Qed.

Lemma coords_first_row (c : Maze.config) (j : nat) :
  j < Maze.num_x_states c →
  Environment._convert_state_to_coords (Maze.attributes c) j = (0, j).
Proof.
  intros Hj. unfold Environment._convert_state_to_coords. simpl.
  by rewrite Nat.div_small, Nat.mod_small by done.
Qed.

Lemma single_row_down (c : Maze.config) :
  Maze.num_y_states c = 1 → 0 < Maze.num_x_states c →
  Maze._get_new_state c 0 1 = None.
Proof.
  intros Hny Hnx. unfold Maze._get_new_state.
  rewrite coords_first_row by done. simpl.
  rewrite convert_out_of_range; [done|]. lia.
Qed.

Lemma single_column_right (c : Maze.config) :
  Maze.num_x_states c = 1 → 0 < Maze.num_y_states c →
  Maze._get_new_state c 0 3 = None.
Proof.
  intros Hnx Hny. unfold Maze._get_new_state.
  rewrite coords_first_row by lia. simpl.
  rewrite convert_out_of_range; [done|]. lia.
Qed.

Lemma fifth_action_right (c : Maze.config) (a : nat) :
  0 < Maze.num_states c → 4 ≤ a →
  Maze._get_new_state c (Maze.num_x_states c - 1) a = None.
Proof.
  intros Hns Ha. unfold Maze.num_states in Hns.
  unfold Maze._get_new_state. rewrite coords_first_row by nia.
  destruct a as [|[|[|[|a]]]]; [lia..|]. simpl.
  assert (Maze._convert_coords_to_state c 0
            (Z.of_nat (Maze.num_x_states c - 1) + 1) = None) as Hout.
  { apply convert_out_of_range. lia. }
  change (Z.of_nat 0) with 0%Z. rewrite Hout. by repeat case_match.
Qed.

(** X3.  [Environment.__init__] raises as soon as one call of
    [_get_new_state] on a state and an action of the grid raises.  It
    does on a grid of a single row with two or more actions (moving down
    from the top row is only stopped at a bottom row that is not also the
    top row), on a grid of a single column with four or more actions, and
    on any non-empty grid with five or more actions. *)
Theorem init_raises (c : Maze.config) :
  (∀ s a, s < Maze.num_states c → a < Maze.num_actions c →
     Maze._get_new_state c s a = None → Maze.__init__ c = None)
  ∧ (Maze.num_y_states c = 1 → 0 < Maze.num_x_states c →
     2 ≤ Maze.num_actions c → Maze.__init__ c = None)
  ∧ (Maze.num_x_states c = 1 → 0 < Maze.num_y_states c →
     4 ≤ Maze.num_actions c → Maze.__init__ c = None)
  ∧ (0 < Maze.num_states c → 5 ≤ Maze.num_actions c →
     Maze.__init__ c = None).
Proof.
  split; [|split; [|split]].
  - intros s a. apply init_fails_at.
  - intros Hny Hnx Hna. apply (init_fails_at c 0 1); [|lia|].
    + unfold Maze.num_states. lia.
    + by apply single_row_down.
  - intros Hnx Hny Hna. apply (init_fails_at c 0 3); [|lia|].
    + unfold Maze.num_states. lia.
    + by apply single_column_right.
  - intros Hns Hna.
    apply (init_fails_at c (Maze.num_x_states c - 1) 4); [|lia|].
    + unfold Maze.num_states in *.
      destruct (Maze.num_y_states c) as [|ny]; [lia|].
      destruct (Maze.num_x_states c) as [|nx]; [lia|]. nia.
    + by apply fifth_action_right.
Qed.

Lemma proper_moves (c : Maze.config) (s a : nat) :
  proper c → s < Maze.num_states c → a < Maze.num_actions c →
  is_Some (Maze._get_new_state c s a).
Proof.
  intros (Hnx & Hny & Hna) Hs Ha.
  destruct (get_new_state_proper c s a) as [-> _]; [done|done|lia|done|].
  eauto.
Qed.

Lemma init_total (c : Maze.config) :
  proper c →
  ∃ T R,
    Maze.__init__ c
    = Some (Environment.Build (Maze.num_x_states c) (Maze.num_y_states c)
              (Maze.num_actions c) (Maze.start_state c) (Maze.goal_state c)
              T R)
    ∧ deterministic c T
    ∧ ∀ s a, s < Maze.num_states c → a < Maze.num_actions c →
        get2 R s a = Some (reward_of c s a).
Proof.
  intros Hproper.
  destruct (generate_env_model_total c) as (T & R' & Hgen & Hdet & Hrew).
  { intros s a. by apply proper_moves. }
  exists T, R'. unfold Maze.__init__. by rewrite Hgen.
Qed.

Lemma built_env_ok (c : Maze.config) T R' :
  0 < Maze.num_actions c → Maze.start_state c < Maze.num_states c →
  (∀ s a, s < Maze.num_states c → a < Maze.num_actions c →
     is_Some (Maze._get_new_state c s a)) →
  deterministic c T →
  (∀ s a, s < Maze.num_states c → a < Maze.num_actions c →
     get2 R' s a = Some (reward_of c s a)) →
  env_ok (Environment.Build (Maze.num_x_states c) (Maze.num_y_states c)
            (Maze.num_actions c) (Maze.start_state c) (Maze.goal_state c)
            T R').
Proof.
  intros Hna Hstart Hmoves Hdet Hrew. split; [done|]. split; [done|].
  intros s a Hs Ha. change (s < Maze.num_states c) in Hs. simpl in Ha.
  simpl. rewrite (Hrew s a Hs Ha), (Hdet s a Hs Ha). split; [eauto|].
  eexists. split; [done|]. apply valid_p_one_hot.
  by apply next_of_lt.
Qed.

(** X4.  On a proper grid [Environment.__init__] returns an environment
    with the attributes it was given; the row [T[s,a,:]] of every pair is
    one-hot at the next state [_get_new_state] returns for the pair, and
    [R[s,a]] is the reward it returns; with at least one action and a
    start state on the grid, the environment is one the agent's
    [simulate] accepts. *)
Theorem init_spec (c : Maze.config) :
  proper c →
  ∃ env,
    Maze.__init__ c = Some env
    ∧ Environment.num_x_states env = Maze.num_x_states c
    ∧ Environment.num_y_states env = Maze.num_y_states c
    ∧ Environment.num_actions env = Maze.num_actions c
    ∧ Environment.start_state env = Maze.start_state c
    ∧ Environment.goal_state env = Maze.goal_state c
    ∧ (∀ s a, s < Maze.num_states c → a < Maze.num_actions c →
         ∃ s1 r,
           Maze._get_new_state c s a = Some (s1, r)
           ∧ s1 < Maze.num_states c
           ∧ get2 (Environment.T env) s a
             = Some (one_hot (Maze.num_states c) s1)
           ∧ get2 (Environment.R env) s a = Some r)
    ∧ (0 < Maze.num_actions c →
       Maze.start_state c < Maze.num_states c → env_ok env).
Proof.
  intros Hproper.
  destruct (init_total c Hproper) as (T & R' & Hinit & Hdet & Hrew).
  eexists. split; [exact Hinit|]. simpl. do 5 (split; [done|]). split.
  - intros s a Hs Ha.
    destruct (proper_moves c s a Hproper Hs Ha) as [[s1 r] Hrun].
    exists s1, r. split; [done|].
    split; [by eapply get_new_state_lt|].
    rewrite (Hdet s a Hs Ha), (Hrew s a Hs Ha).
    unfold next_of, reward_of. by rewrite Hrun.
  - intros Hna Hstart. apply built_env_ok; try done.
    intros s a. by apply proper_moves.
Qed.

(** ** Runs of the agent *)

Section Runs.

Context {C : Type} `{ActionCount C} `{!ActionCountLaws C}.
Variables alpha gamma epsilon : R.
Variable env : Environment.t.

Lemma trial_allowed npu (ag ag' : agent C) :
  env_ok env → wf env ag →
  trial alpha gamma epsilon env npu ag = Some (tt, ag') →
  wf env ag'
  ∧ ∃ tr, history ag' = history ag ++ [tr] ∧ allowed env tr.
Proof using Type*.
  intros Henv Hwf Hstep.
  destruct (trial_total alpha gamma epsilon env npu ag Henv Hwf)
    as (ag1 & Hstep1 & Hwf1).
  assert (ag1 = ag') as -> by congruence. split; [done|].
  destruct (trial_lands _ _ _ _ _ _ _ Hstep)
    as (a & r & s1 & p & x & Hhist & Hr & Hp & Hx & Hpos).
  destruct (trial_inv _ _ _ _ _ _ _ Hstep)
    as (a' & s1' & r' & cnt' & scores & cands & Hscores & Hcands & Hin & Hs1
        & _ & _ & _ & _ & Hhist' & _).
  rewrite Hhist' in Hhist. apply app_inv_head in Hhist.
  injection Hhist as -> -> ->.
  exists (Transition (self_s ag) a r s1). split; [done|].
  destruct Hwf as [(HQ & _) Hs].
  split; [done|]. split; [by eapply candidate_lt|]. split; [done|].
  split; [done|]. by exists p, x.
Qed.

Lemma trials_allowed npu (n : nat) (ag ag' : agent C) :
  env_ok env → wf env ag →
  for_range n (trial alpha gamma epsilon env npu) ag = Some (tt, ag') →
  ∃ new, history ag' = history ag ++ new
         ∧ length new = n
         ∧ ∀ tr, tr ∈ new → allowed env tr.
Proof using Type*.
  intros Henv. revert ag. induction n as [|n IH]; intros ag Hwf; simpl.
  - unfold ret. intros [= <-]. exists []. rewrite app_nil_r.
    split; [done|]. split; [done|]. by intros tr ?%elem_of_nil.
  - intros ([] & ag1 & Hstep & Hrest)%bind_inv.
    destruct (trial_allowed npu ag ag1 Henv Hwf Hstep)
      as (Hwf1 & tr & Hhist & Hallowed).
    destruct (IH ag1 Hwf1 Hrest) as (new & Hnew & Hlen & Hall).
    exists (tr :: new). split; [|split].
    + by rewrite Hnew, Hhist, <- app_assoc.
    + simpl. by rewrite Hlen.
    + intros tr' [->|Hin]%elem_of_cons; [done|by apply Hall].
Qed.

(** X5.  In an environment as the agent expects it, every transition a
    run of [simulate] appends to the history is one the environment
    allows: its state and action are a state and an action of the
    environment, its reward is [R[s,a]] and its next state has positive
    probability in [T[s,a,:]]. *)
Theorem history_allowed (num_trials : nat) (reset_agent : bool)
  (npu : option nat) (ag ag' : agent C) :
  env_ok env → reset_agent = true ∨ wf env ag →
  simulate alpha gamma epsilon env num_trials reset_agent npu ag
  = Some (tt, ag') →
  ∃ new,
    history ag' = (if reset_agent then [] else history ag) ++ new
    ∧ length new = num_trials
    ∧ ∀ tr, tr ∈ new → allowed env tr.
Proof using Type*.
  intros Henv Hwf. unfold simulate.
  intros ([] & ag0 & Hreset & Hrun)%bind_inv.
  assert (wf env ag0
          ∧ history ag0 = if reset_agent then [] else history ag)
    as [Hwf0 Hhist0].
  { destruct reset_agent.
    - rewrite reset_run in Hreset. injection Hreset as <-. split; [|done].
      split; [exact (reset_tables_ok env ag)|].
      destruct Henv as (_ & Hstart & _). exact Hstart.
    - unfold ret in Hreset. injection Hreset as <-.
      destruct Hwf as [?|Hwf]; [done|]. by split. }
  rewrite <- Hhist0. by apply (trials_allowed npu).
Qed.

End Runs.

(** X6.  In the environment built for a proper grid with at least one
    action and a start state on the grid, [simulate] with a reset
    returns, and every transition [(s, a, r, s1)] of the history it
    leaves is the move of the grid: [_get_new_state(s, a)] returns
    [(s1, r)]. *)
Theorem maze_run {C : Type} `{ActionCount C} `{!ActionCountLaws C}
  (alpha gamma epsilon : R) (c : Maze.config) (env : Environment.t)
  (num_trials : nat) (npu : option nat) (ag : agent C) :
  proper c → 0 < Maze.num_actions c →
  Maze.start_state c < Maze.num_states c →
  Maze.__init__ c = Some env →
  ∃ ag',
    simulate alpha gamma epsilon env num_trials true npu ag = Some (tt, ag')
    ∧ length (history ag') = num_trials
    ∧ ∀ tr, tr ∈ history ag' →
        Maze._get_new_state c (t_s tr) (t_a tr) = Some (t_s1 tr, t_r tr).
Proof.
  intros Hproper Hna Hstart Hinit.
  destruct (init_total c Hproper) as (T & R' & Hinit' & Hdet & Hrew).
  rewrite Hinit in Hinit'. injection Hinit' as ->.
  pose proof (built_env_ok c T R' Hna Hstart
                (λ s a, proper_moves c s a Hproper) Hdet Hrew) as Henv.
  set (env := Environment.Build _ _ _ _ _ T R') in *.
  assert (∃ ag' new,
            simulate alpha gamma epsilon env num_trials true npu ag
            = Some (tt, ag')
            ∧ history ag' = new ∧ length new = num_trials
            ∧ ∀ tr, tr ∈ new → allowed env tr)
    as (ag' & new & Hrun & Hhist & Hlen & Hall).
  { unfold simulate. rewrite (bind_run _ _ _ _ _ (reset_run env ag)).
    match goal with
    | |- context [for_range _ _ ?ag0] =>
        assert (wf env ag0) as Hwf0
    end.
    { split; [exact (reset_tables_ok env ag)|].
      destruct Henv as (_ & Hstart' & _). exact Hstart'. }
    destruct (trials_total alpha gamma epsilon env npu num_trials _ Henv Hwf0)
      as (ag' & Hrun & _).
    destruct (trials_allowed alpha gamma epsilon env npu num_trials _ ag'
                Henv Hwf0 Hrun) as (new & Hhist & Hlen & Hall).
    by exists ag', new. }
  exists ag'. split; [done|].
  rewrite Hhist. split; [done|].
  intros tr Hin. destruct (Hall tr Hin) as (Hs & Ha & Hs1 & Hr & p & x & Hp & Hx & Hpos).
  change (t_s tr < Maze.num_states c) in Hs.
  change (t_s1 tr < Maze.num_states c) in Hs1.
  change (t_a tr < Maze.num_actions c) in Ha.
  change (get2 R' (t_s tr) (t_a tr) = Some (t_r tr)) in Hr.
  change (get2 T (t_s tr) (t_a tr) = Some p) in Hp.
  rewrite (Hrew _ _ Hs Ha) in Hr. rewrite (Hdet _ _ Hs Ha) in Hp.
  injection Hr as Hr. injection Hp as <-.
  assert (next_of c (t_s tr) (t_a tr) < Maze.num_states c) as Hnext.
  { apply next_of_lt; [|done..]. intros s a. by apply proper_moves. }
  rewrite one_hot_lookup in Hx by done. injection Hx as <-.
  case_decide as Heq; [|lra].
  destruct (proper_moves c (t_s tr) (t_a tr) Hproper Hs Ha) as [[s1 r] Hmove].
  unfold next_of, reward_of in *. rewrite Hmove in *. simpl in *. congruence.
Qed.

(** ** What a run keeps *)

Lemma set2_id {A} (t : list (list A)) (i j : nat) (x : A) :
  get2 t i j = Some x → set2 t i j x = Some t.
Proof.
  unfold get2, set2. destruct (t !! i) as [row|] eqn:Hrow; [|done].
  intros Hx. rewrite Hx. by rewrite (list_insert_id row), (list_insert_id t).
Qed.

Lemma set_Q_id {C} (ag : agent C) : set_Q (Q ag) ag = ag.
Proof. by destruct ag. Qed.




Section Invariants.

Variables alpha gamma epsilon : R.
Variable env : Environment.t.



Lemma update_qvals_alpha0 {C} `{ActionCount C} (ag ag' : agent C) s a r s1
  bonus :
  _update_qvals 0 gamma epsilon s a r s1 bonus ag = Some (tt, ag') →
  ag' = ag.
Proof.
  intros (q & c & row1 & m & Q' & Hq & _ & _ & _ & HQ' & ->)%update_qvals_inv.
  assert (td_target 0 gamma epsilon q r bonus c m = q) as Htd
    by (unfold td_target; ring).
  rewrite Htd, (set2_id _ _ _ _ Hq) in HQ'. injection HQ' as <-.
  apply set_Q_id.
Qed.

Lemma plan_alpha0 {C} `{ActionCount C} (n : nat) (ag ag' : agent C) :
  _plan 0 gamma epsilon n ag = Some (tt, ag') → Q ag' = Q ag.
Proof.
  unfold _plan. revert ag. induction n as [|n IH]; intros ag; simpl.
  - unfold ret. by intros [= <-].
  - intros ([] & ag1 & Hiter & Hrest)%bind_inv.
    apply plan_iter_inv in Hiter as (tr & _ & ->%update_qvals_alpha0).
    by rewrite (IH _ Hrest).
Qed.

Lemma trial_alpha0 {C} `{ActionCount C} npu (ag ag' : agent C) :
  trial 0 gamma epsilon env npu ag = Some (tt, ag') → Q ag' = Q ag.
Proof.
  unfold trial. intros Hrun.
  apply bind_inv in Hrun as (ag0 & ? & [= <- <-] & Hrun).
  apply bind_inv in Hrun as (a & ag1 & Hpol & Hrun).
  apply policy_inv in Hpol as (scores & cands & _ & _ & _ & ->).
  apply bind_inv in Hrun as (p & ? & [Hp ->]%lift_inv & Hrun).
  apply bind_inv in Hrun as (s1 & ag2 & [_ ->]%choice_p_inv & Hrun).
  apply bind_inv in Hrun as (r & ? & [Hr ->]%lift_inv & Hrun).
  apply bind_inv in Hrun as ([] & ag3 & ->%update_qvals_alpha0 & Hrun).
  apply bind_inv in Hrun as ([] & ag4 & Hrec & Hrun).
  apply bind_inv in Hrun as ([] & ag5 & Hcnt & Hrun).
  apply bind_inv in Hrun as ([] & ag6 & [= <-] & Hrun).
  apply bind_inv in Hrun as ([] & ag7 & Hplan & [= <-]).
  apply update_experience_buffer_inv in Hrec as [_ ->].
  apply update_action_count_inv in Hcnt as (cnt' & _ & ->).
  simpl. destruct npu as [n|].
  - by rewrite (plan_alpha0 _ _ _ Hplan).
  - unfold ret in Hplan. by injection Hplan as <-.
Qed.

(** X9.  With learning rate 0, no method changes a Q-value: the
    learning step returns the state it was given, planning returns the
    Q-table it was given, and [simulate] returns the Q-table it started
    from, all zeros after a reset. *)
Theorem zero_learning_rate {C} `{ActionCount C} (ag ag' : agent C) :
  (∀ s a r s1 bonus,
     _update_qvals 0 gamma epsilon s a r s1 bonus ag = Some (tt, ag') →
     ag' = ag)
  ∧ (∀ n, _plan 0 gamma epsilon n ag = Some (tt, ag') → Q ag' = Q ag)
  ∧ (∀ num_trials reset_agent npu,
       simulate 0 gamma epsilon env num_trials reset_agent npu ag
       = Some (tt, ag') →
       Q ag' = if reset_agent
               then zeros 0%R (Environment.num_states env)
                          (Environment.num_actions env)
               else Q ag).
Proof.
  split; [|split].
  - intros s a r s1 bonus. apply update_qvals_alpha0.
  - intros n. apply plan_alpha0.
  - intros num_trials reset_agent npu. unfold simulate.
    intros ([] & ag0 & Hreset & Hrun)%bind_inv.
    assert (Q ag' = Q ag0) as ->.
    { clear Hreset. revert ag0 Hrun.
      induction num_trials as [|k IH]; intros ag0; simpl.
      - unfold ret. by intros [= <-].
      - intros ([] & ag1 & Hstep & Hrest)%bind_inv.
        by rewrite (IH _ Hrest), (trial_alpha0 _ _ _ Hstep). }
    destruct reset_agent.
    + rewrite reset_run in Hreset. by injection Hreset as <-.
    + unfold ret in Hreset. by injection Hreset as <-.
Qed.




End Invariants.

Lemma NoDup_all_eq {A} (l : list A) (x : A) :
  NoDup l → x ∈ l → (∀ y, y ∈ l → y = x) → l = [x].
Proof.
  intros Hnodup Hin Hall. destruct l as [|y l]; [by apply elem_of_nil in Hin|].
  assert (y = x) as -> by (apply Hall, elem_of_cons; auto).
  f_equal. destruct l as [|z l]; [done|].
  assert (z = x) as ->.
  { apply Hall. apply elem_of_cons. right. apply elem_of_cons. by left. }
  inversion Hnodup as [|? ? Hnotin _]; subst. exfalso. apply Hnotin.
  apply elem_of_cons. by left.
Qed.

(** X11.  When one action has a strictly larger score than every other
    action of the state, the policy returns it whatever the generator
    draws. *)
Theorem policy_unique_maximizer {C} `{ActionCount C} (epsilon : R)
  (ag : agent C) (s a : nat) (x : R) :
  score epsilon ag s a = Some x →
  (∀ a' y, a' ≠ a → score epsilon ag s a' = Some y → (y < x)%R) →
  _policy epsilon s ag
  = Some (a, set_np_random_pos (S (np_random_pos ag)) ag).
Proof.
  intros Hx Hothers.
  destruct (Q_exp_is_Some epsilon ag s a) as [scores Hscores];
    [by rewrite Hx|].
  destruct (maximizers_nonempty scores) as (cands & Hcands & Hlen).
  { rewrite <- (Q_exp_lookup epsilon ag s scores) in Hx by done.
    apply lookup_lt_Some in Hx. lia. }
  destruct (maximizers_spec scores cands Hcands) as [Hnodup Hin].
  assert (∀ a' y, score epsilon ag s a' = Some y → (y <= x)%R) as Hle.
  { intros a' y Hy. destruct (decide (a' = a)) as [->|Hne].
    - assert (y = x) as -> by congruence. lra.
    - apply Rlt_le. by eapply Hothers. }
  assert (cands = [a]) as ->.
  { apply NoDup_all_eq; [done| |].
    - apply Hin. exists x. by apply (is_max_scores epsilon ag s scores).
    - intros a' (y & Hy)%Hin.
      apply (is_max_scores epsilon ag s scores) in Hy as [Hy Hmax]; [|done].
      destruct (decide (a' = a)) as [->|Hne]; [done|].
      pose proof (Hothers a' y Hne Hy). pose proof (Hmax a x Hx). lra. }
  rewrite (policy_run epsilon ag s scores [a]) by done.
  destruct (choice_run ag [a]) as (a' & Ha' & ->); [simpl; lia|].
  change (length [a]) with 1 in Ha'. rewrite Nat.mod_1_r in Ha'.
  by injection Ha' as <-.
Qed.

(** ** The two-step environment *)

Example second_stage_reward :
  TwoStepEnv.step (1 / 2) [0; 0; 0; 0]%R 0 second_stage
  = Some (1%Z, TwoStepEnv._reset
                 (TwoStepEnv._update_rewardp [0; 0; 0; 0]%R second_stage)).
Proof.
  unfold TwoStepEnv.step. simpl.
  destruct (Rle_dec (1 / 2) (3 / 4)) as [_|Hn]; [done|]. exfalso. lra.
Qed.

Example second_stage_bad_action : TwoStepEnv.step 0 [] 5 second_stage = None.
Proof. reflexivity. Qed.

Lemma reflect_bounds (q x : R) :
  (1 / 4 <= q <= 3 / 4)%R → (- (1 / 2) <= x <= 1 / 2)%R →
  (1 / 4 <= 2 * clip (q + x) (1 / 4) (3 / 4) - q - x <= 3 / 4)%R.
Proof.
  intros Hq Hx. unfold clip, Rmin, Rmax.
  repeat destruct (Rle_dec _ _); lra.
Qed.

Lemma reflect_value (q x : R) :
  (2 * clip (q + x) (1 / 4) (3 / 4) - q - x)%R
  = if Rlt_dec (q + x) (1 / 4) then (1 / 2 - (q + x))%R
    else if Rlt_dec (3 / 4) (q + x) then (3 / 2 - (q + x))%R
    else (q + x)%R.
Proof.
  unfold clip, Rmin, Rmax.
  repeat destruct (Rle_dec _ _); repeat destruct (Rlt_dec _ _); lra.
Qed.

(** X13.  [_update_rewardp] reflects the random walk at the bounds 0.25
    and 0.75: a probability moved inside the bounds takes the moved
    value, one moved below 0.25 or above 0.75 is mirrored at that bound.
    Probabilities within the bounds stay within them as long as no step
    of the walk is larger than 0.5; the state is not touched. *)
Theorem update_rewardp_reflects (walk : list R) (e : TwoStepEnv.t) :
  length walk = length (TwoStepEnv.rewardp e) →
  let e' := TwoStepEnv._update_rewardp walk e in
  TwoStepEnv.s e' = TwoStepEnv.s e
  ∧ length (TwoStepEnv.rewardp e') = length (TwoStepEnv.rewardp e)
  ∧ (∀ i q x, TwoStepEnv.rewardp e !! i = Some q → walk !! i = Some x →
       TwoStepEnv.rewardp e' !! i
       = Some (if Rlt_dec (q + x) (1 / 4) then 1 / 2 - (q + x)
               else if Rlt_dec (3 / 4) (q + x) then 3 / 2 - (q + x)
               else q + x)%R)
  ∧ ((∀ q, q ∈ TwoStepEnv.rewardp e → (1 / 4 <= q <= 3 / 4)%R) →
     (∀ x, x ∈ walk → (- (1 / 2) <= x <= 1 / 2)%R) →
     ∀ q, q ∈ TwoStepEnv.rewardp e' → (1 / 4 <= q <= 3 / 4)%R).
Proof.
  intros Hlen e'. unfold e', TwoStepEnv._update_rewardp. simpl.
  split; [done|]. split; [rewrite length_zip_with; lia|]. split.
  - intros i q x Hq Hx. rewrite lookup_zip_with, Hq, Hx. simpl.
    by rewrite reflect_value.
  - intros Hqs Hxs q' (i & Hi)%list_elem_of_lookup_1.
    rewrite lookup_zip_with in Hi.
    destruct (TwoStepEnv.rewardp e !! i) as [q|] eqn:Hq; [|done].
    destruct (walk !! i) as [x|] eqn:Hx; [|done].
    simpl in Hi. injection Hi as <-. apply reflect_bounds.
    + apply Hqs. by eapply list_elem_of_lookup_2.
    + apply Hxs. by eapply list_elem_of_lookup_2.
Qed.

(** X14.  One trial of the two-step task is two calls of [step].  From
    state 0 an action 0 or 1 pays nothing and leads to state [a + 1]
    when the draw is at most 0.7 and to state [2 - a] otherwise, leaving
    the reward probabilities alone.  From state 1 or 2 an action 0 or 1
    pays 1 when the draw is at most the reward probability of cell
    [2 * (s - 1) + a] and 0 otherwise, moves the reward probabilities by
    the walk and leads back to state 0. *)
Theorem step_two_stages (u : R) (walk : list R) (a : Z) (e : TwoStepEnv.t) :
  (a = 0 ∨ a = 1)%Z →
  (TwoStepEnv.s e = 0%Z →
   ∃ e', TwoStepEnv.step u walk a e = Some (0%Z, e')
         ∧ TwoStepEnv.rewardp e' = TwoStepEnv.rewardp e
         ∧ TwoStepEnv.s e' = (if Rle_dec u (7 / 10) then a + 1 else 2 - a)%Z
         ∧ (TwoStepEnv.s e' = 1 ∨ TwoStepEnv.s e' = 2)%Z)
  ∧ ((TwoStepEnv.s e = 1 ∨ TwoStepEnv.s e = 2)%Z →
     length (TwoStepEnv.rewardp e) = 4 →
     ∃ q r e',
       TwoStepEnv.rewardp e !! Z.to_nat (2 * (TwoStepEnv.s e - 1) + a)
       = Some q
       ∧ TwoStepEnv.step u walk a e = Some (r, e')
       ∧ r = (if Rle_dec u q then 1 else 0)%Z
       ∧ TwoStepEnv.s e' = 0%Z
       ∧ TwoStepEnv.rewardp e'
         = TwoStepEnv.rewardp (TwoStepEnv._update_rewardp walk e)).
Proof.
  intros Ha. split.
  - intros Hs. unfold TwoStepEnv.step. rewrite Hs. simpl.
    destruct (Rle_dec u (7 / 10)); eexists; (split; [done|]); simpl;
      (split; [done|]); (split; [done|]); lia.
  - intros Hs Hlen. unfold TwoStepEnv.step.
    destruct (Z.eqb_spec (TwoStepEnv.s e) 0) as [?|_]; [lia|].
    unfold TwoStepEnv.num_actions.
    rewrite np_index_in_range by lia.
    replace (TwoStepEnv.s e * 2 + a - 2)%Z
      with (2 * (TwoStepEnv.s e - 1) + a)%Z by lia.
    destruct (lookup_lt_is_Some_2 (TwoStepEnv.rewardp e)
                (Z.to_nat (2 * (TwoStepEnv.s e - 1) + a))) as [q Hq]; [lia|].
    rewrite Hq. eexists q, _, _. split; [done|]. split; [reflexivity|].
    by simpl.
Qed.

(** ** The two-step agent *)

Lemma norm_index_nat (n i : nat) :
  norm_index n (Z.of_nat i) = if decide (i < n) then Some i else None.
Proof.
  unfold norm_index. rewrite (proj2 (Z.leb_le 0 (Z.of_nat i))) by lia.
  destruct (Z.ltb_spec (Z.of_nat i) (Z.of_nat n)); case_decide; try lia;
    [|done].
  by rewrite Nat2Z.id.
Qed.

Lemma zget2_nat {A} (t : list (list A)) (i j : nat) :
  zget2 t (Z.of_nat i) (Z.of_nat j) = get2 t i j.
Proof.
  unfold zget2, get2. rewrite norm_index_nat. case_decide as Hi; simpl.
  - destruct (t !! i) as [row|]; [|done]. simpl.
    rewrite norm_index_nat. case_decide as Hj; simpl; [done|].
    symmetry. apply lookup_ge_None. lia.
  - rewrite (proj2 (lookup_ge_None t i)); [done|lia].
Qed.

Lemma zrow_nat {A} (t : list (list A)) (i : nat) :
  zrow t (Z.of_nat i) = t !! i.
Proof.
  unfold zrow. rewrite norm_index_nat. case_decide; simpl; [done|].
  symmetry. apply lookup_ge_None. lia.
Qed.

Lemma zset2_nat {A} (t : list (list A)) (i j : nat) (x : A) :
  zset2 t (Z.of_nat i) (Z.of_nat j) x = set2 t i j x.
Proof.
  unfold zset2, set2. rewrite norm_index_nat. case_decide as Hi; simpl.
  - destruct (t !! i) as [row|]; [|done]. simpl.
    rewrite norm_index_nat. case_decide as Hj; simpl.
    + destruct (lookup_lt_is_Some_2 row j Hj) as [y ->]. done.
    + rewrite (proj2 (lookup_ge_None row j)); [done|lia].
  - rewrite (proj2 (lookup_ge_None t i)); [done|lia].
Qed.


Example update_QTD_empty_history :
  TwoStepAgent._update_QTD 1 1 1 1 0 1 None
    (TwoStepAgent.Build (zeros 0%R 3 2) (zeros 0%R 3 2) (zeros 0%R 3 2) [])
  = None.
Proof. reflexivity. Qed.

(** X15.  The second-stage call of [_update_QTD] moves [QTD[s,a]] towards
    the reward by [alpha2], and then moves the cell of the first-stage
    action of the last trial by [alpha1 * lam] times the error left
    after that first move, which is [(1 - alpha2) * (r - q)] for the old
    value [q] of [QTD[s,a]].  No other cell and no other table changes,
    and the argument [s1] is not used. *)
Theorem update_QTD_second_stage (alpha1 alpha2 lam : R) (s a a0 : nat)
  (r : Z) (s1 : option Z) (ag : TwoStepAgent.t) (q q0 : R)
  (last : TwoStepAgent.row) :
  s ≠ 0 →
  get2 (TwoStepAgent.QTD ag) s a = Some q →
  get2 (TwoStepAgent.QTD ag) 0 a0 = Some q0 →
  list.last (TwoStepAgent.history ag) = Some last →
  TwoStepAgent.h_a last = Z.of_nat a0 →
  ∃ ag',
    TwoStepAgent._update_QTD alpha1 alpha2 lam (Z.of_nat s) (Z.of_nat a) r
      s1 ag = Some ag'
    ∧ get2 (TwoStepAgent.QTD ag') s a = Some (q + alpha2 * (IZR r - q))%R
    ∧ get2 (TwoStepAgent.QTD ag') 0 a0
      = Some (q0 + alpha1 * lam * ((1 - alpha2) * (IZR r - q)))%R
    ∧ (∀ i j, (i, j) ≠ (s, a) → (i, j) ≠ (0, a0) →
         get2 (TwoStepAgent.QTD ag') i j = get2 (TwoStepAgent.QTD ag) i j)
    ∧ TwoStepAgent.QMB ag' = TwoStepAgent.QMB ag
    ∧ TwoStepAgent.Qnet ag' = TwoStepAgent.Qnet ag
    ∧ TwoStepAgent.history ag' = TwoStepAgent.history ag.
Proof.
  intros Hs Hq Hq0 Hlast Ha0. unfold TwoStepAgent._update_QTD.
  destruct (Z.eqb_spec (Z.of_nat s) 0) as [?|_]; [lia|].
  rewrite zget2_nat, Hq. simpl. rewrite zset2_nat.
  destruct (set2_is_Some (TwoStepAgent.QTD ag) s a
              (q + alpha2 * (IZR r - q))%R) as [QTD1 H1]; [by eexists|].
  rewrite H1. simpl. rewrite Hlast. simpl. rewrite Ha0.
  change 0%Z with (Z.of_nat 0). rewrite !zget2_nat.
  assert (get2 QTD1 0 a0 = Some q0) as Hq0'.
  { rewrite (get2_set2_ne _ _ _ _ _ _ _ H1); [done|]. intros [=]. lia. }
  rewrite Hq0'. simpl. rewrite (get2_set2_eq _ _ _ _ _ H1). simpl.
  rewrite zset2_nat.
  destruct (set2_is_Some QTD1 0 a0
              (q0 + alpha1 * lam * (IZR r - (q + alpha2 * (IZR r - q))))%R)
    as [QTD2 H2]; [by eexists|].
  rewrite H2. simpl. eexists. split; [done|]. simpl.
  split; [|split; [|split; [|done]]].
  - rewrite (get2_set2_ne _ _ _ _ _ _ _ H2); [|intros [=]; lia].
    by rewrite (get2_set2_eq _ _ _ _ _ H1).
  - rewrite (get2_set2_eq _ _ _ _ _ H2). f_equal. ring.
  - intros i j Hne1 Hne2.
    rewrite (get2_set2_ne _ _ _ _ _ _ _ H2) by done.
    by rewrite (get2_set2_ne _ _ _ _ _ _ _ H1).
Qed.

Lemma norm_index_lt (n : nat) (i : Z) (i' : nat) :
  norm_index n i = Some i' → i' < n.
Proof.
  unfold norm_index.
  destruct (Z.leb_spec 0 i).
  - destruct (Z.ltb_spec i (Z.of_nat n)); intros [= <-]. lia.
  - destruct (Z.leb_spec (- Z.of_nat n) i); intros [= <-]. lia.
Qed.

Lemma zset2_set2 {A} (t t' : list (list A)) (i j : Z) (x : A) :
  zset2 t i j x = Some t' → ∃ i' j', set2 t i' j' x = Some t'.
Proof.
  unfold zset2, set2. intros Hset.
  destruct (norm_index (length t) i) as [i'|]; [|done]. simpl in Hset.
  destruct (t !! i') as [row|] eqn:Hrow; [|done]. simpl in Hset.
  destruct (norm_index (length row) j) as [j'|] eqn:Hj; [|done].
  simpl in Hset. exists i', j'. rewrite Hrow.
  apply norm_index_lt in Hj.
  by destruct (lookup_lt_is_Some_2 row j' Hj) as [y ->].
Qed.

Lemma zset2_shape {A} (n m : nat) (t t' : list (list A)) (i j : Z) (x : A) :
  shape n m t → zset2 t i j x = Some t' → shape n m t'.
Proof.
  intros Hsh (i' & j' & Hset)%zset2_set2. by eapply set2_shape.
Qed.

Lemma insert_shape {A} (n m : nat) (t : list (list A)) (i : nat)
  (row : list A) :
  shape n m t → length row = m → shape n m (<[i := row]> t).
Proof.
  intros [Hlen Hrows] Hrow. split; [by rewrite length_insert|].
  intros k row' Hk. destruct (decide (k = i)) as [->|Hne].
  - destruct (decide (i < length t)) as [Hlt|Hge].
    + rewrite list_lookup_insert_eq in Hk by done. congruence.
    + rewrite list_insert_ge in Hk by lia. eauto.
  - rewrite list_lookup_insert_ne in Hk by done. eauto.
Qed.

Lemma zset_row_shape {A} (n m : nat) (t t' : list (list A)) (i : Z)
  (new : list A) :
  shape n m t → zset_row t i new = Some t' → shape n m t'.
Proof.
  intros Hsh. unfold zset_row. intros Hset.
  destruct (norm_index (length t) i) as [i'|]; [|done]. simpl in Hset.
  destruct (t !! i') as [row|] eqn:Hrow; [|done]. simpl in Hset.
  pose proof (proj2 Hsh _ _ Hrow) as Hlen.
  case_decide as Heq.
  - injection Hset as <-. apply insert_shape; [done|congruence].
  - destruct new as [|x [|? ?]]; try done. injection Hset as <-.
    apply insert_shape; [done|]. by rewrite length_replicate.
Qed.

Lemma mix_diag (w : R) (l : list R) :
  zip_with (fun mb td => (w * mb + (1 - w) * td)%R) l l = l.
Proof.
  induction l as [|x l IH]; simpl; [done|]. rewrite IH. f_equal. ring.
Qed.

Lemma mix_shape (w : R) (n m : nat) (t1 t2 : list (list R)) :
  shape n m t1 → shape n m t2 →
  shape n m (zip_with (zip_with (fun mb td => (w * mb + (1 - w) * td)%R))
               t1 t2).
Proof.
  intros [Hl1 Hr1] [Hl2 Hr2]. split.
  - rewrite length_zip_with. lia.
  - intros i row Hi. rewrite lookup_zip_with in Hi.
    destruct (t1 !! i) as [r1|] eqn:H1; [|done].
    destruct (t2 !! i) as [r2|] eqn:H2; [|done].
    simpl in Hi. injection Hi as <-. rewrite length_zip_with.
    rewrite (Hr1 _ _ H1), (Hr2 _ _ H2). lia.
Qed.

Lemma update_QTD_frame (alpha1 alpha2 lam : R) (s a r : Z) (s1 : option Z)
  (ag ag' : TwoStepAgent.t) (n m : nat) :
  shape n m (TwoStepAgent.QTD ag) →
  TwoStepAgent._update_QTD alpha1 alpha2 lam s a r s1 ag = Some ag' →
  shape n m (TwoStepAgent.QTD ag')
  ∧ TwoStepAgent.QMB ag' = TwoStepAgent.QMB ag
  ∧ TwoStepAgent.Qnet ag' = TwoStepAgent.Qnet ag
  ∧ TwoStepAgent.history ag' = TwoStepAgent.history ag.
Proof.
  intros Hsh. unfold TwoStepAgent._update_QTD.
  destruct (s =? 0)%Z.
  - destruct (zget2 _ 0 a) as [q|]; [|done]. simpl.
    destruct (match s1 with Some _ => _ | None => _ end) as [next|];
      [|done]. simpl.
    destruct (row_max next) as [mx|]; [|done]. simpl.
    destruct (zset2 _ 0 a _) as [QTD'|] eqn:Hset; [|done]. simpl.
    intros [= <-]. simpl. split; [|done]. by eapply zset2_shape.
  - destruct (zget2 _ s a) as [q|]; [|done]. simpl.
    destruct (zset2 _ s a _) as [QTD1|] eqn:H1; [|done]. simpl.
    destruct (list.last _) as [lst|]; [|done]. simpl.
    destruct (zget2 QTD1 0 _) as [q0|]; [|done]. simpl.
    destruct (zget2 QTD1 s a) as [q1|]; [|done]. simpl.
    destruct (zset2 QTD1 0 _ _) as [QTD2|] eqn:H2; [|done]. simpl.
    intros [= <-]. simpl. split; [|done].
    eapply zset2_shape; [|exact H2]. by eapply zset2_shape.
Qed.

Lemma update_QMB_frame (s : Z) (ag ag' : TwoStepAgent.t) (n m : nat) :
  shape n m (TwoStepAgent.QTD ag) → shape n m (TwoStepAgent.QMB ag) →
  TwoStepAgent._update_QMB s ag = Some ag' →
  TwoStepAgent.QTD ag' = TwoStepAgent.QTD ag
  ∧ shape n m (TwoStepAgent.QMB ag')
  ∧ TwoStepAgent.Qnet ag' = TwoStepAgent.Qnet ag
  ∧ TwoStepAgent.history ag' = TwoStepAgent.history ag
  ∧ (s ≠ 0%Z →
     ∃ i row, norm_index n s = Some i
              ∧ TwoStepAgent.QTD ag' !! i = Some row
              ∧ TwoStepAgent.QMB ag' !! i = Some row).
Proof.
  intros Htd Hmb. unfold TwoStepAgent._update_QMB.
  destruct (Z.eqb_spec s 0) as [->|Hs].
  - destruct (zrow _ 1) as [row1|]; [|done]. simpl.
    destruct (row_max row1) as [m1|]; [|done]. simpl.
    destruct (zrow _ 2) as [row2|]; [|done]. simpl.
    destruct (row_max row2) as [m2|]; [|done]. simpl.
    destruct (zset_row _ 0 _) as [QMB'|] eqn:Hset; [|done]. simpl.
    intros [= <-]. simpl. split; [done|]. split; [by eapply zset_row_shape|].
    done.
  - unfold zrow at 1.
    destruct (norm_index (length (TwoStepAgent.QTD ag)) s) as [i|] eqn:Hi;
      [|done]. simpl.
    destruct (TwoStepAgent.QTD ag !! i) as [src|] eqn:Hsrc; [|done]. simpl.
    destruct (zset_row _ s src) as [QMB'|] eqn:Hset; [|done]. simpl.
    intros [= <-]. simpl. split; [done|]. split; [by eapply zset_row_shape|].
    split; [done|]. split; [done|]. intros _.
    rewrite (proj1 Htd) in Hi. exists i, src. split; [done|].
    split; [done|].
    unfold zset_row in Hset. rewrite (proj1 Hmb), Hi in Hset.
    simpl in Hset.
    destruct (TwoStepAgent.QMB ag !! i) as [row|] eqn:Hrow; [|done].
    simpl in Hset.
    rewrite decide_True in Hset
      by (rewrite (proj2 Hmb _ _ Hrow), (proj2 Htd _ _ Hsrc); done).
    injection Hset as <-. apply list_lookup_insert_eq.
    by eapply lookup_lt_Some.
Qed.

(** X16.  On tables of one shape, [_learn] keeps the shape of the three
    tables and the history, and leaves [Qnet] the cell-wise mixture
    [w * QMB + (1 - w) * QTD] of the two tables it has just updated.  At
    a second-stage state the mixture does nothing: the row of [QMB] is
    a copy of the row of [QTD], so the row of [Qnet] is that row of
    [QTD] whatever the weight [w]. *)
Theorem learn_spec (alpha1 alpha2 lam w : R) (s a r : Z) (s1 : option Z)
  (ag ag' : TwoStepAgent.t) (n m : nat) :
  shape n m (TwoStepAgent.QTD ag) → shape n m (TwoStepAgent.QMB ag) →
  TwoStepAgent._learn alpha1 alpha2 lam w s a r s1 ag = Some ag' →
  shape n m (TwoStepAgent.QTD ag') ∧ shape n m (TwoStepAgent.QMB ag')
  ∧ shape n m (TwoStepAgent.Qnet ag')
  ∧ TwoStepAgent.history ag' = TwoStepAgent.history ag
  ∧ (∀ i j mb td,
       get2 (TwoStepAgent.QMB ag') i j = Some mb →
       get2 (TwoStepAgent.QTD ag') i j = Some td →
       get2 (TwoStepAgent.Qnet ag') i j = Some (w * mb + (1 - w) * td)%R)
  ∧ (s ≠ 0%Z →
     ∃ row, zrow (TwoStepAgent.QTD ag') s = Some row
            ∧ zrow (TwoStepAgent.QMB ag') s = Some row
            ∧ zrow (TwoStepAgent.Qnet ag') s = Some row).
Proof.
  intros Htd Hmb. unfold TwoStepAgent._learn.
  destruct (TwoStepAgent._update_QTD _ _ _ s a r s1 ag) as [ag1|] eqn:H1;
    [|done]. simpl.
  destruct (TwoStepAgent._update_QMB s ag1) as [ag2|] eqn:H2; [|done].
  simpl. intros [= <-].
  destruct (update_QTD_frame _ _ _ _ _ _ _ _ _ n m Htd H1)
    as (Htd1 & Hmb1 & _ & Hh1).
  rewrite <- Hmb1 in Hmb.
  destruct (update_QMB_frame _ _ _ n m Htd1 Hmb H2)
    as (Htd2 & Hmb2 & _ & Hh2 & Hrow).
  rewrite <- Htd2 in Htd1. simpl.
  split; [done|]. split; [done|]. split; [by apply mix_shape|].
  split; [congruence|]. split.
  - intros i j mb td. unfold get2. rewrite lookup_zip_with.
    destruct (TwoStepAgent.QMB ag2 !! i) as [r1|]; [|done].
    destruct (TwoStepAgent.QTD ag2 !! i) as [r2|]; [|done]. simpl.
    intros Hm Ht. by rewrite lookup_zip_with, Hm, Ht.
  - intros Hs. destruct (Hrow Hs) as (i & row & Hi & Hr1 & Hr2).
    exists row. unfold zrow. rewrite length_zip_with.
    rewrite (proj1 Htd1), (proj1 Hmb2), Nat.min_id, Hi. simpl.
    split; [done|]. split; [done|].
    by rewrite lookup_zip_with, Hr1, Hr2; simpl; rewrite mix_diag.
Qed.

(** ** Stay probabilities *)

Example four_trials_raise :
  TwoStepAgent.get_stay_probabilities four_trials = None.
Proof. reflexivity. Qed.

Example five_trials_stay :
  TwoStepAgent.get_stay_probabilities five_trials
  = Some [IZR 1 / IZR 1; IZR 0 / IZR 1; IZR 1 / IZR 1; IZR 1 / IZR 1]%R.
Proof. reflexivity. Qed.

Lemma count_trial_inv (c : TwoStepAgent.tally) (cur next : TwoStepAgent.row) :
  tally_ok c →
  tally_ok (TwoStepAgent.count_trial c cur next)
  ∧ counted (TwoStepAgent.count_trial c cur next) = (counted c + 1)%Z.
Proof.
  unfold tally_ok, counted, TwoStepAgent.count_trial, TwoStepAgent.stay.
  intros Hc.
  destruct (_ || _); destruct (TwoStepAgent.h_r1 cur =? 1)%Z;
    destruct (TwoStepAgent.h_a cur =? TwoStepAgent.h_a next)%Z; simpl; lia.
Qed.

Lemma count_trials_inv (h : list TwoStepAgent.row) (c : TwoStepAgent.tally) :
  tally_ok c →
  tally_ok (TwoStepAgent.count_trials c h)
  ∧ counted (TwoStepAgent.count_trials c h)
    = (counted c + Z.of_nat (length h - 1))%Z.
Proof.
  revert c. induction h as [|cur h IH]; intros c Hc.
  - simpl. split; [done|lia].
  - destruct h as [|next h].
    + simpl. split; [done|lia].
    + change (TwoStepAgent.count_trials c (cur :: next :: h))
        with (TwoStepAgent.count_trials
                (TwoStepAgent.count_trial c cur next) (next :: h)).
      destruct (count_trial_inv c cur next Hc) as [Hok Hn].
      destruct (IH _ Hok) as [Hok' Hn']. split; [done|].
      rewrite Hn', Hn. simpl length. lia.
Qed.

Lemma true_div_unit (x y : Z) (p : R) :
  (0 <= x <= y)%Z → TwoStepAgent.true_div x y = Some p →
  (0 < y)%Z ∧ (0 <= p <= 1)%R.
Proof.
  unfold TwoStepAgent.true_div. intros Hxy.
  destruct (Z.eqb_spec y 0) as [?|Hy]; [done|]. intros [= <-].
  assert (0 < y)%Z as Hpos by lia. split; [done|].
  assert (0 < IZR y)%R as HR by (by apply IZR_lt).
  assert (0 <= IZR x)%R as Hx by (apply IZR_le; lia).
  assert (IZR x <= IZR y)%R as Hle by (apply IZR_le; lia).
  split.
  - apply Rmult_le_pos; [done|]. left. by apply Rinv_0_lt_compat.
  - apply (Rmult_le_reg_r (IZR y)); [done|].
    unfold Rdiv. rewrite Rmult_assoc, Rinv_l by lra. lra.
Qed.

(** X17.  [get_stay_probabilities] divides by the number of trials of
    each of the four kinds among all trials but the last, so it raises a
    [ZeroDivisionError] unless every kind has occurred: always on a
    history of fewer than five trials.  When it returns, it returns
    four numbers between 0 and 1. *)
Theorem stay_probabilities_spec (ag : TwoStepAgent.t) :
  (length (TwoStepAgent.history ag) <= 4 →
   TwoStepAgent.get_stay_probabilities ag = None)
  ∧ ∀ ps, TwoStepAgent.get_stay_probabilities ag = Some ps →
          5 <= length (TwoStepAgent.history ag)
          ∧ length ps = 4
          ∧ ∀ p, p ∈ ps → (0 <= p <= 1)%R.
Proof.
  assert (∀ ps, TwoStepAgent.get_stay_probabilities ag = Some ps →
            5 <= length (TwoStepAgent.history ag)
            ∧ length ps = 4 ∧ ∀ p, p ∈ ps → (0 <= p <= 1)%R) as Hsome.
  { intros ps. unfold TwoStepAgent.get_stay_probabilities.
    destruct (count_trials_inv (TwoStepAgent.history ag)
                (TwoStepAgent.Tally 0 0 0 0 0 0 0 0)) as [Hok Hn].
    { unfold tally_ok. simpl. lia. }
    set (c := TwoStepAgent.count_trials _ _) in *.
    destruct Hok as (H1 & H2 & H3 & H4).
    destruct (TwoStepAgent.true_div (TwoStepAgent.common_r c) _)
      as [p1|] eqn:E1; [|done]. simpl.
    destruct (TwoStepAgent.true_div (TwoStepAgent.rare_r c) _)
      as [p2|] eqn:E2; [|done]. simpl.
    destruct (TwoStepAgent.true_div (TwoStepAgent.common_nr c) _)
      as [p3|] eqn:E3; [|done]. simpl.
    destruct (TwoStepAgent.true_div (TwoStepAgent.rare_nr c) _)
      as [p4|] eqn:E4; [|done]. simpl.
    intros [= <-].
    apply true_div_unit in E1 as [N1 B1]; [|done].
    apply true_div_unit in E2 as [N2 B2]; [|done].
    apply true_div_unit in E3 as [N3 B3]; [|done].
    apply true_div_unit in E4 as [N4 B4]; [|done].
    split.
    - unfold counted in Hn. simpl in Hn. lia.
    - split; [done|]. intros p Hp.
      repeat (apply elem_of_cons in Hp as [->|Hp]; [done|]).
      by apply elem_of_nil in Hp. }
  split; [|done]. intros Hlen.
  destruct (TwoStepAgent.get_stay_probabilities ag) as [ps|] eqn:E; [|done].
  destruct (Hsome ps eq_refl) as [Hge _]. lia.
Qed.

(** ** The softmax policy of the two-step agent *)






(** ** Runs of the two-step agent *)

















(** ** The further properties at the small instances *)

Lemma simulate_returns {C} `{ActionCount C} `{!ActionCountLaws C}
  (alpha gamma epsilon : R) (env : Environment.t) (n : nat)
  (npu : option nat) (ag : agent C) :
  env_ok env →
  ∃ ag', simulate alpha gamma epsilon env n true npu ag = Some (tt, ag').
Proof.
  intros Henv. unfold simulate.
  rewrite (bind_run _ _ _ _ _ (reset_run env ag)).
  match goal with
  | |- context [for_range _ _ ?ag0] =>
      destruct (trials_total alpha gamma epsilon env npu n ag0 Henv)
        as (ag' & Hrun & _)
  end; [|by exists ag'].
  split; [exact (reset_tables_ok env ag)|].
  destruct Henv as (_ & Hstart & _). exact Hstart.
Qed.

Lemma proper_maze : proper maze.
Proof. unfold proper. simpl. lia. Qed.

Lemma coords_round_trip_witness :
  4 < Maze.num_states maze
  ∧ (1 < Maze.num_y_states maze ∧ 2 < Maze.num_x_states maze)
  ∧ (Maze.num_y_states maze ≤ 3 ∨ Maze.num_x_states maze ≤ 0)
  ∧ (∃ i j,
       Environment._convert_state_to_coords (Maze.attributes maze) 4 = (i, j)
       ∧ Maze._convert_coords_to_state maze (Z.of_nat i) (Z.of_nat j)
         = Some 4)
  ∧ Maze._convert_coords_to_state maze (Z.of_nat 1) (Z.of_nat 2)
    = Some (1 * Maze.num_x_states maze + 2)
  ∧ Maze._convert_coords_to_state maze (Z.of_nat 3) (Z.of_nat 0) = None.
Proof.
  assert (4 < Maze.num_states maze) as H4
    by (unfold Maze.num_states; simpl; lia).
  assert (1 < Maze.num_y_states maze) as Hi by (simpl; lia).
  assert (2 < Maze.num_x_states maze) as Hj by (simpl; lia).
  assert (Maze.num_y_states maze ≤ 3 ∨ Maze.num_x_states maze ≤ 0) as Hout
    by (left; simpl; lia).
  split; [done|]. split; [done|]. split; [done|].
  destruct (coords_round_trip maze) as (Hto & Hfrom & Hraise).
  split; [|split].
  - destruct (Hto 4 H4) as (i & j & Hc & _ & _ & Hback). by exists i, j.
  - by destruct (Hfrom 1 2 Hi Hj) as [Hs _].
  - by apply Hraise.
Defined.

Lemma get_new_state_spec_witness :
  proper maze ∧ 3 < Maze.num_actions maze ∧ 3 < Maze.num_states maze
  ∧ (3 ∉ Maze.blocked_states maze)
  ∧ ∃ s1 r, Maze._get_new_state maze 3 3 = Some (s1, r)
            ∧ s1 < Maze.num_states maze
            ∧ s1 ∉ Maze.blocked_states maze.
Proof.
  assert (3 < Maze.num_actions maze) as Ha by (simpl; lia).
  assert (3 < Maze.num_states maze) as Hs
    by (unfold Maze.num_states; simpl; lia).
  assert (3 ∉ Maze.blocked_states maze) as Hfree.
  { simpl. intros [?|[]%elem_of_nil]%elem_of_cons. lia. }
  split; [exact proper_maze|]. split; [done|]. split; [done|].
  split; [done|].
  destruct (get_new_state_spec maze 3 3 proper_maze Ha Hs)
    as (s1 & r & Hrun & _ & Hlt & Hnot).
  exists s1, r. split; [done|]. split; [done|]. by apply Hnot.
Defined.

Lemma init_raises_witness :
  Maze.num_y_states one_row = 1 ∧ 0 < Maze.num_x_states one_row
  ∧ 2 ≤ Maze.num_actions one_row
  ∧ Maze.__init__ one_row = None.
Proof.
  assert (0 < Maze.num_x_states one_row) as Hx by (simpl; lia).
  assert (2 ≤ Maze.num_actions one_row) as Ha by (simpl; lia).
  split; [done|]. split; [done|]. split; [done|].
  destruct (init_raises one_row) as (_ & Hrow & _).
  by apply Hrow.
Defined.

Lemma init_spec_witness :
  proper maze ∧ 0 < Maze.num_actions maze
  ∧ Maze.start_state maze < Maze.num_states maze
  ∧ ∃ env, Maze.__init__ maze = Some env
           ∧ Environment.num_actions env = 4
           ∧ env_ok env.
Proof.
  assert (0 < Maze.num_actions maze) as Ha by (simpl; lia).
  assert (Maze.start_state maze < Maze.num_states maze) as Hs
    by (unfold Maze.num_states; simpl; lia).
  split; [exact proper_maze|]. split; [done|]. split; [done|].
  destruct (init_spec maze proper_maze)
    as (env & Hinit & _ & _ & Hna & _ & _ & _ & Hok).
  exists env. split; [done|]. split; [done|]. by apply Hok.
Defined.

Lemma history_allowed_witness :
  env_ok corridor
  ∧ ∃ ag' new,
      simulate 1 1 1 corridor 3 true (Some 2) midway = Some (tt, ag')
      ∧ history ag' = new
      ∧ length new = 3
      ∧ ∀ tr, tr ∈ new → allowed corridor tr.
Proof.
  split; [exact corridor_ok|].
  destruct (simulate_returns 1 1 1 corridor 3 (Some 2) midway corridor_ok)
    as [ag' Hrun].
  destruct (history_allowed 1 1 1 corridor 3 true (Some 2) midway ag'
              corridor_ok (or_introl eq_refl) Hrun)
    as (new & Hhist & Hlen & Hall).
  by exists ag', new.
Defined.

Lemma maze_run_witness :
  proper maze ∧ 0 < Maze.num_actions maze
  ∧ Maze.start_state maze < Maze.num_states maze
  ∧ ∃ env ag',
      Maze.__init__ maze = Some env
      ∧ simulate 1 1 1 env 2 true None fresh = Some (tt, ag')
      ∧ length (history ag') = 2.
Proof.
  assert (0 < Maze.num_actions maze) as Ha by (simpl; lia).
  assert (Maze.start_state maze < Maze.num_states maze) as Hs
    by (unfold Maze.num_states; simpl; lia).
  split; [exact proper_maze|]. split; [done|]. split; [done|].
  destruct (init_total maze proper_maze) as (T & R' & Hinit & _).
  destruct (maze_run 1 1 1 maze _ 2 None fresh proper_maze Ha Hs Hinit)
    as (ag' & Hrun & Hlen & _).
  eexists _, ag'. split; [exact Hinit|]. split; [exact Hrun|exact Hlen].
Defined.




Lemma zero_learning_rate_witness :
  ∃ ag',
    simulate 0 1 1 corridor 3 true (Some 2) midway = Some (tt, ag')
    ∧ Q ag' = zeros 0%R 2 1.
Proof.
  destruct (simulate_returns 0 1 1 corridor 3 (Some 2) midway corridor_ok)
    as [ag' Hrun].
  exists ag'. split; [done|].
  destruct (zero_learning_rate 1 1 corridor midway ag') as (_ & _ & Hsim).
  by rewrite (Hsim 3 true (Some 2) Hrun).
Defined.



Lemma policy_unique_maximizer_witness :
  score 0 midway 1 1 = Some (2 + 0 * sqrt (IZR 1))%R
  ∧ (∀ a' y, a' ≠ 1 → score 0 midway 1 a' = Some y →
       (y < 2 + 0 * sqrt (IZR 1))%R)
  ∧ _policy 0 1 midway = Some (1, set_np_random_pos 1 midway).
Proof.
  assert (∀ a' y, a' ≠ 1 → score 0 midway 1 a' = Some y →
            (y < 2 + 0 * sqrt (IZR 1))%R) as Hothers.
  { intros a' y Hne. destruct a' as [|[|a']]; [|done|].
    - intros [= <-]. lra.
    - unfold score, get2. simpl. done. }
  split; [done|]. split; [done|].
  by apply (policy_unique_maximizer 0 midway 1 1 _ eq_refl Hothers).
Defined.

Lemma update_rewardp_reflects_witness :
  length [1 / 10; - (1 / 10); 1 / 10; - (1 / 10)]%R
  = length (TwoStepEnv.rewardp second_stage)
  ∧ TwoStepEnv.rewardp
      (TwoStepEnv._update_rewardp [1 / 10; - (1 / 10); 1 / 10; - (1 / 10)]%R
         second_stage) !! 2
    = Some (3 / 2 - (3 / 4 + 1 / 10))%R
  ∧ ∀ q, q ∈ TwoStepEnv.rewardp
               (TwoStepEnv._update_rewardp
                  [1 / 10; - (1 / 10); 1 / 10; - (1 / 10)]%R second_stage) →
         (1 / 4 <= q <= 3 / 4)%R.
Proof.
  split; [done|].
  destruct (update_rewardp_reflects
              [1 / 10; - (1 / 10); 1 / 10; - (1 / 10)]%R second_stage
              eq_refl) as (_ & _ & Hcell & Hbounds).
  split.
  - rewrite (Hcell 2 (3 / 4)%R (1 / 10)%R eq_refl eq_refl).
    destruct (Rlt_dec (3 / 4 + 1 / 10) (1 / 4)); [exfalso; lra|].
    destruct (Rlt_dec (3 / 4) (3 / 4 + 1 / 10)); [done|exfalso; lra].
  - apply Hbounds.
    + intros q Hq. simpl in Hq.
      repeat (apply elem_of_cons in Hq as [->|Hq]; [lra|]).
      by apply elem_of_nil in Hq.
    + intros x Hx.
      repeat (apply elem_of_cons in Hx as [->|Hx]; [lra|]).
      by apply elem_of_nil in Hx.
Defined.

Lemma step_two_stages_witness :
  (1 = 0 ∨ 1 = 1)%Z
  ∧ (TwoStepEnv.s second_stage = 1 ∨ TwoStepEnv.s second_stage = 2)%Z
  ∧ length (TwoStepEnv.rewardp second_stage) = 4
  ∧ ∃ r e',
      TwoStepEnv.step (1 / 2) [0; 0; 0; 0]%R 1 second_stage = Some (r, e')
      ∧ TwoStepEnv.s e' = 0%Z.
Proof.
  assert (1 = 0 ∨ 1 = 1)%Z as Ha by (by right).
  assert (TwoStepEnv.s second_stage = 1 ∨ TwoStepEnv.s second_stage = 2)%Z
    as Hs by (by right).
  split; [done|]. split; [done|]. split; [done|].
  destruct (step_two_stages (1 / 2) [0; 0; 0; 0]%R 1 second_stage Ha)
    as [_ Hsecond].
  destruct (Hsecond Hs eq_refl) as (q & r & e' & _ & Hrun & _ & Hs' & _).
  by exists r, e'.
Defined.

Lemma update_QTD_second_stage_witness :
  1 ≠ 0
  ∧ get2 (TwoStepAgent.QTD five_trials) 1 0 = Some 0%R
  ∧ get2 (TwoStepAgent.QTD five_trials) 0 1 = Some 0%R
  ∧ list.last (TwoStepAgent.history five_trials)
    = Some (TwoStepAgent.Row 1 1 1)
  ∧ ∃ ag',
      TwoStepAgent._update_QTD (1 / 2) (1 / 2) 1 (Z.of_nat 1) (Z.of_nat 0) 1
        None five_trials = Some ag'
      ∧ get2 (TwoStepAgent.QTD ag') 0 1
        = Some (0 + 1 / 2 * 1 * ((1 - 1 / 2) * (IZR 1 - 0)))%R.
Proof.
  assert (1 ≠ 0) as Hne by lia.
  split; [done|]. split; [done|]. split; [done|]. split; [done|].
  destruct (update_QTD_second_stage (1 / 2) (1 / 2) 1 1 0 1 1 None
              five_trials 0 0 (TwoStepAgent.Row 1 1 1) Hne eq_refl eq_refl
              eq_refl eq_refl) as (ag' & Hrun & _ & Htrace & _).
  by exists ag'.
Defined.

Lemma learn_spec_witness :
  shape 3 2 (TwoStepAgent.QTD five_trials)
  ∧ shape 3 2 (TwoStepAgent.QMB five_trials)
  ∧ ∃ ag' row,
      TwoStepAgent._learn (1 / 2) (1 / 2) 1 (1 / 3) 1 0 1 None five_trials
      = Some ag'
      ∧ zrow (TwoStepAgent.QTD ag') 1 = Some row
      ∧ zrow (TwoStepAgent.Qnet ag') 1 = Some row.
Proof.
  assert (shape 3 2 (TwoStepAgent.QTD five_trials)) as Htd
    by apply zeros_shape.
  assert (shape 3 2 (TwoStepAgent.QMB five_trials)) as Hmb
    by apply zeros_shape.
  split; [done|]. split; [done|].
  assert (∃ ag', TwoStepAgent._learn (1 / 2) (1 / 2) 1 (1 / 3) 1 0 1 None
                   five_trials = Some ag') as [ag' Hrun]
    by (eexists; reflexivity).
  destruct (learn_spec (1 / 2) (1 / 2) 1 (1 / 3) 1 0 1 None five_trials ag'
              3 2 Htd Hmb Hrun) as (_ & _ & _ & _ & _ & Hrow).
  destruct Hrow as (row & H1 & _ & H3); [lia|].
  by exists ag', row.
Defined.

Lemma stay_probabilities_spec_witness :
  length (TwoStepAgent.history four_trials) <= 4
  ∧ TwoStepAgent.get_stay_probabilities four_trials = None
  ∧ ∃ ps, TwoStepAgent.get_stay_probabilities five_trials = Some ps
          ∧ ∀ p, p ∈ ps → (0 <= p <= 1)%R.
Proof.
  assert (length (TwoStepAgent.history four_trials) <= 4) as Hlen
    by (simpl; lia).
  split; [done|]. split.
  - destruct (stay_probabilities_spec four_trials) as [Hraise _].
    by apply Hraise.
  - destruct (stay_probabilities_spec five_trials) as [_ Hsome].
    destruct (Hsome _ five_trials_stay) as (_ & _ & Hunit).
    by eexists.
Defined.


